(** * pasta: annotated-tree printer and constant inlining

    A shallow embedding of [pasta/base/codegen.py] and
    [pasta/augment/inline.py].  Python objects live in a store of mutable
    cells addressed by identity; operations that raise or mutate are written
    in a state-and-exception monad, so that what has been mutated at the
    moment of a [raise] stays visible. *)

From Stdlib Require Import ZArith Ascii String List Bool Lia.
From stdpp Require Import base option list gmap strings.

Local Open Scope string_scope.
Local Open Scope list_scope.

(** ** Python values, exceptions and control *)
Module Py.

(** The exception classes the two modules raise, catch or let through. *)
Inductive exn :=
| TypeError
| ValueError
| IndexError
| KeyError
| AttributeError
| InvalidAstError
| PrintError (cause : exn)
| InlineError (msg : string).

Inductive outcome (A : Type) :=
| Ret (a : A)
| Raise (e : exn).
Arguments Ret {A} a.
Arguments Raise {A} e.

(** A computation over a mutable state [S]: the state that comes back with
    [Raise] is the state at the moment the exception left the computation. *)
Definition M (S A : Type) : Type := S -> outcome A * S.

Definition ret {S A} (a : A) : M S A := fun s => (Ret a, s).
Definition raise {S A} (e : exn) : M S A := fun s => (Raise e, s).
Definition bind {S A B} (m : M S A) (k : A -> M S B) : M S B :=
  fun s => match m s with
           | (Ret a, s') => k a s'
           | (Raise e, s') => (Raise e, s')
           end.
Definition get {S} : M S S := fun s => (Ret s, s).
Definition put {S} (s : S) : M S unit := fun _ => (Ret tt, s).
Definition modify {S} (f : S -> S) : M S unit := fun s => (Ret tt, f s).

(** [try: m except (classes): handler]. *)
Definition try_except {S A} (m : M S A) (caught : exn -> bool)
           (handler : exn -> M S A) : M S A :=
  fun s => match m s with
           | (Ret a, s') => (Ret a, s')
           | (Raise e, s') => if caught e then handler e s' else (Raise e, s')
           end.

(** [for x in l: body x]. *)
Fixpoint for_each {S A} (l : list A) (body : A -> M S unit) : M S unit :=
  match l with
  | [] => ret tt
  | x :: rest => bind (body x) (fun _ => for_each rest body)
  end.

(** *** Strings *)

(** [s[0]] and [s[-1]] of a non-empty string. *)
Definition first_char (s : string) : option ascii :=
  match s with
  | EmptyString => None
  | String c _ => Some c
  end.

Fixpoint last_char (s : string) : option ascii :=
  match s with
  | EmptyString => None
  | String c EmptyString => Some c
  | String _ rest => last_char rest
  end.

(** [str.isalnum] on one character of ASCII text: digits and letters.
    Beyond ASCII it is the Unicode tables that decide, and they are not
    part of this development: what is stated about the separating space is
    stated of ASCII text. *)
Definition isalnum (c : ascii) : bool :=
  let n := nat_of_ascii c in
  (Nat.leb 48 n && Nat.leb n 57) || (Nat.leb 65 n && Nat.leb n 90)
  || (Nat.leb 97 n && Nat.leb n 122).

(** [s.isalnum()] on a whole text: it is not empty and every character is
    alphanumeric. *)
Definition str_isalnum (s : string) : bool :=
  match s with
  | EmptyString => false
  | String _ _ => forallb isalnum (list_ascii_of_string s)
  end.

Definition opt_isalnum (c : option ascii) : bool :=
  match c with
  | Some c => isalnum c
  | None => false
  end.

(** Truthiness of a string: non-empty. *)
Definition truthy_str (s : string) : bool :=
  match s with
  | EmptyString => false
  | String _ _ => true
  end.

(** [s.replace(old, new)] for a non-empty [old]: occurrences are found left
    to right and do not overlap.  [skip] counts the characters of a match
    still to be dropped. *)
Fixpoint replace_from (old new : string) (skip : nat) (s : string) : string :=
  match s with
  | EmptyString => EmptyString
  | String c rest =>
      match skip with
      | S k => replace_from old new k rest
      | O =>
          if String.prefix old s
          then new ++ replace_from old new (String.length old - 1) rest
          else String c (replace_from old new 0 rest)
      end
  end.

Definition replace (old new s : string) : string := replace_from old new 0 s.

(** [repr] of a string that needs no escaping (an identifier). *)
Definition repr_str (s : string) : string := "'" ++ s ++ "'".

(** *** Objects *)

(** What an attribute of an AST object, or an entry of its formatting
    dictionary, holds.  Other objects are held by identity. *)
#[warnings="-register-all"]
Inductive value :=
| VNone
| VBool (b : bool)
| VInt (z : Z)
| VStr (s : string)
| VRef (id : nat)
| VList (items : list value).

(** [a == b].  A bool is the integer [0] or [1], so that [True == 1];
    texts are compared by content and lists item by item; [None] and the
    other objects are equal to themselves only. *)
Fixpoint value_eqb (a b : value) : bool :=
  match a, b with
  | VNone, VNone => true
  | VBool x, VBool y => Bool.eqb x y
  | VBool x, VInt y => Z.eqb (Z.b2z x) y
  | VInt x, VBool y => Z.eqb x (Z.b2z y)
  | VInt x, VInt y => Z.eqb x y
  | VStr x, VStr y => String.eqb x y
  | VRef x, VRef y => Nat.eqb x y
  | VList xs, VList ys =>
      (fix all2 (xs ys : list value) : bool :=
         match xs, ys with
         | [], [] => true
         | x :: xs', y :: ys' => value_eqb x y && all2 xs' ys'
         | _, _ => false
         end) xs ys
  | _, _ => false
  end.

(** One AST object: its class, its [_fields] in declaration order with the
    attribute each holds, the [__pasta__] dictionary when it has one
    (insertion ordered), and the printer's transient [_printer_info]. *)
Record obj := Obj {
  cls : string;
  fields : list (string * value);
  pasta : option (list (string * value));
  printer_info : option (gmap string bool)
}.

Abbreviation heap := (list obj) (only parsing).

(** Lookup in an insertion-ordered dictionary, and assignment to a key
    (in place when the key exists, appended otherwise). *)
Fixpoint assoc {A} (k : string) (d : list (string * A)) : option A :=
  match d with
  | [] => None
  | (k', v) :: rest => if String.eqb k k' then Some v else assoc k rest
  end.

Fixpoint assoc_set {A} (k : string) (v : A) (d : list (string * A))
  : list (string * A) :=
  match d with
  | [] => [(k, v)]
  | (k', v') :: rest =>
      if String.eqb k k' then (k, v) :: rest else (k', v') :: assoc_set k v rest
  end.

(** [v is None]. *)
Definition is_none (v : value) : bool :=
  match v with
  | VNone => true
  | _ => false
  end.

(** [getattr(node, name, None)] over the fields. *)
Definition getattr_or_none (o : obj) (name : string) : value :=
  match assoc name (fields o) with
  | Some v => v
  | None => VNone
  end.

(** [isinstance(x, astlib.C)] for a reference into the store. *)
Definition isinstance (h : heap) (id : nat) (c : string) : bool :=
  match h !! id with
  | Some o => String.eqb (cls o) c
  | None => false
  end.

End Py.

(** ** pasta.base.formatting *)
Module Fmt.
Import Py.

(** Modelled from the spec: [pasta/base/formatting.py] is not part of the
    sources at hand.  Section 4.1: [get(node, attr) -> fragment | absent],
    [has(node, attr) -> bool], looked up by string key scoped to the node
    instance, with no validation logic.  [get_or] is the three-argument
    form the printer calls with an explicit default. *)
Definition get (o : obj) (name : string) : value :=
  match pasta o with
  | Some d => match assoc name d with Some v => v | None => VNone end
  | None => VNone
  end.

Definition get_or (o : obj) (name : string) (default : value) : value :=
  match pasta o with
  | Some d => match assoc name d with Some v => v | None => default end
  | None => default
  end.

Definition has (o : obj) (name : string) : bool :=
  match pasta o with
  | Some d => match assoc name d with Some _ => true | None => false end
  | None => false
  end.

End Fmt.

(** ** pasta.base.codegen *)
Module Codegen.
Import Py.

(** The [Printer] instance together with the objects it walks: [_code] is
    the output so far, [_indent] the indentation the base visitor keeps,
    [store] the AST objects (the printer writes their [_printer_info]). *)
Record printer := Printer {
  _code : string;
  _indent : string;
  store : heap
}.

Definition set_code (c : string) (p : printer) : printer :=
  Printer c (_indent p) (store p).

Definition set_store (h : heap) (p : printer) : printer :=
  Printer (_code p) (_indent p) h.

Definition set_printer_info (pi : option (gmap string bool)) (o : obj) : obj :=
  Obj (cls o) (fields o) (pasta o) pi.

(** [_add_code]: the indentation marker is expanded, then the text is
    appended. *)
Definition _add_code (code : string) : M printer unit :=
  fun p =>
    let code := replace "@@indent@@" (_indent p) code in
    (Ret tt, set_code (_code p ++ code) p).

(** The guard shared by [token] and [attr]:
    [separate_before and self.code and self.code[-1].isalnum() and
     (not val or val[0].isalnum())]. *)
Definition needs_space (separate_before : bool) (code val : string) : bool :=
  separate_before && truthy_str code && opt_isalnum (last_char code)
  && (negb (truthy_str val) || opt_isalnum (first_char val)).


(** [any(fmt.has(node, dep + '__src') and
         getattr(node, dep, None) != fmt.get(node, dep + '__src')
         for dep in deps)]. *)
Definition dep_changed (o : obj) (dep : string) : bool :=
  Fmt.has o (dep ++ "__src")
  && negb (value_eqb (getattr_or_none o dep) (Fmt.get o (dep ++ "__src"))).

Definition any_dep_changed (o : obj) (deps : list string) : bool :=
  existsb (dep_changed o) deps.

(** The value [attr] settles on before emitting: the stored one, or the
    default when nothing is stored or a dependency moved; [None] becomes
    the empty string. *)
Definition attr_val (o : obj) (attr_name : string)
           (deps : option (list string)) (default : option string) : value :=
  let val := Fmt.get o attr_name in
  let stale := match deps with
               | Some ds => any_dep_changed o ds
               | None => false
               end in
  let val := if is_none val || stale
             then match default with Some d => VStr d | None => VNone end
             else val in
  if is_none val then VStr "" else val.

(** Truthiness of a value. *)
Definition truthy (v : value) : bool :=
  match v with
  | VNone => false
  | VBool b => b
  | VInt z => negb (Z.eqb z 0)
  | VStr s => truthy_str s
  | VRef _ => true
  | VList items => match items with [] => false | _ => true end
  end.

(** The last operand of the separation guard of [attr],
    [not val or val[0].isalnum()], on a value of any kind.  A falsy value
    lets the space through; a text answers by its first character; a
    number, a bool or a node cannot be indexed ([TypeError]); the first item
    of a list answers [isalnum] when it is text, and has no such method
    otherwise ([AttributeError]). *)
Definition index_guard (val : value) : outcome bool :=
  if negb (truthy val) then Ret true
  else match val with
       | VStr s => Ret (opt_isalnum (first_char s))
       | VList (VStr s :: _) => Ret (str_isalnum s)
       | VList (_ :: _) => Raise AttributeError
       | _ => Raise TypeError
       end.

(** [Printer.attr].  [attr_vals] is deleted on entry and is left out.  A
    node outside any [visit] has no [_printer_info]; reading the
    defaultdict and then setting the flag leaves the flag set.  A stored
    value that is not text goes the same way as a text: the guard is
    evaluated on it, the space is written when the guard lets it through,
    and [_add_code] then fails on it with [AttributeError], for want of a
    [replace] method. *)
Definition attr (node : nat) (attr_name : string)
           (deps : option (list string)) (default : option string)
           (separate_before : bool) : M printer unit :=
  bind get (fun p =>
  match store p !! node with
  | None => raise AttributeError
  | Some o =>
      match printer_info o with
      | None => ret tt
      | Some info =>
          if match info !! attr_name with Some b => b | None => false end
          then ret tt
          else
            bind (modify (set_store
                    (<[node := set_printer_info
                                 (Some (<[attr_name := true]> info)) o]>
                       (store p)))) (fun _ =>
            match attr_val o attr_name deps default with
            | VStr val =>
                bind (if needs_space separate_before (_code p) val
                      then _add_code " " else ret tt) (fun _ =>
                _add_code val)
            | val =>
                bind (if separate_before && truthy_str (_code p)
                         && opt_isalnum (last_char (_code p))
                      then match index_guard val with
                           | Ret true => _add_code " "
                           | Ret false => ret tt
                           | Raise e => raise e
                           end
                      else ret tt) (fun _ =>
                raise AttributeError)
            end)
      end
  end).

(** [except (TypeError, ValueError, IndexError, KeyError)]. *)
Definition internal_error (e : exn) : bool :=
  match e with
  | TypeError | ValueError | IndexError | KeyError => true
  | _ => false
  end.

Definition update_node (node : nat) (f : obj -> obj) : M printer unit :=
  modify (fun p => match store p !! node with
                   | Some o => set_store (<[node := f o]> (store p)) p
                   | None => p
                   end).

(** [del node._printer_info]. *)
Definition del_printer_info (node : nat) : M printer unit :=
  bind get (fun p =>
  match store p !! node with
  | Some o =>
      match printer_info o with
      | Some _ => update_node node (set_printer_info None)
      | None => raise AttributeError
      end
  | None => raise AttributeError
  end).

(** [Printer.visit].  [super_visit] is the base visitor's [visit], which
    dispatches on the class of the node and comes back here for every
    child. *)
Definition visit (super_visit : nat -> M printer unit) (node : nat)
  : M printer unit :=
  bind (update_node node (set_printer_info (Some ∅))) (fun _ =>
  bind (try_except (super_visit node) internal_error
                   (fun e => raise (PrintError e))) (fun _ =>
  del_printer_info node)).

(** *** Default indentation (the loop and the [max] of [to_str]) *)

(** [ast.iter_child_nodes]: the objects held by the fields, in order. *)
Definition iter_child_nodes (o : obj) : list nat :=
  flat_map (fun fv => match snd fv with
                      | VRef i => [i]
                      | VList items =>
                          flat_map (fun v => match v with
                                             | VRef i => [i]
                                             | _ => []
                                             end) items
                      | _ => []
                      end) (fields o).

(** [ast.walk]: a queue, first in first out.  Every iteration consumes one
    unit of [fuel]; [None] is a walk that has not ended within it. *)
Fixpoint walk (fuel : nat) (h : heap) (todo : list nat) : option (list nat) :=
  match todo with
  | [] => Some []
  | n :: rest =>
      match fuel with
      | O => None
      | S fuel' =>
          match h !! n with
          | Some o =>
              option_map (cons n) (walk fuel' h (rest ++ iter_child_nodes o))
          | None => None
          end
      end
  end.

(** The dictionary [seen_indent_diffs], in insertion order.  Any hashable
    value can be a key, and two keys that are equal are one key: [d[k]]
    finds the entry whose key equals [k]. *)
Fixpoint lookup_key (k : value) (d : list (value * nat)) : option nat :=
  match d with
  | [] => None
  | (k', c) :: rest => if value_eqb k' k then Some c else lookup_key k rest
  end.

(** [d[k] = c]: the entry of an equal key keeps its key and its place, a
    new key goes to the end. *)
Fixpoint store_key (k : value) (c : nat) (d : list (value * nat))
  : list (value * nat) :=
  match d with
  | [] => [(k, c)]
  | (k', c') :: rest =>
      if value_eqb k' k then (k', c) :: rest else (k', c') :: store_key k c rest
  end.

(** [seen_indent_diffs[indent_diff] += 1] on the defaultdict. *)
Definition bump (k : value) (seen : list (value * nat)) : list (value * nat) :=
  match lookup_key k seen with
  | Some c => store_key k (S c) seen
  | None => store_key k 1 seen
  end.

(** Lists cannot be hashed; every other value here can. *)
Definition hashable (v : value) : bool :=
  match v with
  | VList _ => false
  | _ => true
  end.

(** The loop over [astlib.walk(tree)]: every truthy [indent_diff] is
    counted, text or not; one that cannot be hashed ends the loop in
    [TypeError]. *)
Fixpoint count_indent_diffs (vals : list value) (seen : list (value * nat))
  : outcome (list (value * nat)) :=
  match vals with
  | [] => Ret seen
  | v :: rest =>
      if truthy v then
        if hashable v then count_indent_diffs rest (bump v seen)
        else Raise TypeError
      else count_indent_diffs rest seen
  end.

(** [max] applies its key to every item in turn, and the key takes the
    [len] of the indentation: a key of the dictionary that is not text has
    none, and ends [max] in [TypeError].  When every key is text, these are
    the items [max] compares. *)
Fixpoint text_items (seen : list (value * nat))
  : outcome (list (string * nat)) :=
  match seen with
  | [] => Ret []
  | (VStr s, c) :: rest =>
      match text_items rest with
      | Ret items => Ret ((s, c) :: items)
      | Raise e => Raise e
      end
  | _ :: _ => Raise TypeError
  end.

(** [key=lambda tup: (tup[1], -1 * len(tup[0]))], compared as tuples. *)
Definition indent_key (tup : string * nat) : Z * Z :=
  (Z.of_nat (snd tup), (-1 * Z.of_nat (String.length (fst tup)))%Z).

Definition key_lt (a b : Z * Z) : bool :=
  (fst a <? fst b)%Z || ((fst a =? fst b)%Z && (snd a <? snd b)%Z).

(** [max(items, key=...)]: the first item whose key no later item beats. *)
Fixpoint max_from (best : string * nat) (items : list (string * nat))
  : string * nat :=
  match items with
  | [] => best
  | x :: rest =>
      max_from (if key_lt (indent_key best) (indent_key x) then x else best) rest
  end.

Definition most_prevalent (seen : list (string * nat)) : option string :=
  match seen with
  | [] => None
  | x :: rest => Some (fst (max_from x rest))
  end.

(** What the base visitor ([pasta/base/annotate.py], not part of the
    sources at hand) contributes to the printer: its [visit] dispatch, the
    setter of the default indentation, and [prefix] and [suffix]. *)
Record base_visitor := BaseVisitor {
  super_visit : nat -> M printer unit;
  set_default_indent_diff : string -> M printer unit;
  prefix : nat -> M printer unit;
  suffix : nat -> M printer unit;
  init_indent : string
}.

(** [fmt.get(node, 'indent_diff', '')] for every walked node. *)
Definition indent_diffs (h : heap) (nodes : list nat) : list value :=
  omap (fun n => (fun o => Fmt.get_or o "indent_diff" (VStr "")) <$> h !! n)
       nodes.

(** The detection of the most prevalent indentation at the head of
    [to_str].  Outer [None]: the walk did not end within [fuel]; inner
    [None]: no node stores an [indent_diff], and the printer keeps the
    default of the base visitor. *)
Definition detect_indent_diff (fuel : nat) (tree : nat) (h : heap)
  : option (outcome (option string)) :=
  match walk fuel h [tree] with
  | None => None
  | Some nodes =>
      match count_indent_diffs (indent_diffs h nodes) [] with
      | Raise e => Some (Raise e)
      | Ret seen =>
          match text_items seen with
          | Raise e => Some (Raise e)
          | Ret items => Some (Ret (most_prevalent items))
          end
      end
  end.

(** [to_str]: a fresh printer, the default indentation, the visit, the
    code. *)
Definition to_str (bv : base_visitor) (fuel : nat) (tree : nat) (h : heap)
  : option (outcome string * heap) :=
  match detect_indent_diff fuel tree h with
  | None => None
  | Some (Raise e) => Some (Raise e, h)
  | Some (Ret choice) =>
      let run :=
        bind (match choice with
              | Some d => set_default_indent_diff bv d
              | None => ret tt
              end) (fun _ =>
        bind (visit (super_visit bv) tree) (fun _ =>
        bind get (fun p => ret (_code p)))) in
      match run (Printer "" (init_indent bv) h) with
      | (r, p) => Some (r, store p)
      end
  end.

(** *** Interpolated strings ([visit_JoinedStr]) *)
Section JoinedStr.
(** [fstring_utils] is not part of the sources at hand: its marker text
    and its substitution are taken as given. *)
Variable placeholder : nat -> string.
Variable perform_replacements : string -> list string -> string.
(** [repr] of a Python string. *)
Variable repr : string -> string.

(** Modelled from the spec: [fstring_utils.get_formatted_values], the
    embedded-expression list of the literal in left-to-right order. *)
Definition get_formatted_values (h : heap) (o : obj) : list nat :=
  match getattr_or_none o "values" with
  | VList items =>
      flat_map (fun v => match v with
                         | VRef i =>
                             if isinstance h i "FormattedValue" then [i] else []
                         | _ => []
                         end) items
  | _ => []
  end.

(** The loop that builds [parts]. *)
Fixpoint joined_parts (h : heap) (values : list value) (parts : list value)
  : outcome (list value) :=
  match values with
  | [] => Ret parts
  | val :: rest =>
      if match val with VRef i => isinstance h i "Str" | _ => false end then
        match val with
        | VRef i =>
            match (h !! i) ≫= (fun o => assoc "s" (fields o)) with
            | Some s => joined_parts h rest (parts ++ [s])
            | None => Raise AttributeError
            end
        | _ => Raise AttributeError
        end
      else
        joined_parts h rest (parts ++ [VStr (placeholder (length parts))])
  end.

(** [''.join(parts)]. *)
Fixpoint join (parts : list value) : outcome string :=
  match parts with
  | [] => Ret ""
  | VStr s :: rest =>
      match join rest with
      | Ret t => Ret (s ++ t)%string
      | Raise e => Raise e
      end
  | _ :: _ => Raise TypeError
  end.

(** The template when no [content] is stored. *)
Definition synthesized_content (h : heap) (o : obj) : outcome string :=
  match getattr_or_none o "values" with
  | VList values =>
      match joined_parts h values [] with
      | Ret parts =>
          match join parts with
          | Ret t => Ret (repr t)
          | Raise e => Raise e
          end
      | Raise e => Raise e
      end
  | _ => Raise TypeError
  end.

(** [visit_JoinedStr]; [to_str_rec] is the nested [to_str] call, which
    prints one embedded expression with a printer of its own over the
    same objects. *)
Definition visit_JoinedStr (bv : base_visitor)
           (to_str_rec : nat -> heap -> outcome string * heap)
           (node : nat) : M printer unit :=
  bind (prefix bv node) (fun _ =>
  bind get (fun p =>
  match store p !! node with
  | None => raise AttributeError
  | Some o =>
      bind (match Fmt.get o "content" with
            | VNone => fun p => (synthesized_content (store p) o, p)
            | VStr c => ret c
            | _ => raise TypeError
            end) (fun content =>
      bind (fun p =>
              let step acc v :=
                match acc with
                | (Ret vs, h) =>
                    match to_str_rec v h with
                    | (Ret s, h') => (Ret (vs ++ [s]), h')
                    | (Raise e, h') => (Raise e, h')
                    end
                | (Raise e, h) => (Raise e, h)
                end in
              match fold_left step (get_formatted_values (store p) o)
                              (Ret [], store p) with
              | (r, h') => (r, set_store h' p)
              end) (fun values =>
      bind (_add_code (perform_replacements content values)) (fun _ =>
      suffix bv node)))
  end)).
End JoinedStr.

(** *** The debugging dump ([to_tree_str]) *)
Section TreeStr.
(** [astlib.dump] and the builtin [str] on what is not already text. *)
Variable dump : heap -> nat -> string.
Variable str : value -> string.

(** [print(line)] onto standard output. *)
Definition print (line : string) : M string unit :=
  modify (fun out => (out ++ line ++ String "010" "")%string).

Definition str_of (v : value) : string :=
  match v with
  | VStr s => s
  | _ => str v
  end.

(** The lines for the [__pasta__] entries:
    [print('%s  %s -> "%s"' % (indent, str(attr), str(node.__pasta__[attr])))]. *)
Definition print_pasta (indent : string) (d : list (string * value))
  : M string unit :=
  for_each d (fun kv =>
    print (indent ++ "  " ++ fst kv ++ " -> " ++ String "034" ""
             ++ str_of (snd kv) ++ String "034" "")%string).

(** [to_tree_str(node, indent)].  The function has no [return] with a
    value: what comes back is [None], here [tt]; the text goes to standard
    output.  [None] of the option: the recursion did not end within
    [fuel]. *)
Fixpoint to_tree_str (fuel : nat) (h : heap) (node : value) (indent : string)
         (out : string) : option (outcome unit * string) :=
  match fuel with
  | O => None
  | S fuel' =>
      match node with
      | VRef id =>
          match h !! id with
          | None => Some (Raise AttributeError, out)
          | Some o =>
              let head :=
                bind (print (indent ++ dump h id)%string) (fun _ =>
                match pasta o with
                | Some d => print_pasta indent d
                | None => ret tt
                end) in
              let each_item acc item :=
                match acc with
                | Some (Ret _, out) =>
                    to_tree_str fuel' h item (indent ++ "    ")%string out
                | other => other
                end in
              let each_field acc fv :=
                match acc with
                | Some (Ret _, out) =>
                    match print (indent ++ fst fv)%string out with
                    | (_, out) =>
                        match snd fv with
                        | VList items =>
                            fold_left each_item items (Some (Ret tt, out))
                        | VNone => Some (Ret tt, out)
                        | value =>
                            to_tree_str fuel' h value (indent ++ "    ")%string out
                        end
                    end
                | other => other
                end in
              fold_left each_field (fields o) (Some (head out))
          end
      | VStr _ | VInt _ | VBool _ =>
          Some (print (indent ++ str_of node)%string out)
      | VNone | VList _ =>
          (* the [else] branch prints, and [iter_fields] then finds no
             [_fields] on such a value *)
          match print (indent ++ str_of node)%string out with
          | (_, out) => Some (Raise AttributeError, out)
          end
      end
  end.
End TreeStr.

End Codegen.

(** ** pasta.base.codegen: the other methods of the printer *)
Module Visitors.
Import Py Codegen.

(** [self._add_code(x)] for an [x] that may not be text: [_add_code] calls
    [x.replace], which only text has. *)
Definition add_value (v : value) : M printer unit :=
  match v with
  | VStr s => _add_code s
  | _ => raise AttributeError
  end.

(** The object behind a reference, and [node.name]. *)
Definition the_node (node : nat) : M printer obj :=
  fun p => match store p !! node with
           | Some o => (Ret o, p)
           | None => (Raise AttributeError, p)
           end.

Definition node_attr (node : nat) (name : string) : M printer value :=
  fun p => match store p !! node ≫= (fun o => assoc name (fields o)) with
           | Some v => (Ret v, p)
           | None => (Raise AttributeError, p)
           end.

(** [hasattr(node, name)] for an attribute of the grammar. *)
Definition hasattr (o : obj) (name : string) : bool :=
  match assoc name (fields o) with
  | Some _ => true
  | None => false
  end.

(** [Printer.optional_token]; [allow_whitespace_prefix] is deleted on entry.
    [value or ''] is the value when it is truthy and the empty text
    otherwise. *)
Definition optional_token (node : nat) (attr_name token_val : string)
           (default : bool) : M printer unit :=
  bind (the_node node) (fun o =>
  let value := Fmt.get o attr_name in
  let value := if is_none value && default then VStr token_val else value in
  add_value (if truthy value then value else VStr "")).

(** [s.lstrip(chars)]. *)
Definition char_in (c : ascii) (chars : string) : bool :=
  existsb (Ascii.eqb c) (list_ascii_of_string chars).

Fixpoint lstrip (chars : string) (s : string) : string :=
  match s with
  | EmptyString => EmptyString
  | String c rest => if char_in c chars then lstrip chars rest else s
  end.

(** [Printer.check_is_elif], [check_is_continued_try] and
    [check_is_continued_with]. *)
Definition check_is_elif (o : obj) : value := Fmt.get o "is_elif".
Definition check_is_continued_try (o : obj) : value :=
  Fmt.get_or o "is_continued" (VBool false).
Definition check_is_continued_with (o : obj) : value :=
  Fmt.get_or o "is_continued" (VBool false).

Section Literals.
(** The base visitor, the builtin [repr] on the value of a literal, and the
    base visitor's [generic_visit]. *)
Variable bv : base_visitor.
Variable repr : value -> string.
Variable generic_visit : nat -> M printer unit.

(** [content if content is not None else repr(node.f)]: the attribute is
    read only when no content is stored. *)
Definition content_or_repr (node : nat) (f : string) : M printer value :=
  bind (the_node node) (fun o =>
  let content := Fmt.get o "content" in
  if is_none content
  then bind (node_attr node f) (fun v => ret (VStr (repr v)))
  else ret content).

(** [Printer.visit_Num] and [Printer.visit_Bytes]. *)
Definition visit_Num (node : nat) : M printer unit :=
  bind (prefix bv node) (fun _ =>
  bind (content_or_repr node "n") (fun text =>
  bind (add_value text) (fun _ =>
  suffix bv node))).

Definition visit_Bytes (node : nat) : M printer unit :=
  bind (prefix bv node) (fun _ =>
  bind (content_or_repr node "s") (fun text =>
  bind (add_value text) (fun _ =>
  suffix bv node))).

(** [Printer.visit_Str].  In the branch for typed strings the operands of
    [node.kind + text.lstrip('BbRrUu')] are evaluated left to right, then
    added: a text that is no text fails first, a kind that is no text
    after. *)
Definition visit_Str (node : nat) : M printer unit :=
  bind (prefix bv node) (fun _ =>
  bind (the_node node) (fun o =>
  let str_fmt := Fmt.get o "fmt" in
  bind (if truthy str_fmt then
          bind (add_value str_fmt) (fun _ =>
          bind (content_or_repr node "s") add_value)
        else if hasattr o "kind" then
          bind (node_attr node "kind") (fun kind =>
          bind (content_or_repr node "s") (fun text =>
          match text with
          | VStr t =>
              match kind with
              | VStr k => _add_code (k ++ lstrip "BbRrUu" t)
              | _ => raise TypeError
              end
          | _ => raise AttributeError
          end))
        else bind (content_or_repr node "s") add_value) (fun _ =>
  suffix bv node))).

(** [Printer.visit_Module]. *)
Definition visit_Module (node : nat) : M printer unit :=
  bind (prefix bv node) (fun _ =>
  bind (the_node node) (fun o =>
  let bom := Fmt.get o "bom" in
  bind (if is_none bom then ret tt else add_value bom) (fun _ =>
  bind (generic_visit node) (fun _ =>
  suffix bv node)))).
End Literals.

End Visitors.

(** ** pasta.base.scope and pasta.base.ast_utils, as [inline] uses them *)
Module Scope.
Import Py.

(** Modelled from the spec: [pasta/base/scope.py] is not part of the
    sources at hand.  Section 3: the scope table maps a name to an entry
    with the single defining node (if any) and the ordered references to
    it; the parent of a node is a non-owning lookup kept by the table. *)
Record name_entry := NameEntry {
  definition : option nat;
  reads : list nat
}.

Record scope := Scope {
  names : gmap string name_entry;
  parent : nat -> option nat
}.

End Scope.

Module AstUtils.
Import Py.

(** [list[list.index(old)] = new]: the first item equal to [old]. *)
Fixpoint replace_first (old : nat) (new : value) (items : list value)
  : option (list value) :=
  match items with
  | [] => None
  | x :: rest =>
      if value_eqb x (VRef old) then Some (new :: rest)
      else option_map (cons x) (replace_first old new rest)
  end.

Fixpoint replace_in_fields (old : nat) (new : value)
         (fs : list (string * value)) : list (string * value) :=
  match fs with
  | [] => []
  | (f, v) :: rest =>
      match v with
      | VRef i =>
          if Nat.eqb i old then (f, new) :: rest
          else (f, v) :: replace_in_fields old new rest
      | VList items =>
          match replace_first old new items with
          | Some items' => (f, VList items') :: rest
          | None => (f, v) :: replace_in_fields old new rest
          end
      | _ => (f, v) :: replace_in_fields old new rest
      end
  end.

Definition set_fields (fs : list (string * value)) (o : obj) : obj :=
  Obj (cls o) fs (pasta o) (printer_info o).

(** Modelled from the spec: [ast_utils.replace_child] is not part of the
    sources at hand.  Section 6: [replaceChild(parent, oldChild, newChild)]
    updates the field or list of [parent] that holds [oldChild] so that it
    holds [newChild] there; no failure is specified for it. *)
Definition replace_child (parent : option nat) (node : nat) (replace_with : value)
           (h : heap) : heap :=
  match parent with
  | Some p =>
      match h !! p with
      | Some o => <[p := set_fields (replace_in_fields node replace_with (fields o)) o]> h
      | None => h
      end
  | None => h
  end.

(** [list.remove(child)]: the first item equal to [child]. *)
Fixpoint remove_first (child : nat) (items : list value) : option (list value) :=
  match items with
  | [] => None
  | x :: rest =>
      if value_eqb x (VRef child) then Some rest
      else option_map (cons x) (remove_first child rest)
  end.

Fixpoint remove_in_fields (child : nat) (fs : list (string * value))
  : list (string * value) :=
  match fs with
  | [] => []
  | (f, v) :: rest =>
      match v with
      | VList items =>
          match remove_first child items with
          | Some items' => (f, VList items') :: rest
          | None => (f, v) :: remove_in_fields child rest
          end
      | _ => (f, v) :: remove_in_fields child rest
      end
  end.

(** Modelled from the spec: [ast_utils.remove_child] is not part of the
    sources at hand.  Section 6: [removeChild(parent, child)] takes [child]
    out of the list of [parent] that holds it; no failure is specified for
    it. *)
Definition remove_child (parent : option nat) (child : nat) (h : heap) : heap :=
  match parent with
  | Some p =>
      match h !! p with
      | Some o => <[p := set_fields (remove_in_fields child (fields o)) o]> h
      | None => h
      end
  | None => h
  end.

End AstUtils.

(** ** pasta.augment.inline *)
Module Inline.
Import Py Scope AstUtils.

(** *** [copy.deepcopy] *)

(** References moved by [n] cells. *)
Fixpoint shift (n : nat) (v : value) : value :=
  match v with
  | VRef i => VRef (i + n)
  | VList items => VList (map (shift n) items)
  | _ => v
  end.

Definition shift_obj (n : nat) (o : obj) : obj :=
  Obj (cls o)
      (map (fun fv => (fst fv, shift n (snd fv))) (fields o))
      (option_map (map (fun kv => (fst kv, shift n (snd kv)))) (pasta o))
      (printer_info o).

(** [copy.deepcopy(value)]: every object reachable from [value] gets a twin
    in a fresh cell, and the twins refer to each other the way the
    originals do.  The store is twinned as a whole, the twin of cell [i]
    being cell [i + length h]; twins of cells that [value] does not reach
    are garbage that no reference leads to. *)
Definition deepcopy (v : value) (h : heap) : value * heap :=
  (shift (length h) v, h ++ map (shift_obj (length h)) h).

(** *** [inline_name] *)

(** [obj.name]: [AttributeError] when the attribute is not there. *)
Definition getattr (node : nat) (name : string) : M heap value :=
  fun h => match (h !! node) ≫= (fun o => assoc name (fields o)) with
           | Some v => (Ret v, h)
           | None => (Raise AttributeError, h)
           end.

(** [isinstance(x, astlib.C)] where [x] may be [None]. *)
Definition opt_isinstance (h : heap) (x : option nat) (c : string) : bool :=
  match x with
  | Some i => isinstance h i c
  | None => false
  end.

(** [repr(type(x))] for a node of the module [astlib], or for [None]. *)
Definition repr_type (astlib : string) (h : heap) (x : option nat) : string :=
  match x ≫= (fun i => h !! i) with
  | Some o => "<class '" ++ astlib ++ "." ++ cls o ++ "'>"
  | None => "<class 'NoneType'>"
  end.

(** [isinstance(getattr(ref, 'ctx', None), astlib.Store)]. *)
Definition is_store (h : heap) (ref : nat) : bool :=
  match h !! ref with
  | Some o =>
      match getattr_or_none o "ctx" with
      | VRef c => isinstance h c "Store"
      | _ => false
      end
  | None => false
  end.

(** [tgt_list = [tgt for tgt in assign_node.targets
                 if not (isinstance(tgt, astlib.Name) and tgt.id == name)]]. *)
Fixpoint filter_targets (h : heap) (name : string) (tgts : list value)
  : outcome (list value) :=
  match tgts with
  | [] => Ret []
  | tgt :: rest =>
      let keep (b : bool) :=
        match filter_targets h name rest with
        | Ret l => Ret (if b then tgt :: l else l)
        | Raise e => Raise e
        end in
      match tgt with
      | VRef i =>
          if isinstance h i "Name" then
            match (h !! i) ≫= (fun o => assoc "id" (fields o)) with
            | Some v => keep (negb (value_eqb v (VStr name)))
            | None => Raise AttributeError
            end
          else keep true
      | _ => keep true
      end
  end.

Definition not_a_constant_type (astlib name : string) (h : heap)
           (d : option nat) : string :=
  repr_str name ++ " is not a constant; it has type " ++ repr_type astlib h d.
Definition not_in_assignment (name : string) : string :=
  repr_str name ++ " is not declared in an assignment".
Definition not_top_level (name : string) : string :=
  repr_str name ++ " is not a top-level name".
Definition not_a_constant (name : string) : string :=
  repr_str name ++ " is not a constant".

Section InlineName.
(** [scope.analyze], which reads the tree and builds the table. *)
Variable analyze : nat -> heap -> scope.
(** The name of the module [astlib] stands for. *)
Variable astlib : string.

(** The loop that rejects a reference in store position. *)
Definition check_reads (name : string) (refs : list nat) : M heap unit :=
  for_each refs (fun ref =>
    bind get (fun h =>
    if is_store h ref then raise (InlineError (not_a_constant name))
    else ret tt)).

(** The loop that puts a copy of the value in the place of every
    reference. *)
Definition replace_reads (sc : scope) (value : value) (refs : list nat)
  : M heap unit :=
  for_each refs (fun ref =>
    bind (fun h => match deepcopy value h with (c, h') => (Ret c, h') end)
         (fun c =>
    modify (replace_child (parent sc ref) ref c))).

(** The removal of the assignment, or of the one target. *)
Definition remove_assignment (sc : scope) (name : string) (assign_node : nat)
  : M heap unit :=
  bind (getattr assign_node "targets") (fun targets =>
  match targets with
  | VList tgts =>
      if Nat.eqb (length tgts) 1 then
        modify (remove_child (parent sc assign_node) assign_node)
      else
        bind (fun h => (filter_targets h name tgts, h)) (fun tgt_list =>
        modify (fun h =>
          match h !! assign_node with
          | Some o =>
              <[assign_node :=
                  set_fields (assoc_set "targets" (VList tgt_list) (fields o)) o]> h
          | None => h
          end))
  | _ => raise TypeError
  end).

Definition inline_name (t : nat) (name : string) : M heap unit :=
  bind get (fun h =>
  let sc := analyze t h in
  match names sc !! name with
  | None => raise KeyError
  | Some name_node =>
      if negb (opt_isinstance h (definition name_node) "Name") then
        raise (InlineError
                 (not_a_constant_type astlib name h (definition name_node)))
      else
        let assign_node := definition name_node ≫= parent sc in
        if negb (opt_isinstance h assign_node "Assign") then
          raise (InlineError (not_in_assignment name))
        else
          match assign_node with
          | None => raise AttributeError
          | Some assign_node =>
              bind (getattr assign_node "value") (fun value =>
              if negb (opt_isinstance h (parent sc assign_node) "Module") then
                raise (InlineError (not_top_level name))
              else
                bind (check_reads name (reads name_node)) (fun _ =>
                bind (replace_reads sc value (reads name_node)) (fun _ =>
                remove_assignment sc name assign_node)))
          end
  end).
End InlineName.

End Inline.

(** ** Vocabulary of the statements *)
Module Spec.
Import Py.

(** How many of the walked nodes store the text [s] as a counted
    [indent_diff]. *)
Fixpoint occurrences (s : string) (vals : list value) : nat :=
  match vals with
  | [] => 0
  | v :: rest =>
      (if Codegen.truthy v && value_eqb v (VStr s) then 1 else 0)
      + occurrences s rest
  end.

(** The count a key has in the dictionary, [0] when it is not there. *)
Definition count_of (k : string) (seen : list (string * nat)) : nat :=
  match assoc k seen with
  | Some c => c
  | None => 0
  end.

Definition tab : string := String "009" "".
Definition nl : string := String "010" "".
Definition dquote : string := String "034" "".

(** What the grammar gives the two classes [inline_name] reads attributes
    of: an [Assign] has a list of [targets] and a [value], a [Name] has an
    [id]. *)
Definition has_field (o : obj) (f : string) : bool :=
  match assoc f (fields o) with
  | Some _ => true
  | None => false
  end.

Definition has_list_field (o : obj) (f : string) : bool :=
  match assoc f (fields o) with
  | Some (VList _) => true
  | _ => false
  end.

Definition obj_schema (o : obj) : bool :=
  (if String.eqb (cls o) "Assign"
   then has_list_field o "targets" && has_field o "value" else true)
  && (if String.eqb (cls o) "Name" then has_field o "id" else true).

Definition schema (h : heap) : bool := forallb obj_schema h.

(** The tree below a value, with identities forgotten: what two objects
    must share to be equal as syntax and formatting.  [TCut] stands where
    the depth [fuel] ends or a reference leads nowhere. *)
#[warnings="-register-all"]
Inductive tree :=
| TNone
| TBool (b : bool)
| TInt (z : Z)
| TStr (s : string)
| TList (items : list tree)
| TNode (c : string) (fs : list (string * tree))
        (fmt : option (list (string * tree)))
| TCut.

Fixpoint reify (fuel : nat) (h : heap) (v : value) : tree :=
  match fuel with
  | O => TCut
  | S fuel' =>
      match v with
      | VNone => TNone
      | VBool b => TBool b
      | VInt z => TInt z
      | VStr s => TStr s
      | VList items => TList (map (reify fuel' h) items)
      | VRef i =>
          match h !! i with
          | Some o =>
              TNode (cls o)
                    (map (fun fv => (fst fv, reify fuel' h (snd fv))) (fields o))
                    (option_map
                       (map (fun kv => (fst kv, reify fuel' h (snd kv))))
                       (pasta o))
          | None => TCut
          end
      end
  end.

(** Every reference inside a value is at least [m], or below [m]. *)
Fixpoint refs_geb (m : nat) (v : value) : bool :=
  match v with
  | VRef i => Nat.leb m i
  | VList items => forallb (refs_geb m) items
  | _ => true
  end.

Fixpoint refs_ltb (m : nat) (v : value) : bool :=
  match v with
  | VRef i => Nat.ltb i m
  | VList items => forallb (refs_ltb m) items
  | _ => true
  end.

Definition obj_all (P : value -> bool) (o : obj) : bool :=
  forallb (fun fv => P (snd fv)) (fields o)
  && match pasta o with
     | Some d => forallb (fun kv => P (snd kv)) d
     | None => true
     end.

(** No reference of the store leads outside it. *)
Definition closed (h : heap) : bool :=
  forallb (obj_all (refs_ltb (length h))) h.

(** The cells from [m] on refer to cells from [m] on only. *)
Definition upper (m : nat) (h : heap) : Prop :=
  forall j o, m <= j -> h !! j = Some o -> obj_all (refs_geb m) o = true.

(** A field list with copies put where references stood: [sigma] pairs a
    reference with the value that takes its place, as a field of its own or
    as an item of a list field. *)
Definition subst_item (sigma : list (nat * value)) (v : value) : value :=
  match v with
  | VRef i =>
      match List.find (fun rc => Nat.eqb (fst rc) i) sigma with
      | Some rc => snd rc
      | None => v
      end
  | _ => v
  end.

Definition subst_value (sigma : list (nat * value)) (v : value) : value :=
  match v with
  | VList items => VList (map (subst_item sigma) items)
  | _ => subst_item sigma v
  end.

Definition subst_fields (sigma : list (nat * value))
           (fs : list (string * value)) : list (string * value) :=
  map (fun fv => (fst fv, subst_value sigma (snd fv))) fs.

(** How often [r] is a child in a field list. *)
Definition is_ref (r : nat) (v : value) : bool := value_eqb v (VRef r).

Definition child_count (r : nat) (fs : list (string * value)) : nat :=
  list_sum (map (fun fv => match snd fv with
                           | VList items => length (List.filter (is_ref r) items)
                           | v => if is_ref r v then 1 else 0
                           end) fs).

(** The pairs of [sigma] whose reference has [i] for parent. *)
Definition under (sc : Scope.scope) (i : nat) (sigma : list (nat * value))
  : list (nat * value) :=
  List.filter (fun rc => match Scope.parent sc (fst rc) with
                         | Some p => Nat.eqb p i
                         | None => false
                         end) sigma.

(** The references of a table entry fit the tree: they are distinct objects
    of the store, and each is a child of its parent at most once. *)
Definition fits (h : heap) (sc : Scope.scope) (refs : list nat) : bool :=
  bool_decide (NoDup refs)
  && forallb (fun r =>
                Nat.ltb r (length h)
                && match Scope.parent sc r with
                   | Some p =>
                       match h !! p with
                       | Some o => Nat.leb (child_count r (fields o)) 1
                       | None => false
                       end
                   | None => true
                   end) refs.

(** One turn of the loop that rewrites the references, for a value that is
    the node [j]: the store is twinned, and the twin of [j] takes the place
    of [r] under the parent of [r].  Then the store after all the turns, and
    the copies the turns made. *)
Definition step (sc : Scope.scope) (j : nat) (hc : heap) (r : nat) : heap :=
  AstUtils.replace_child (Scope.parent sc r) r (VRef (j + length hc))
                         (hc ++ map (Inline.shift_obj (length hc)) hc).

Definition rewritten (sc : Scope.scope) (j : nat) (hc : heap) (refs : list nat)
  : heap :=
  fold_left (step sc j) refs hc.

Fixpoint copies (sc : Scope.scope) (j : nat) (hc : heap) (refs : list nat)
  : list value :=
  match refs with
  | [] => []
  | r :: rest => VRef (j + length hc) :: copies sc j (step sc j hc r) rest
  end.

(** What a turn needs of the store [hc] and of the references left, where
    [n] is the size the store had before the first turn. *)
Definition ready (sc : Scope.scope) (n : nat) (hc : heap) (refs : list nat)
  : Prop :=
  closed hc = true
  /\ n <= length hc
  /\ upper n hc
  /\ forall r, In r refs ->
       r < n
       /\ match Scope.parent sc r with
          | Some p => p < n
                      /\ forall o, hc !! p = Some o ->
                                   child_count r (fields o) <= 1
          | None => True
          end.

(** The value of every assignment is a node. *)
Definition values_are_nodes (h : heap) : bool :=
  forallb (fun o => if String.eqb (cls o) "Assign"
                    then match assoc "value" (fields o) with
                         | Some (VRef _) => true
                         | _ => false
                         end
                    else true) h.

(** [isinstance(tgt, astlib.Name) and tgt.id == name]. *)
Definition is_named (h : heap) (name : string) (tgt : value) : bool :=
  match tgt with
  | VRef i =>
      match h !! i with
      | Some o => String.eqb (cls o) "Name"
                  && value_eqb (getattr_or_none o "id") (VStr name)
      | None => false
      end
  | _ => false
  end.

(** A text without the character [@], which every indentation marker starts
    with. *)
Fixpoint plain (s : string) : bool :=
  match s with
  | EmptyString => true
  | String c rest => negb (Ascii.eqb c "@") && plain rest
  end.

(** Two stores where every object of the first is still there in the second
    with its class, its formatting and its printer flags. *)
Definition formatting_kept (h h' : heap) : Prop :=
  forall i o, h !! i = Some o ->
    exists o', h' !! i = Some o'
               /\ cls o' = cls o /\ pasta o' = pasta o
               /\ printer_info o' = printer_info o.

(** A dependency has moved: a snapshot of it is stored under its name
    followed by [__src], and the live value of the node (nothing when the
    attribute is missing) is not equal to that snapshot. *)
Definition moved (o : obj) (d : string) : bool :=
  match pasta o ≫= assoc (d ++ "__src") with
  | Some snapshot =>
      negb (value_eqb (match assoc d (fields o) with
                       | Some live => live
                       | None => VNone
                       end) snapshot)
  | None => false
  end.

(** A stored fragment is stale when one of the declared dependencies has
    moved. *)
Definition stale (o : obj) (deps : option (list string)) : bool :=
  match deps with
  | Some ds => existsb (moved o) ds
  | None => false
  end.

(** The text to print for a node with the stored text [fragment]: the
    default, or nothing when there is none, if the fragment is stale, and
    the fragment otherwise. *)
Definition chosen_text (o : obj) (deps : option (list string))
           (default : option string) (fragment : string) : string :=
  if stale o deps
  then match default with Some d => d | None => "" end
  else fragment.




(** The four kinds of error that [visit] takes for failures of the
    printer. *)
Definition internal (e : exn) : Prop :=
  e = TypeError \/ e = ValueError \/ e = IndexError \/ e = KeyError.

(** The dictionary of the texts alone: what the counting loop does to the
    entries whose keys are text. *)
Definition bump_text (k : string) (seen : list (string * nat))
  : list (string * nat) :=
  match assoc k seen with
  | Some c => assoc_set k (S c) seen
  | None => assoc_set k 1 seen
  end.

Fixpoint tally_texts (vals : list value) (seen : list (string * nat))
  : list (string * nat) :=
  match vals with
  | [] => seen
  | VStr s :: rest =>
      if Codegen.truthy (VStr s) then tally_texts rest (bump_text s seen)
      else tally_texts rest seen
  | _ :: rest => tally_texts rest seen
  end.

Fixpoint text_part (seen : list (value * nat)) : list (string * nat) :=
  match seen with
  | [] => []
  | (VStr s, c) :: rest => (s, c) :: text_part rest
  | _ :: rest => text_part rest
  end.

Definition is_text (v : value) : bool :=
  match v with
  | VStr _ => true
  | _ => false
  end.

(** Two field lists with the same names in the same order, where a list
    stays a list. *)
Definition fields_alike (fs fs' : list (string * value)) : Prop :=
  Forall2 (fun a b => fst a = fst b
                      /\ (forall l, snd a = VList l -> exists l', snd b = VList l'))
          fs fs'.

(** The classes of the objects that were there stay what they were. *)
Definition classes_kept (h h' : heap) : Prop :=
  forall i o, h !! i = Some o -> exists o', h' !! i = Some o' /\ cls o' = cls o.

Section Dump.
Variable dump : heap -> nat -> string.
Variable str : value -> string.

(** The dump of the items of a list field, one after the other, from the
    output [start]: the first failure ends it. *)
Definition dump_item (fuel : nat) (h : heap) (indent : string)
           (acc : option (outcome unit * string)) (item : value)
  : option (outcome unit * string) :=
  match acc with
  | Some (Ret _, out) =>
      Codegen.to_tree_str dump str fuel h item (indent ++ "    ")%string out
  | other => other
  end.

Definition dump_items (fuel : nat) (h : heap) (indent : string)
           (items : list value) (start : string)
  : option (outcome unit * string) :=
  fold_left (dump_item fuel h indent) items (Some (Ret tt, start)).

(** The dump of fields, each with the line of its name. *)
Definition dump_field (fuel : nat) (h : heap) (indent : string)
           (acc : option (outcome unit * string)) (fv : string * value)
  : option (outcome unit * string) :=
  match acc with
  | Some (Ret _, out) =>
      match snd fv with
      | VList items =>
          dump_items fuel h indent items (out ++ (indent ++ fst fv) ++ nl)%string
      | VNone => Some (Ret tt, (out ++ (indent ++ fst fv) ++ nl)%string)
      | value =>
          Codegen.to_tree_str dump str fuel h value (indent ++ "    ")%string
                              (out ++ (indent ++ fst fv) ++ nl)%string
      end
  | other => other
  end.

Definition dump_fields (fuel : nat) (h : heap) (indent : string)
           (fs : list (string * value)) (start : string)
  : option (outcome unit * string) :=
  fold_left (dump_field fuel h indent) fs (Some (Ret tt, start)).

(** The output after the line of the node and the lines of its
    formatting. *)
Definition dump_head (h : heap) (id : nat) (o : obj) (indent out : string)
  : string :=
  snd (match pasta o with
       | Some d =>
           Codegen.print_pasta str indent d
             (out ++ (indent ++ dump h id) ++ nl)%string
       | None => (Ret tt, (out ++ (indent ++ dump h id) ++ nl)%string)
       end).
End Dump.

End Spec.

(** ** Trees the statements are tried on *)
Module Examples.
Import Py.

Definition node (c : string) (fs : list (string * value))
           (fmt : option (list (string * value))) : obj :=
  Obj c fs fmt None.

(** A module with six blocks: three indented by two spaces, three by a
    tab. *)
Definition tie_tree : heap :=
  [ node "Module" [("body", VList [VRef 1; VRef 2; VRef 3; VRef 4; VRef 5; VRef 6])]
         None;
    node "While" [] (Some [("indent_diff", VStr "  ")]);
    node "While" [] (Some [("indent_diff", VStr Spec.tab)]);
    node "While" [] (Some [("indent_diff", VStr "  ")]);
    node "While" [] (Some [("indent_diff", VStr Spec.tab)]);
    node "While" [] (Some [("indent_diff", VStr "  ")]);
    node "While" [] (Some [("indent_diff", VStr Spec.tab)]) ].

(** A number literal annotated when its value was [1], with the source text
    kept as [content] and the value kept as the snapshot [n__src]; then the
    same literal after its value was set to [2]; then that one with
    [content] already emitted in the running visit. *)
Definition num_annotated : obj :=
  Obj "Num" [("n", VInt 1)]
      (Some [("content", VStr "1"); ("n__src", VInt 1)]) (Some ∅).

Definition num_edited : obj :=
  Obj "Num" [("n", VInt 2)]
      (Some [("content", VStr "1"); ("n__src", VInt 1)]) (Some ∅).

Definition num_edited_emitted : obj :=
  Obj "Num" [("n", VInt 2)]
      (Some [("content", VStr "1"); ("n__src", VInt 1)])
      (Some {["content" := true]}).


(** A base visitor whose dispatch fails with [KeyError] on every node, as
    on a node that lacks an entry the visitor indexes. *)
Definition failing_visitor : Codegen.base_visitor :=
  Codegen.BaseVisitor (fun _ => raise KeyError) (fun _ => ret tt)
                      (fun _ => ret tt) (fun _ => ret tt) "".

(** The literal [f'a{x}'] after its stored [content] was dropped: one text
    segment, then one embedded expression. *)
Definition fstring_tree : heap :=
  [ node "JoinedStr" [("values", VList [VRef 1; VRef 2])] None;
    node "Str" [("s", VStr "a")] None;
    node "FormattedValue"
         [("value", VRef 3); ("conversion", VInt (-1)); ("format_spec", VNone)]
         None;
    node "Name" [("id", VStr "x"); ("ctx", VRef 4)] None;
    node "Load" [] None ].

(** The reference [x], with the text of its [prefix] stored. *)
Definition name_tree : heap :=
  [ node "Name" [("id", VStr "x"); ("ctx", VRef 1)]
         (Some [("prefix", VStr " ")]);
    node "Load" [] None ].

(** A scope table from its entries and its parent links. *)
Definition table (entries : list (string * Scope.name_entry))
           (parents : list (nat * nat)) : Scope.scope :=
  Scope.Scope (list_to_map entries)
              (fun n => snd <$> List.find (fun pc => Nat.eqb (fst pc) n) parents).

Definition name_ (id : string) (ctx : nat) : obj :=
  node "Name" [("id", VStr id); ("ctx", VRef ctx)] None.

(** [x = y = z = 1; a = x + y] ([test_inline_multiple_targets]), with the
    table scope analysis gives for it. *)
Definition chained_tree : heap :=
  [ node "Module" [("body", VList [VRef 1; VRef 6])] None;
    node "Assign" [("targets", VList [VRef 2; VRef 3; VRef 4]); ("value", VRef 5)]
         None;
    name_ "x" 12; name_ "y" 12; name_ "z" 12;
    node "Num" [("n", VInt 1)] None;
    node "Assign" [("targets", VList [VRef 7]); ("value", VRef 8)] None;
    name_ "a" 12;
    node "BinOp" [("left", VRef 9); ("op", VRef 10); ("right", VRef 11)] None;
    name_ "x" 13;
    node "Add" [] None;
    name_ "y" 13;
    node "Store" [] None;
    node "Load" [] None ].

Definition chained_scope : Scope.scope :=
  table [("x", Scope.NameEntry (Some 2) [9]);
         ("y", Scope.NameEntry (Some 3) [11]);
         ("z", Scope.NameEntry (Some 4) []);
         ("a", Scope.NameEntry (Some 7) [])]
        [(1, 0); (2, 1); (3, 1); (4, 1); (5, 1); (6, 0); (7, 6); (8, 6);
         (9, 8); (10, 8); (11, 8)].

(** [x = z = 1; a = x + 1], what the test expects. *)
Definition chained_expected : heap :=
  [ node "Module" [("body", VList [VRef 1; VRef 5])] None;
    node "Assign" [("targets", VList [VRef 2; VRef 3]); ("value", VRef 4)] None;
    name_ "x" 11; name_ "z" 11;
    node "Num" [("n", VInt 1)] None;
    node "Assign" [("targets", VList [VRef 6]); ("value", VRef 7)] None;
    name_ "a" 11;
    node "BinOp" [("left", VRef 8); ("op", VRef 9); ("right", VRef 10)] None;
    name_ "x" 12;
    node "Add" [] None;
    node "Num" [("n", VInt 1)] None;
    node "Store" [] None;
    node "Load" [] None ].

(** [x = 1; a = x] ([test_inline_simple]) and [a = 1]. *)
Definition simple_tree : heap :=
  [ node "Module" [("body", VList [VRef 1; VRef 4])] None;
    node "Assign" [("targets", VList [VRef 2]); ("value", VRef 3)] None;
    name_ "x" 7;
    node "Num" [("n", VInt 1)] None;
    node "Assign" [("targets", VList [VRef 5]); ("value", VRef 6)] None;
    name_ "a" 7;
    name_ "x" 8;
    node "Store" [] None;
    node "Load" [] None ].

Definition simple_scope : Scope.scope :=
  table [("x", Scope.NameEntry (Some 2) [6]);
         ("a", Scope.NameEntry (Some 5) [])]
        [(1, 0); (2, 1); (3, 1); (4, 0); (5, 4); (6, 4)].

Definition simple_expected : heap :=
  [ node "Module" [("body", VList [VRef 1])] None;
    node "Assign" [("targets", VList [VRef 2]); ("value", VRef 3)] None;
    name_ "a" 4;
    node "Num" [("n", VInt 1)] None;
    node "Store" [] None ].

(** [def func(): pass; func()] ([test_inline_function_fails]). *)
Definition func_tree : heap :=
  [ node "Module" [("body", VList [VRef 1; VRef 3])] None;
    node "FunctionDef" [("name", VStr "func"); ("body", VList [VRef 2])] None;
    node "Pass" [] None;
    node "Expr" [("value", VRef 4)] None;
    node "Call" [("func", VRef 5); ("args", VList [])] None;
    name_ "func" 6;
    node "Load" [] None ].

Definition func_scope : Scope.scope :=
  table [("func", Scope.NameEntry (Some 1) [5])]
        [(1, 0); (2, 1); (3, 0); (4, 3); (5, 4)].

(** [if define: x = 1] then [a = x] ([test_inline_conditional_fails]). *)
Definition cond_tree : heap :=
  [ node "Module" [("body", VList [VRef 1; VRef 6])] None;
    node "If" [("test", VRef 2); ("body", VList [VRef 3]); ("orelse", VList [])]
         None;
    name_ "define" 10;
    node "Assign" [("targets", VList [VRef 4]); ("value", VRef 5)] None;
    name_ "x" 9;
    node "Num" [("n", VInt 1)] None;
    node "Assign" [("targets", VList [VRef 7]); ("value", VRef 8)] None;
    name_ "a" 9;
    name_ "x" 10;
    node "Store" [] None;
    node "Load" [] None ].

Definition cond_scope : Scope.scope :=
  table [("x", Scope.NameEntry (Some 4) [8]);
         ("a", Scope.NameEntry (Some 7) []);
         ("define", Scope.NameEntry None [2])]
        [(1, 0); (2, 1); (3, 1); (4, 3); (5, 3); (6, 0); (7, 6); (8, 6)].

(** [CONSTANT1, CONSTANT2 = values] ([test_inline_non_assign_fails]). *)
Definition tuple_tree : heap :=
  [ node "Module" [("body", VList [VRef 1])] None;
    node "Assign" [("targets", VList [VRef 2]); ("value", VRef 5)] None;
    node "Tuple" [("elts", VList [VRef 3; VRef 4]); ("ctx", VRef 6)] None;
    name_ "CONSTANT1" 6;
    name_ "CONSTANT2" 6;
    name_ "values" 7;
    node "Store" [] None;
    node "Load" [] None ].

Definition tuple_scope : Scope.scope :=
  table [("CONSTANT1", Scope.NameEntry (Some 3) []);
         ("CONSTANT2", Scope.NameEntry (Some 4) []);
         ("values", Scope.NameEntry None [5])]
        [(1, 0); (2, 1); (3, 2); (4, 2); (5, 1)].

(** [NOT_A_CONSTANT = 'foo'; NOT_A_CONSTANT += 'bar']
    ([test_inline_non_constant_fails]): the second binding is recorded among
    the references. *)
Definition aug_tree : heap :=
  [ node "Module" [("body", VList [VRef 1; VRef 4])] None;
    node "Assign" [("targets", VList [VRef 2]); ("value", VRef 3)] None;
    name_ "NOT_A_CONSTANT" 8;
    node "Str" [("s", VStr "foo")] None;
    node "AugAssign" [("target", VRef 5); ("op", VRef 6); ("value", VRef 7)] None;
    name_ "NOT_A_CONSTANT" 8;
    node "Add" [] None;
    node "Str" [("s", VStr "bar")] None;
    node "Store" [] None ].

Definition aug_scope : Scope.scope :=
  table [("NOT_A_CONSTANT", Scope.NameEntry (Some 2) [5])]
        [(1, 0); (2, 1); (3, 1); (4, 0); (5, 4); (6, 4); (7, 4)].

End Examples.

(** * Properties *)

Import Py Spec.

(** ** Strings and the output buffer *)

Lemma append_empty_r (s : string) : (s ++ "")%string = s.
Proof.
  induction s as [|c s IH]; [reflexivity |].
  change (String c (s ++ "") = String c s). now rewrite IH.
Qed.

Lemma append_assoc (a b c : string) :
  ((a ++ b) ++ c)%string = (a ++ (b ++ c))%string.
Proof.
  induction a as [|x a IH]; [reflexivity |].
  change (String x ((a ++ b) ++ c) = String x (a ++ (b ++ c))).
  now rewrite IH.
Qed.








(** ** Token emission *)




(** ** Dictionaries in insertion order *)

Lemma value_eqb_refl (v : value) : value_eqb v v = true.
Proof.
  revert v. fix IH 1. intros [ | b | z | s | i | items]; simpl.
  - reflexivity.
  - now destruct b.
  - apply Z.eqb_refl.
  - apply String.eqb_refl.
  - apply Nat.eqb_refl.
  - induction items as [|x xs IHxs]; [reflexivity |].
    now rewrite IH, IHxs.
Qed.

(** Only a text equals a text, and only the object itself equals an
    object. *)
Lemma value_eqb_str (v : value) (s : string) :
  value_eqb v (VStr s) = true <-> v = VStr s.
Proof.
  split; [| intros ->; apply value_eqb_refl].
  destruct v; simpl; try discriminate.
  intros H. f_equal. now apply String.eqb_eq.
Qed.

Lemma value_eqb_str_l (v : value) (s : string) :
  value_eqb (VStr s) v = true <-> v = VStr s.
Proof.
  split; [| intros ->; apply value_eqb_refl].
  destruct v; simpl; try discriminate.
  intros H. f_equal. symmetry. now apply String.eqb_eq.
Qed.

Lemma value_eqb_ref (v : value) (r : nat) :
  value_eqb v (VRef r) = true <-> v = VRef r.
Proof.
  split; [| intros ->; apply value_eqb_refl].
  destruct v; simpl; try discriminate.
  intros H. f_equal. now apply Nat.eqb_eq.
Qed.

Lemma assoc_set_eq {A} (k : string) (v : A) (d : list (string * A)) :
  assoc k (assoc_set k v d) = Some v.
Proof.
  induction d as [|[k' v'] d IH]; simpl.
  - now rewrite String.eqb_refl.
  - destruct (String.eqb k k') eqn:E; simpl.
    + now rewrite String.eqb_refl.
    + now rewrite E.
Qed.

Lemma assoc_set_ne {A} (k k' : string) (v : A) (d : list (string * A)) :
  k' <> k -> assoc k' (assoc_set k v d) = assoc k' d.
Proof.
  intros Hne. induction d as [|[k0 v0] d IH]; simpl.
  - apply String.eqb_neq in Hne. now rewrite Hne.
  - destruct (String.eqb k k0) eqn:E; simpl.
    + apply String.eqb_eq in E. subst k0.
      apply String.eqb_neq in Hne. now rewrite Hne.
    + now rewrite IH.
Qed.

Lemma assoc_In {A} (k : string) (v : A) (d : list (string * A)) :
  assoc k d = Some v -> In (k, v) d.
Proof.
  induction d as [|[k' v'] d IH]; simpl; [discriminate |].
  destruct (String.eqb k k') eqn:E.
  - apply String.eqb_eq in E. intros [= ->]. left. now subst.
  - intros H. right. now apply IH.
Qed.

Lemma assoc_set_keys {A} (k : string) (v : A) (d : list (string * A)) :
  map fst (assoc_set k v d)
  = match assoc k d with
    | Some _ => map fst d
    | None => map fst d ++ [k]
    end.
Proof.
  induction d as [|[k' v'] d IH]; simpl; [reflexivity |].
  destruct (String.eqb k k') eqn:E; simpl.
  - apply String.eqb_eq in E. now subst.
  - rewrite IH. now destruct (assoc k d).
Qed.

Lemma assoc_None_keys {A} (k : string) (d : list (string * A)) :
  assoc k d = None -> ~ In k (map fst d).
Proof.
  induction d as [|[k' v'] d IH]; simpl; [tauto |].
  destruct (String.eqb k k') eqn:E; [discriminate |].
  apply String.eqb_neq in E. intros H [Hk | Hk]; [congruence | now apply IH].
Qed.

Lemma In_assoc_unique {A} (k : string) (v : A) (d : list (string * A)) :
  List.NoDup (map fst d) -> In (k, v) d -> assoc k d = Some v.
Proof.
  induction d as [|[k' v'] d IH]; simpl; [tauto |].
  intros Hnd [Hin | Hin].
  - injection Hin as -> ->. now rewrite String.eqb_refl.
  - inversion Hnd as [|? ? Hnotin Hnd']; subst.
    destruct (String.eqb k k') eqn:E.
    + apply String.eqb_eq in E. subst k'. exfalso. apply Hnotin.
      change k with (fst (k, v)). now apply in_map.
    + now apply IH.
Qed.

(** ** Default indentation *)

Lemma bump_count (k s : string) (seen : list (string * nat)) :
  Spec.count_of s (bump_text k seen)
  = (if String.eqb s k then 1 else 0) + Spec.count_of s seen.
Proof.
  unfold bump_text, Spec.count_of.
  destruct (String.eqb s k) eqn:E.
  - apply String.eqb_eq in E. subst s.
    destruct (assoc k seen); now rewrite assoc_set_eq.
  - apply String.eqb_neq in E.
    destruct (assoc k seen); now rewrite assoc_set_ne.
Qed.

Lemma bump_NoDup (k : string) (seen : list (string * nat)) :
  List.NoDup (map fst seen) -> List.NoDup (map fst (bump_text k seen)).
Proof.
  intros Hnd. unfold bump_text.
  destruct (assoc k seen) eqn:E; rewrite assoc_set_keys, E; [assumption |].
  apply List.NoDup_rev in Hnd. rewrite <- (rev_involutive (map fst seen ++ [k])).
  apply List.NoDup_rev. rewrite rev_app_distr. simpl. constructor; [|assumption].
  rewrite <- in_rev. now apply assoc_None_keys.
Qed.

Lemma bump_positive (k : string) (seen : list (string * nat)) :
  Forall (fun kc => 0 < snd kc) seen ->
  Forall (fun kc => 0 < snd kc) (bump_text k seen).
Proof.
  intros Hpos. unfold bump_text.
  assert (Hset : forall c, 0 < c ->
            Forall (fun kc : string * nat => 0 < snd kc) (assoc_set k c seen)).
  { intros c Hc. induction Hpos as [|[k' c'] l Hx Hl IH]; simpl.
    - repeat constructor. exact Hc.
    - destruct (String.eqb k k'); constructor; simpl; auto. }
  destruct (assoc k seen); apply Hset; lia.
Qed.

(** The dictionary of the texts holds, for every text, the number of counted
    occurrences on top of what it held before. *)
Lemma tally_texts_counts (vals : list value) :
  forall seen,
    List.NoDup (map fst seen) ->
    Forall (fun kc => 0 < snd kc) seen ->
    List.NoDup (map fst (tally_texts vals seen))
    /\ Forall (fun kc => 0 < snd kc) (tally_texts vals seen)
    /\ forall s, Spec.count_of s (tally_texts vals seen)
                 = Spec.count_of s seen + Spec.occurrences s vals.
Proof.
  induction vals as [|v vals IH]; intros seen Hnd Hpos.
  - split; [exact Hnd |]. split; [exact Hpos |]. intros s. simpl. lia.
  - destruct v as [ | b | z | k | i | items];
      try (destruct (IH seen Hnd Hpos) as (Hnd' & Hpos' & Hc);
           split; [exact Hnd' |]; split; [exact Hpos' |];
           intros s; cbn [tally_texts]; rewrite Hc;
           cbn [Spec.occurrences value_eqb]; rewrite andb_false_r; lia).
    cbn [tally_texts]. destruct (Codegen.truthy (VStr k)) eqn:Ht.
    + destruct (IH _ (bump_NoDup k _ Hnd) (bump_positive k _ Hpos))
        as (Hnd' & Hpos' & Hc).
      split; [exact Hnd' |]. split; [exact Hpos' |].
      intros s. rewrite Hc, bump_count.
      cbn [Spec.occurrences value_eqb]. rewrite Ht. simpl.
      rewrite (String.eqb_sym k s). lia.
    + destruct (IH seen Hnd Hpos) as (Hnd' & Hpos' & Hc).
      split; [exact Hnd' |]. split; [exact Hpos' |].
      intros s. rewrite Hc.
      cbn [Spec.occurrences]. rewrite Ht. simpl. lia.
Qed.

(** *** The dictionary with keys of any kind, and its texts *)

Lemma is_text_iff (v : value) : is_text v = true <-> exists s, v = VStr s.
Proof.
  destruct v; simpl; split; try discriminate; eauto; intros [s' [=]].
Qed.

Lemma equal_to_other (k v : value) :
  is_text v = false -> value_eqb k v = true -> is_text k = false.
Proof.
  intros Hv He. destruct k; try reflexivity.
  apply value_eqb_str_l in He. subst v. discriminate.
Qed.

Lemma lookup_key_text (s : string) (seen : list (value * nat)) :
  Codegen.lookup_key (VStr s) seen = assoc s (text_part seen).
Proof.
  induction seen as [|[k c] seen IH]; [reflexivity |].
  destruct k as [ | | | s' | | ]; simpl; try exact IH.
  rewrite (String.eqb_sym s s'). now destruct (String.eqb s' s).
Qed.

Lemma store_key_text (s : string) (c : nat) (seen : list (value * nat)) :
  text_part (Codegen.store_key (VStr s) c seen)
  = assoc_set s c (text_part seen).
Proof.
  induction seen as [|[k c'] seen IH]; [reflexivity |].
  destruct k as [ | | | s' | | ]; simpl; try exact IH.
  rewrite (String.eqb_sym s s'). destruct (String.eqb s' s) eqn:E; simpl.
  - apply String.eqb_eq in E. now subst.
  - now rewrite IH.
Qed.

Lemma bump_text_part (s : string) (seen : list (value * nat)) :
  text_part (Codegen.bump (VStr s) seen) = bump_text s (text_part seen).
Proof.
  unfold Codegen.bump, bump_text. rewrite lookup_key_text.
  destruct (assoc s (text_part seen)); apply store_key_text.
Qed.

Lemma store_key_other (k : value) (c : nat) (seen : list (value * nat)) :
  is_text k = false ->
  text_part (Codegen.store_key k c seen) = text_part seen.
Proof.
  intros Hk. induction seen as [|[k' c'] seen IH]; simpl.
  - now destruct k.
  - destruct (value_eqb k' k) eqn:E.
    + pose proof (equal_to_other _ _ Hk E) as Hk'. now destruct k'.
    + destruct k'; simpl; now rewrite ?IH.
Qed.

Lemma bump_other (k : value) (seen : list (value * nat)) :
  is_text k = false -> text_part (Codegen.bump k seen) = text_part seen.
Proof.
  intros Hk. unfold Codegen.bump.
  destruct (Codegen.lookup_key k seen); now apply store_key_other.
Qed.

(** The texts of the dictionary after the loop are the tally of the
    texts. *)
Lemma count_text_part (vals : list value) :
  forall seen seen',
    Codegen.count_indent_diffs vals seen = Ret seen' ->
    text_part seen' = tally_texts vals (text_part seen).
Proof.
  induction vals as [|v vals IH]; intros seen seen' H; simpl in H.
  - now injection H as <-.
  - destruct (Codegen.truthy v) eqn:Ht.
    + destruct (Codegen.hashable v); [| discriminate].
      rewrite (IH _ _ H).
      destruct v as [ | b | z | s | i | items];
        try (rewrite bump_other by reflexivity; reflexivity).
      cbn [tally_texts]. rewrite Ht. now rewrite bump_text_part.
    + rewrite (IH _ _ H). destruct v; try reflexivity.
      cbn [tally_texts]. now rewrite Ht.
Qed.

Lemma In_text_part (s : string) (c : nat) (seen : list (value * nat)) :
  In (VStr s, c) seen <-> In (s, c) (text_part seen).
Proof.
  induction seen as [|[k c'] seen IH]; [reflexivity |].
  destruct k; simpl; rewrite <- IH; split;
    try (intros [[=] | H]; now auto); try (intros H; now right).
  - intros [[= -> ->] | H]; [now left | now right].
  - intros [[= -> ->] | H]; [now left | now right].
Qed.

(** [max] goes through exactly when every key is text, and then it
    compares the texts of the dictionary. *)
Lemma text_items_part (seen : list (value * nat)) (items : list (string * nat)) :
  Codegen.text_items seen = Ret items -> items = text_part seen.
Proof.
  revert items. induction seen as [|[k c] seen IH]; intros items; simpl.
  - now intros [= <-].
  - destruct k; try discriminate.
    destruct (Codegen.text_items seen) as [l|e]; [| discriminate].
    intros [= <-]. now rewrite (IH l eq_refl).
Qed.

Lemma text_items_texts (seen : list (value * nat)) :
  Forall (fun kc => is_text (fst kc) = true) seen ->
  Codegen.text_items seen = Ret (text_part seen).
Proof.
  induction 1 as [|[k c] seen Hk _ IH]; [reflexivity |].
  simpl in Hk. destruct k; try discriminate. simpl. now rewrite IH.
Qed.

Lemma text_items_raises (seen : list (value * nat)) (e : exn) :
  Codegen.text_items seen = Raise e -> e = TypeError.
Proof.
  induction seen as [|[k c] seen IH]; simpl; [discriminate |].
  destruct k; try (now intros [= <-]).
  destruct (Codegen.text_items seen); [discriminate |].
  intros [= <-]. now apply IH.
Qed.

Lemma text_items_other (seen : list (value * nat)) (k : value) (c : nat) :
  In (k, c) seen -> is_text k = false ->
  Codegen.text_items seen = Raise TypeError.
Proof.
  intros Hin Hk. destruct (Codegen.text_items seen) as [items|e] eqn:E.
  - exfalso. revert items E.
    induction seen as [|[k' c'] seen IH]; intros items E; [contradiction |].
    simpl in E. destruct Hin as [[= -> ->] | Hin].
    + destruct k; discriminate.
    + destruct k'; try discriminate.
      destruct (Codegen.text_items seen) as [l|]; [| discriminate].
      now apply (IH Hin l).
  - now rewrite (text_items_raises _ _ E).
Qed.

(** The keys after one more count: those that were there, and the counted
    value unless an equal key was there. *)
Lemma store_key_keys (k : value) (c : nat) (seen : list (value * nat)) :
  map fst (Codegen.store_key k c seen)
  = match Codegen.lookup_key k seen with
    | Some _ => map fst seen
    | None => map fst seen ++ [k]
    end.
Proof.
  induction seen as [|[k' c'] seen IH]; [reflexivity |]. simpl.
  destruct (value_eqb k' k); simpl; [reflexivity |].
  rewrite IH. now destruct (Codegen.lookup_key k seen).
Qed.

Lemma lookup_key_None (k : value) (seen : list (value * nat)) :
  Codegen.lookup_key k seen = None -> ~ In k (map fst seen).
Proof.
  induction seen as [|[k' c'] seen IH]; simpl; [tauto |].
  destruct (value_eqb k' k) eqn:E; [discriminate |].
  intros H [Hk | Hk]; [| now apply IH].
  subst k'. now rewrite value_eqb_refl in E.
Qed.

Lemma bump_keys (k : value) (seen : list (value * nat)) :
  map fst (Codegen.bump k seen) = map fst seen
  \/ (map fst (Codegen.bump k seen) = map fst seen ++ [k]
      /\ ~ In k (map fst seen)).
Proof.
  unfold Codegen.bump. destruct (Codegen.lookup_key k seen) eqn:E;
    rewrite store_key_keys, E; [now left | right].
  split; [reflexivity | now apply lookup_key_None].
Qed.

Lemma NoDup_snoc {A} (l : list A) (x : A) :
  List.NoDup l -> ~ In x l -> List.NoDup (l ++ [x]).
Proof.
  intros Hnd Hx. apply List.NoDup_rev in Hnd.
  rewrite <- (rev_involutive (l ++ [x])). apply List.NoDup_rev.
  rewrite rev_app_distr. simpl. constructor; [| assumption].
  now rewrite <- in_rev.
Qed.

Lemma store_key_positive (k : value) (c : nat) (seen : list (value * nat)) :
  0 < c -> Forall (fun kc => 0 < snd kc) seen ->
  Forall (fun kc => 0 < snd kc) (Codegen.store_key k c seen).
Proof.
  intros Hc Hpos. induction Hpos as [|[k' c'] l Hx Hl IH]; simpl.
  - repeat constructor. exact Hc.
  - destruct (value_eqb k' k); constructor; simpl; auto.
Qed.

(** One key of the dictionary after a count is equal to the counted
    value. *)
Lemma store_key_has (k : value) (c : nat) (seen : list (value * nat)) :
  exists k', In (k', c) (Codegen.store_key k c seen) /\ value_eqb k' k = true.
Proof.
  induction seen as [|[k0 c0] seen (k' & Hin & He)]; simpl.
  - exists k. split; [now left | apply value_eqb_refl].
  - destruct (value_eqb k0 k) eqn:E.
    + exists k0. split; [now left | exact E].
    + exists k'. split; [now right | exact He].
Qed.

(** What the loop leaves: distinct keys, counts above zero, every key a
    counted value unless it was there before, and every counted value
    with a key equal to it. *)
Lemma count_indent_diffs_keys (vals : list value) :
  forall seen seen',
    Codegen.count_indent_diffs vals seen = Ret seen' ->
    List.NoDup (map fst seen) ->
    Forall (fun kc => 0 < snd kc) seen ->
    List.NoDup (map fst seen')
    /\ Forall (fun kc => 0 < snd kc) seen'
    /\ (forall k, In k (map fst seen') ->
          In k (map fst seen) \/ (In k vals /\ Codegen.truthy k = true))
    /\ (forall k, In k (map fst seen) -> In k (map fst seen'))
    /\ (forall v, In v vals -> Codegen.truthy v = true ->
          exists k, In k (map fst seen') /\ value_eqb k v = true).
Proof.
  induction vals as [|v vals IH]; intros seen seen' H Hnd Hpos; simpl in H.
  - injection H as <-. repeat split; auto. intros v [].
  - destruct (Codegen.truthy v) eqn:Ht.
    + destruct (Codegen.hashable v); [| discriminate].
      assert (Hnd1 : List.NoDup (map fst (Codegen.bump v seen))).
      { destruct (bump_keys v seen) as [-> | [-> Hnew]];
          [assumption | now apply NoDup_snoc]. }
      assert (Hpos1 : Forall (fun kc => 0 < snd kc) (Codegen.bump v seen)).
      { unfold Codegen.bump. destruct (Codegen.lookup_key v seen);
          apply store_key_positive; auto; lia. }
      assert (Hsub : forall k, In k (map fst (Codegen.bump v seen)) ->
                       In k (map fst seen) \/ k = v).
      { intros k. destruct (bump_keys v seen) as [-> | [-> _]]; [tauto |].
        rewrite in_app_iff. simpl. intuition. }
      assert (Hsup : forall k, In k (map fst seen) ->
                       In k (map fst (Codegen.bump v seen))).
      { intros k. destruct (bump_keys v seen) as [-> | [-> _]]; [tauto |].
        rewrite in_app_iff. tauto. }
      assert (Hhas : exists k, In k (map fst (Codegen.bump v seen))
                               /\ value_eqb k v = true).
      { unfold Codegen.bump. destruct (Codegen.lookup_key v seen) as [c|].
        - destruct (store_key_has v (S c) seen) as (k & Hin & He).
          exists k. split; [| exact He].
          change k with (fst (k, S c)). now apply in_map.
        - destruct (store_key_has v 1 seen) as (k & Hin & He).
          exists k. split; [| exact He].
          change k with (fst (k, 1)). now apply in_map. }
      destruct (IH _ _ H Hnd1 Hpos1) as (Hnd' & Hpos' & Hfrom & Hkeep & Hall).
      split; [exact Hnd' |]. split; [exact Hpos' |]. split; [| split].
      * intros k Hk. destruct (Hfrom k Hk) as [Hb | [Hin Hkt]].
        -- destruct (Hsub k Hb) as [Hs | ->]; [now left | right].
           split; [now left | exact Ht].
        -- right. split; [now right | exact Hkt].
      * intros k Hk. apply Hkeep. now apply Hsup.
      * intros w [<- | Hw] Hwt; [| now apply Hall].
        destruct Hhas as (k & Hk & He). exists k. split; [| exact He].
        now apply Hkeep.
    + destruct (IH _ _ H Hnd Hpos) as (Hnd' & Hpos' & Hfrom & Hkeep & Hall).
      split; [exact Hnd' |]. split; [exact Hpos' |]. split; [| split].
      * intros k Hk. destruct (Hfrom k Hk) as [Hb | [Hin Hkt]]; [now left |].
        right. split; [now right | exact Hkt].
      * exact Hkeep.
      * intros w [<- | Hw] Hwt; [congruence | now apply Hall].
Qed.

Lemma count_indent_diffs_raises (vals : list value) :
  forall seen e, Codegen.count_indent_diffs vals seen = Raise e -> e = TypeError.
Proof.
  induction vals as [|v vals IH]; intros seen e; simpl; [discriminate |].
  destruct (Codegen.truthy v); [| apply IH].
  destruct (Codegen.hashable v); [apply IH | now intros [= <-]].
Qed.

Lemma key_lt_irrefl (a : Z * Z) : Codegen.key_lt a a = false.
Proof.
  unfold Codegen.key_lt. rewrite !Z.ltb_irrefl. now rewrite andb_false_r.
Qed.

(** [key_lt a b = false] reads [b <= a] on the tuples. *)
Lemma key_lt_false (a b : Z * Z) :
  Codegen.key_lt a b = false <->
  (fst b <= fst a)%Z /\ (fst b = fst a -> (snd b <= snd a)%Z).
Proof.
  unfold Codegen.key_lt.
  rewrite orb_false_iff, andb_false_iff, Z.ltb_ge, Z.eqb_neq, Z.ltb_ge.
  split.
  - intros [H1 [H2 | H2]]; (split; [assumption |]); intros E;
      [congruence | lia].
  - intros [H1 H2]. split; [assumption |].
    destruct (Z.eq_dec (fst a) (fst b)) as [E | E]; [right | left; assumption].
    apply H2. congruence.
Qed.

Lemma key_le_trans (a b c : Z * Z) :
  Codegen.key_lt a b = false -> Codegen.key_lt b c = false ->
  Codegen.key_lt a c = false.
Proof.
  rewrite !key_lt_false. intros [H1 H2] [H3 H4]. split; [lia |].
  intros E. assert (fst b = fst a) by lia. assert (fst c = fst b) by lia.
  specialize (H2 ltac:(assumption)). specialize (H4 ltac:(assumption)). lia.
Qed.

(** [max] returns an item, and no item has a greater key. *)
Lemma max_from_greatest (items : list (string * nat)) :
  forall best,
    In (Codegen.max_from best items) (best :: items)
    /\ forall y, In y (best :: items) ->
         Codegen.key_lt (Codegen.indent_key (Codegen.max_from best items))
                        (Codegen.indent_key y) = false.
Proof.
  induction items as [|x items IH]; intros best; simpl.
  - split; [now left |]. intros y [<- | []]. apply key_lt_irrefl.
  - destruct (Codegen.key_lt (Codegen.indent_key best) (Codegen.indent_key x))
      eqn:E; destruct (IH (if true then x else best)) as [Hin Hmax];
      destruct (IH (if false then x else best)) as [Hin' Hmax']; simpl in *.
    + split; [tauto |]. intros y [<- | [<- | Hy]].
      * eapply key_le_trans; [apply Hmax; now left |].
        apply key_lt_false. unfold Codegen.key_lt in E.
        apply orb_true_iff in E. rewrite andb_true_iff in E.
        rewrite !Z.ltb_lt, Z.eqb_eq in E. split; lia.
      * apply Hmax. now left.
      * apply Hmax. now right.
    + split; [tauto |]. intros y [<- | [<- | Hy]].
      * apply Hmax'. now left.
      * eapply key_le_trans; [apply Hmax'; now left | exact E].
      * apply Hmax'. now right.
Qed.

Lemma count_of_positive_In (s : string) (seen : list (string * nat)) :
  0 < Spec.count_of s seen -> In (s, Spec.count_of s seen) seen.
Proof.
  unfold Spec.count_of. destruct (assoc s seen) as [c|] eqn:E; [| lia].
  intros _. now apply assoc_In.
Qed.

(** C3, as the code has it: the detected default is a text that some walked
    node stores; no text is stored more often; among the texts stored as
    often, none is shorter.  When two spaces and the tab are each stored
    three times and nothing else is stored, the tab (one character) is the
    default. *)
Theorem default_indent_selection (fuel tree : nat) (h : heap) (d : string) :
  Codegen.detect_indent_diff fuel tree h = Some (Ret (Some d)) ->
  exists nodes,
    Codegen.walk fuel h [tree] = Some nodes
    /\ let vals := Codegen.indent_diffs h nodes in
       0 < Spec.occurrences d vals
       /\ (forall s, Spec.occurrences s vals <= Spec.occurrences d vals)
       /\ (forall s, Spec.occurrences s vals = Spec.occurrences d vals ->
                     String.length d <= String.length s)
       /\ (Spec.occurrences "  " vals = 3 ->
           Spec.occurrences Spec.tab vals = 3 ->
           (forall s, s <> "  " -> s <> Spec.tab -> Spec.occurrences s vals = 0) ->
           d = Spec.tab).
Proof.
  unfold Codegen.detect_indent_diff. intros H.
  destruct (Codegen.walk fuel h [tree]) as [nodes|]; [| discriminate].
  exists nodes. split; [reflexivity |]. cbv zeta.
  set (vals := Codegen.indent_diffs h nodes) in *.
  destruct (Codegen.count_indent_diffs vals []) as [dict|e] eqn:Hc;
    [| discriminate].
  destruct (Codegen.text_items dict) as [seen|e] eqn:Hitems; [| discriminate].
  injection H as H.
  apply text_items_part in Hitems. apply count_text_part in Hc.
  simpl in Hc. rewrite <- Hitems in Hc. clear Hitems dict.
  destruct (tally_texts_counts vals []) as (Hnd & Hpos & Hcnt);
    [constructor | constructor |].
  rewrite <- Hc in Hnd, Hpos, Hcnt. clear Hc.
  assert (Hcnt' : forall s, Spec.count_of s seen = Spec.occurrences s vals)
    by (intros s; now rewrite Hcnt).
  destruct seen as [|x rest]; [discriminate |]. simpl in H. injection H as H.
  destruct (max_from_greatest rest x) as [Hin Hmax].
  set (r := Codegen.max_from x rest) in *.
  destruct r as [d' c] eqn:Er. simpl in H. subst d'.
  assert (Hd : Spec.count_of d (x :: rest) = c).
  { unfold Spec.count_of. now rewrite (In_assoc_unique d c _ Hnd Hin). }
  assert (Hcpos : 0 < c).
  { rewrite Forall_forall in Hpos. apply (Hpos (d, c)).
    now apply list_elem_of_In. }
  assert (Hle : forall s, 0 < Spec.occurrences s vals ->
            Spec.occurrences s vals <= c
            /\ (Spec.occurrences s vals = c -> String.length d <= String.length s)).
  { intros s Hs. rewrite <- Hcnt' in Hs. apply count_of_positive_In in Hs.
    specialize (Hmax _ Hs). apply key_lt_false in Hmax.
    unfold Codegen.indent_key in Hmax. simpl in Hmax.
    rewrite Hcnt' in Hmax. destruct Hmax as [H1 H2]. split; [lia |].
    intros E. specialize (H2 ltac:(lia)). lia. }
  assert (Hocc : Spec.occurrences d vals = c)
    by (rewrite <- Hcnt'; exact Hd).
  rewrite Hocc.
  repeat split.
  - exact Hcpos.
  - intros s. destruct (Nat.eq_dec (Spec.occurrences s vals) 0) as [E | E];
      [lia | apply Hle; lia].
  - intros s E. apply Hle; lia.
  - intros H2 Ht Hother.
    destruct (String.eqb d Spec.tab) eqn:Etab; [now apply String.eqb_eq |].
    apply String.eqb_neq in Etab.
    destruct (String.eqb d "  ") eqn:Etwo.
    + apply String.eqb_eq in Etwo. subst d.
      destruct (Hle Spec.tab ltac:(lia)) as [_ Hlen].
      specialize (Hlen ltac:(lia)). simpl in Hlen. lia.
    + apply String.eqb_neq in Etwo. specialize (Hother d Etwo Etab). lia.
Qed.

(** Once the walk has ended, the detection ends too: in [TypeError] when
    some walked node stores a truthy [indent_diff] that is not text, and
    otherwise with a choice, which is missing exactly when no node stores a
    text to count. *)
Lemma count_indent_diffs_returns (vals : list value) :
  forall seen,
    Forall (fun v => Codegen.truthy v = true -> exists s, v = VStr s) vals ->
    Forall (fun kc => is_text (fst kc) = true) seen ->
    exists seen',
      Codegen.count_indent_diffs vals seen = Ret seen'
      /\ Forall (fun kc => is_text (fst kc) = true) seen'.
Proof.
  induction vals as [|v vals IH]; intros seen Hall Hseen; simpl; [eauto |].
  inversion Hall as [|? ? Hv Hvals]; subst.
  destruct (Codegen.truthy v) eqn:Ht; [| now apply IH].
  destruct (Hv eq_refl) as [s ->]. simpl. apply IH; [exact Hvals |].
  unfold Codegen.bump.
  assert (Hstore : forall c,
             Forall (fun kc => is_text (fst kc) = true)
                    (Codegen.store_key (VStr s) c seen)).
  { intros c. clear -Hseen. induction Hseen as [|[k c'] l Hk Hl IHl]; simpl.
    - now repeat constructor.
    - simpl in Hk. destruct (value_eqb k (VStr s)); constructor; simpl; auto. }
  destruct (Codegen.lookup_key (VStr s) seen); apply Hstore.
Qed.

Lemma detect_indent_diff_returns (fuel tree : nat) (h : heap) (nodes : list nat) :
  Codegen.walk fuel h [tree] = Some nodes ->
  Forall (fun v => Codegen.truthy v = true -> exists s, v = VStr s)
         (Codegen.indent_diffs h nodes) ->
  exists choice,
    Codegen.detect_indent_diff fuel tree h = Some (Ret choice)
    /\ (choice = None <->
        forall s, occurrences s (Codegen.indent_diffs h nodes) = 0).
Proof.
  intros Hwalk Hall. unfold Codegen.detect_indent_diff. rewrite Hwalk.
  destruct (count_indent_diffs_returns _ [] Hall) as (dict & Hdict & Htexts);
    [constructor |].
  rewrite Hdict, (text_items_texts _ Htexts).
  exists (Codegen.most_prevalent (text_part dict)). split; [reflexivity |].
  apply count_text_part in Hdict. simpl in Hdict.
  destruct (tally_texts_counts (Codegen.indent_diffs h nodes) [])
    as (Hnd & Hpos & Hcnt); [constructor | constructor |].
  rewrite <- Hdict in Hnd, Hpos, Hcnt.
  destruct (text_part dict) as [|[k c] rest]; simpl.
  - split; [| reflexivity]. intros _ s. specialize (Hcnt s).
    unfold count_of in Hcnt. simpl in Hcnt. lia.
  - split; [discriminate |]. intros H. exfalso.
    specialize (Hcnt k). rewrite (H k) in Hcnt.
    unfold count_of in Hcnt. simpl in Hcnt. rewrite String.eqb_refl in Hcnt.
    inversion Hpos as [|? ? Hc _]; subst. simpl in Hc. lia.
Qed.

(** C3: on the tree with three two-space blocks and three tab blocks the
    theorem applies, and it yields the tab. *)
Lemma default_indent_selection_witness :
  Codegen.detect_indent_diff 7 0 Examples.tie_tree = Some (Ret (Some Spec.tab))
  /\ exists nodes,
       Codegen.walk 7 Examples.tie_tree [0] = Some nodes
       /\ let vals := Codegen.indent_diffs Examples.tie_tree nodes in
          0 < Spec.occurrences Spec.tab vals
          /\ (forall s, Spec.occurrences s vals <= Spec.occurrences Spec.tab vals)
          /\ (forall s, Spec.occurrences s vals = Spec.occurrences Spec.tab vals ->
                        String.length Spec.tab <= String.length s)
          /\ (Spec.occurrences "  " vals = 3 ->
              Spec.occurrences Spec.tab vals = 3 ->
              (forall s, s <> "  " -> s <> Spec.tab ->
                         Spec.occurrences s vals = 0) ->
              Spec.tab = Spec.tab).
Proof.
  split; [reflexivity |].
  apply (default_indent_selection 7 0 Examples.tie_tree Spec.tab).
  reflexivity.
Defined.

(** C3, where the sentence of the specification fails: with two spaces seen
    three times and the tab seen three times, the default is the tab, which
    is the shorter of the two, and not the two spaces. *)
Lemma tie_resolves_to_tab :
  Spec.occurrences "  "
    (Codegen.indent_diffs Examples.tie_tree [0; 1; 2; 3; 4; 5; 6]) = 3
  /\ Spec.occurrences Spec.tab
       (Codegen.indent_diffs Examples.tie_tree [0; 1; 2; 3; 4; 5; 6]) = 3
  /\ Codegen.walk 7 Examples.tie_tree [0] = Some [0; 1; 2; 3; 4; 5; 6]
  /\ Codegen.detect_indent_diff 7 0 Examples.tie_tree = Some (Ret (Some Spec.tab))
  /\ Spec.tab <> "  "
  /\ String.length Spec.tab = 1 /\ String.length "  " = 2.
Proof. repeat split; try reflexivity. discriminate. Qed.

(** ** Attribute emission and dependency invalidation *)

(** The test of the code on one dependency is the test for a dependency
    that has moved. *)
Lemma dep_changed_moved (o : obj) (d : string) :
  Codegen.dep_changed o d = moved o d.
Proof.
  unfold Codegen.dep_changed, moved, Fmt.has, Fmt.get, getattr_or_none.
  destruct (pasta o) as [fmt|]; simpl; [| reflexivity].
  now destruct (assoc (d ++ "__src") fmt).
Qed.

Lemma any_dep_changed_stale (o : obj) (deps : option (list string)) :
  match deps with
  | Some ds => Codegen.any_dep_changed o ds
  | None => false
  end = stale o deps.
Proof.
  destruct deps as [ds|]; [| reflexivity]. unfold Codegen.any_dep_changed.
  simpl. induction ds as [|d ds IH]; [reflexivity |].
  simpl. now rewrite dep_changed_moved, IH.
Qed.


(** For a stored text, [attr] settles on the chosen text. *)
Lemma attr_val_text (o : obj) (attr_name : string)
      (deps : option (list string)) (default : option string)
      (fragment : string) :
  Fmt.get o attr_name = VStr fragment ->
  Codegen.attr_val o attr_name deps default
  = VStr (chosen_text o deps default fragment).
Proof.
  intros Hfrag. unfold Codegen.attr_val, chosen_text. rewrite Hfrag. simpl.
  rewrite any_dep_changed_stale.
  destruct (stale o deps); [| reflexivity]. now destruct default.
Qed.




(** ** Failures of the traversal *)

Lemma update_node_ret (node : nat) (f : obj -> obj) (p : Codegen.printer) :
  fst (Codegen.update_node node f p) = Ret tt.
Proof. reflexivity. Qed.

Lemma del_printer_info_raises (node : nat) (p p' : Codegen.printer) (e : exn) :
  Codegen.del_printer_info node p = (Raise e, p') -> e = AttributeError.
Proof.
  unfold Codegen.del_printer_info, bind, get.
  destruct (Codegen.store p !! node) as [o|]; [| now intros [= <- _]].
  destruct (printer_info o); [discriminate | now intros [= <- _]].
Qed.

Lemma internal_error_iff (e : exn) :
  Codegen.internal_error e = true <-> internal e.
Proof.
  unfold internal. destruct e; simpl; split; intros H;
    try discriminate; try reflexivity; try tauto;
    destruct H as [H | [H | [H | H]]]; discriminate.
Qed.

Lemma visit_outcome (super_visit : nat -> M Codegen.printer unit) (node : nat)
      (p : Codegen.printer) :
  Codegen.visit super_visit node p
  = match super_visit node
            (snd (Codegen.update_node
                    node (Codegen.set_printer_info (Some ∅)) p)) with
    | (Ret _, p1) => Codegen.del_printer_info node p1
    | (Raise cause, p1) =>
        (Raise (if Codegen.internal_error cause
                then PrintError cause else cause), p1)
    end.
Proof.
  unfold Codegen.visit, bind, try_except, raise.
  unfold Codegen.update_node at 1, modify. simpl.
  destruct (super_visit node _) as [[[]|cause] p1]; [reflexivity |].
  now destruct (Codegen.internal_error cause).
Qed.

Lemma visit_never_internal (super_visit : nat -> M Codegen.printer unit)
      (node : nat) (p p' : Codegen.printer) (e : exn) :
  Codegen.visit super_visit node p = (Raise e, p') -> ~ internal e.
Proof.
  rewrite visit_outcome, <- internal_error_iff.
  destruct (super_visit node _) as [[[]|cause] p1].
  - intros H. apply del_printer_info_raises in H. now subst.
  - destruct (Codegen.internal_error cause) eqn:E; intros [= <- _];
      [discriminate | congruence].
Qed.

(** C7, as the code has it.  Whatever the dispatch is: a [TypeError],
    [ValueError], [IndexError] or [KeyError] that leaves it leaves [visit]
    as [PrintError] around it, any other exception leaves [visit] as it is,
    and no exception that leaves [visit] is one of the four.  The caller of
    [to_str] can still meet one of the four: then it was raised before the
    traversal started, by the detection of the indentation or by the setter
    of the default indentation, which run outside [visit]. *)
Theorem visit_wraps_internal_errors :
  (forall (super_visit : nat -> M Codegen.printer unit) (node : nat)
          (p p1 : Codegen.printer) (cause : exn),
      super_visit node
        (snd (Codegen.update_node node (Codegen.set_printer_info (Some ∅)) p))
      = (Raise cause, p1) ->
      ((cause = TypeError \/ cause = ValueError \/ cause = IndexError
        \/ cause = KeyError) ->
       Codegen.visit super_visit node p = (Raise (PrintError cause), p1))
      /\ (~ (cause = TypeError \/ cause = ValueError \/ cause = IndexError
             \/ cause = KeyError) ->
          Codegen.visit super_visit node p = (Raise cause, p1)))
  /\ (forall (super_visit : nat -> M Codegen.printer unit) (node : nat)
             (p p' : Codegen.printer) (e : exn),
         Codegen.visit super_visit node p = (Raise e, p') ->
         e <> TypeError /\ e <> ValueError /\ e <> IndexError /\ e <> KeyError)
  /\ (forall (bv : Codegen.base_visitor) (fuel tree : nat) (h h' : heap)
             (e : exn),
         Codegen.to_str bv fuel tree h = Some (Raise e, h') ->
         (e = TypeError \/ e = ValueError \/ e = IndexError \/ e = KeyError) ->
         Codegen.detect_indent_diff fuel tree h = Some (Raise e)
         \/ exists d p',
             Codegen.detect_indent_diff fuel tree h = Some (Ret (Some d))
             /\ Codegen.set_default_indent_diff bv d
                  (Codegen.Printer "" (Codegen.init_indent bv) h)
                = (Raise e, p')).
Proof.
  split; [| split].
  - intros sv node p p1 cause Hsv. rewrite visit_outcome, Hsv. split.
    + intros H. apply internal_error_iff in H. now rewrite H.
    + intros H. destruct (Codegen.internal_error cause) eqn:E; [| reflexivity].
      apply internal_error_iff in E. contradiction.
  - intros sv node p p' e H. apply visit_never_internal in H.
    unfold internal in H. repeat split; intros ->; apply H; tauto.
  - intros bv fuel tree h h' e. unfold Codegen.to_str.
    destruct (Codegen.detect_indent_diff fuel tree h) as [[choice|e0]|];
      [| intros [= -> _] _; now left | discriminate].
    intros H Hint. right. unfold bind in H.
    destruct choice as [d|].
    + destruct (Codegen.set_default_indent_diff bv d _) as [[[]|e1] p1] eqn:Hset.
      * exfalso.
        destruct (Codegen.visit (Codegen.super_visit bv) tree p1)
          as [[[]|e2] p2] eqn:Hv; simpl in H.
        -- discriminate.
        -- injection H as <- _. now apply visit_never_internal in Hv.
      * injection H as <- _. exists d, p1. split; [reflexivity | exact Hset].
    + exfalso. unfold ret in H.
      destruct (Codegen.visit (Codegen.super_visit bv) tree _)
        as [[[]|e2] p2] eqn:Hv; simpl in H.
      * discriminate.
      * injection H as <- _. now apply visit_never_internal in Hv.
Qed.

(** C7: a dispatch that ends in [KeyError]; the caller of [to_str] gets
    [PrintError] around it. *)
Lemma visit_wraps_internal_errors_witness :
  Codegen.visit (fun _ => raise KeyError) 0
                (Codegen.Printer "" "" Examples.tie_tree)
  = (Raise (PrintError KeyError),
     Codegen.Printer "" ""
       (<[0 := Codegen.set_printer_info (Some ∅) (Examples.node "Module"
                [("body", VList [VRef 1; VRef 2; VRef 3; VRef 4; VRef 5; VRef 6])]
                None)]> Examples.tie_tree))
  /\ Codegen.to_str Examples.failing_visitor 7 0 Examples.tie_tree
     = Some (Raise (PrintError KeyError),
             <[0 := Codegen.set_printer_info (Some ∅) (Examples.node "Module"
                      [("body", VList [VRef 1; VRef 2; VRef 3; VRef 4; VRef 5; VRef 6])]
                      None)]> Examples.tie_tree).
Proof.
  split; [| reflexivity].
  destruct visit_wraps_internal_errors as (Hwrap & _ & _).
  destruct (Hwrap (fun _ => raise KeyError) 0
                  (Codegen.Printer "" "" Examples.tie_tree)
                  (Codegen.Printer "" ""
                     (<[0 := Codegen.set_printer_info (Some ∅)
                               (Examples.node "Module"
                                  [("body", VList [VRef 1; VRef 2; VRef 3;
                                                   VRef 4; VRef 5; VRef 6])]
                                  None)]> Examples.tie_tree))
                  KeyError eq_refl) as [H _].
  apply H. tauto.
Defined.

(** C7, where the sentence of the specification fails: a node whose stored
    [indent_diff] is a number makes [to_str] end in [TypeError] itself, not
    wrapped, before any node is visited. *)
Lemma to_str_hands_on_type_error :
  Codegen.to_str Examples.failing_visitor 2 0
                 [Examples.node "Module" [("body", VList [VRef 1])] None;
                  Examples.node "Pass" [] (Some [("indent_diff", VInt 2)])]
  = Some (Raise TypeError,
          [Examples.node "Module" [("body", VList [VRef 1])] None;
           Examples.node "Pass" [] (Some [("indent_diff", VInt 2)])]).
Proof. reflexivity. Qed.

(** ** Interpolated strings *)

Section JoinedStrFacts.
Variable placeholder : nat -> string.
Variable perform_replacements : string -> list string -> string.
Variable repr : string -> string.

(** The marker written for a value that is not text carries the position
    of that value among all the values of the literal, text segments
    included. *)
Lemma joined_parts_positions (h : heap) (values : list value) :
  forall parts ps,
    Codegen.joined_parts placeholder h values parts = Ret ps ->
    length ps = length parts + length values
    /\ (forall i, i < length parts -> ps !! i = parts !! i)
    /\ forall i v,
        values !! i = Some v ->
        match v with VRef n => isinstance h n "Str" | _ => false end = false ->
        ps !! (length parts + i) = Some (VStr (placeholder (length parts + i))).
Proof.
  induction values as [|val rest IH]; intros parts ps H; simpl in H.
  - injection H as <-. split; [simpl; lia |]. split; [reflexivity |].
    intros i v Hi. rewrite lookup_nil in Hi. discriminate.
  - assert (Hstep : forall x,
               Codegen.joined_parts placeholder h rest (parts ++ [x]) = Ret ps ->
               length ps = length parts + length (val :: rest)
               /\ (forall i, i < length parts -> ps !! i = parts !! i)
               /\ ps !! length parts = Some x
               /\ forall i v,
                   rest !! i = Some v ->
                   match v with VRef n => isinstance h n "Str" | _ => false end
                   = false ->
                   ps !! (length parts + S i)
                   = Some (VStr (placeholder (length parts + S i)))).
    { intros x Hx. destruct (IH _ _ Hx) as (Hlen & Hpre & Hpos).
      rewrite length_app in Hlen, Hpre, Hpos. simpl in *.
      split; [lia |]. split; [| split].
      - intros i Hi. rewrite Hpre by lia. now rewrite lookup_app_l.
      - rewrite Hpre by lia. rewrite lookup_app_r by lia.
        now rewrite Nat.sub_diag.
      - intros i v Hi Hv. specialize (Hpos i v Hi Hv).
        replace (length parts + S i) with (length parts + 1 + i) by lia.
        exact Hpos. }
    destruct (match val with VRef n => isinstance h n "Str" | _ => false end)
      eqn:Hstr.
    + destruct val as [ | | | | n | ]; try discriminate.
      destruct (h !! n ≫= _) as [s|]; [| discriminate].
      destruct (Hstep _ H) as (Hlen & Hpre & _ & Hpos).
      split; [exact Hlen |]. split; [exact Hpre |].
      intros [|i] v Hi Hv; simpl in Hi.
      * injection Hi as <-. congruence.
      * exact (Hpos i v Hi Hv).
    + destruct (Hstep _ H) as (Hlen & Hpre & Hhere & Hpos).
      split; [exact Hlen |]. split; [exact Hpre |].
      intros [|i] v Hi Hv; simpl in Hi.
      * now rewrite Nat.add_0_r.
      * exact (Hpos i v Hi Hv).
Qed.

(** C8, at [f'a{x}'] without stored content: the only embedded expression
    is the first of the embedded-expression list (ordinal [0]), and the
    template carries the marker of ordinal [1], the position of the
    expression among the values of the literal. *)
Theorem joined_placeholder_counts_text_segments :
  Codegen.get_formatted_values Examples.fstring_tree
                               (Examples.node "JoinedStr"
                                  [("values", VList [VRef 1; VRef 2])] None)
  = [2]
  /\ Codegen.joined_parts placeholder Examples.fstring_tree
                          [VRef 1; VRef 2] []
     = Ret [VStr "a"; VStr (placeholder 1)]
  /\ Codegen.synthesized_content placeholder repr Examples.fstring_tree
                                 (Examples.node "JoinedStr"
                                    [("values", VList [VRef 1; VRef 2])] None)
     = Ret (repr ("a" ++ placeholder 1 ++ "")).
Proof. repeat split; reflexivity. Qed.
End JoinedStrFacts.

(** ** The debugging dump *)

(** C10, at the reference [x]: the dump is written to standard output, and
    what [to_tree_str] returns is [None], not the text. *)
Theorem to_tree_str_prints_and_returns_none
        (dump : heap -> nat -> string) (str : value -> string) :
  Codegen.to_tree_str dump str 2 Examples.name_tree (VRef 0) "" ""
  = Some (Ret tt,
          (dump Examples.name_tree 0 ++ Spec.nl
           ++ "  prefix -> " ++ Spec.dquote ++ " " ++ Spec.dquote ++ Spec.nl
           ++ "id" ++ Spec.nl
           ++ "    x" ++ Spec.nl
           ++ "ctx" ++ Spec.nl
           ++ "    " ++ dump Examples.name_tree 1 ++ Spec.nl)%string).
Proof.
  simpl. unfold Codegen.print, modify, bind, ret. simpl.
  do 2 f_equal. rewrite !append_assoc. reflexivity.
Qed.

(** ** The store under the tree edits *)

Lemma assoc_map_values {A B} (g : A -> B) (f : string) (d : list (string * A)) :
  assoc f (map (fun kv => (fst kv, g (snd kv))) d) = option_map g (assoc f d).
Proof.
  induction d as [|[k v] d IH]; simpl; [reflexivity |].
  destruct (String.eqb f k); [reflexivity | exact IH].
Qed.

Lemma fields_alike_refl (fs : list (string * value)) : fields_alike fs fs.
Proof. induction fs; constructor; eauto. Qed.

Lemma fields_alike_assoc (f : string) (fs fs' : list (string * value)) :
  fields_alike fs fs' ->
  match assoc f fs with
  | Some v => exists v', assoc f fs' = Some v'
                         /\ (forall l, v = VList l -> exists l', v' = VList l')
  | None => assoc f fs' = None
  end.
Proof.
  induction 1 as [|[k v] [k' v'] fs fs' [Hk Hv] _ IH]; simpl; [reflexivity |].
  simpl in Hk, Hv. subst k'.
  destruct (String.eqb f k); [eauto | exact IH].
Qed.

Lemma fields_alike_schema (o : obj) (fs' : list (string * value)) :
  fields_alike (fields o) fs' ->
  Spec.obj_schema o = true ->
  Spec.obj_schema (AstUtils.set_fields fs' o) = true.
Proof.
  intros Hal. unfold Spec.obj_schema, Spec.has_list_field, Spec.has_field. simpl.
  pose proof (fields_alike_assoc "targets" _ _ Hal) as Ht.
  pose proof (fields_alike_assoc "value" _ _ Hal) as Hv.
  pose proof (fields_alike_assoc "id" _ _ Hal) as Hi.
  destruct (String.eqb (cls o) "Assign"), (String.eqb (cls o) "Name");
    destruct (assoc "targets" (fields o)) as [[ | | | | | l]|];
    destruct (assoc "value" (fields o));
    destruct (assoc "id" (fields o)); simpl; try discriminate; intros _;
    repeat match goal with
           | H : exists _, _ |- _ => destruct H as (? & ? & ?)
           | H : assoc _ fs' = _ |- _ => rewrite H
           end; simpl; try reflexivity;
    match goal with
    | H : forall l0, VList ?l = VList l0 -> _ |- _ =>
        destruct (H l eq_refl) as [? ->]; reflexivity
    end.
Qed.

Lemma replace_in_fields_alike (old : nat) (new : value)
      (fs : list (string * value)) :
  fields_alike fs (AstUtils.replace_in_fields old new fs).
Proof.
  induction fs as [|[f v] fs IH]; simpl; [constructor |].
  destruct v as [ | | | | i | items]; try (constructor; [eauto | exact IH]).
  - destruct (Nat.eqb i old); constructor; simpl;
      try (split; [reflexivity | discriminate]);
      [apply fields_alike_refl | exact IH].
  - destruct (AstUtils.replace_first old new items); constructor; simpl; eauto;
      [apply fields_alike_refl].
Qed.

Lemma remove_in_fields_alike (child : nat) (fs : list (string * value)) :
  fields_alike fs (AstUtils.remove_in_fields child fs).
Proof.
  induction fs as [|[f v] fs IH]; simpl; [constructor |].
  destruct v as [ | | | | i | items]; try (constructor; [eauto | exact IH]).
  destruct (AstUtils.remove_first child items); constructor; simpl; eauto;
    [apply fields_alike_refl].
Qed.

Lemma assoc_set_alike (f : string) (l : list value) (fs : list (string * value)) :
  (exists v, assoc f fs = Some v) ->
  fields_alike fs (assoc_set f (VList l) fs).
Proof.
  induction fs as [|[k v] fs IH]; simpl; intros [v0 H]; [discriminate |].
  destruct (String.eqb f k) eqn:E.
  - apply String.eqb_eq in E. subst k. constructor; simpl;
      [eauto | apply fields_alike_refl].
  - constructor; simpl; [eauto | apply IH; eauto].
Qed.

Lemma schema_lookup (h : heap) (i : nat) (o : obj) :
  Spec.schema h = true -> h !! i = Some o -> Spec.obj_schema o = true.
Proof.
  unfold Spec.schema. rewrite forallb_forall. intros H Hi. apply H.
  apply list_elem_of_In. eapply list_elem_of_lookup_2. exact Hi.
Qed.

Lemma schema_insert (h : heap) (i : nat) (o : obj) :
  Spec.schema h = true -> Spec.obj_schema o = true ->
  Spec.schema (<[i := o]> h) = true.
Proof.
  unfold Spec.schema. rewrite !forallb_forall. intros H Ho x Hx.
  apply list_elem_of_In in Hx. apply list_elem_of_lookup in Hx as [j Hj].
  destruct (decide (i = j)) as [-> | Hne].
  - destruct (decide (j < length h)) as [Hlt | Hge].
    + rewrite list_lookup_insert_eq in Hj by exact Hlt. now injection Hj as <-.
    + rewrite list_insert_ge in Hj by lia. apply H.
      apply list_elem_of_In. eapply list_elem_of_lookup_2. exact Hj.
  - rewrite list_lookup_insert_ne in Hj by exact Hne. apply H.
    apply list_elem_of_In. eapply list_elem_of_lookup_2. exact Hj.
Qed.

Lemma obj_schema_shift (n : nat) (o : obj) :
  Spec.obj_schema (Inline.shift_obj n o) = Spec.obj_schema o.
Proof.
  unfold Spec.obj_schema, Spec.has_list_field, Spec.has_field, Inline.shift_obj.
  simpl. rewrite !assoc_map_values.
  destruct (assoc "targets" (fields o)) as [[ | | | | | l]|];
    destruct (assoc "value" (fields o)); destruct (assoc "id" (fields o));
    reflexivity.
Qed.

Lemma schema_deepcopy (v : value) (h : heap) :
  Spec.schema h = true -> Spec.schema (snd (Inline.deepcopy v h)) = true.
Proof.
  unfold Spec.schema, Inline.deepcopy. simpl. intros H.
  rewrite forallb_app, H. simpl. rewrite forallb_forall in *.
  intros x Hx. apply in_map_iff in Hx as (o & <- & Ho).
  rewrite obj_schema_shift. now apply H.
Qed.

Lemma schema_replace_child (parent : option nat) (node : nat) (new : value)
      (h : heap) :
  Spec.schema h = true ->
  Spec.schema (AstUtils.replace_child parent node new h) = true.
Proof.
  intros H. unfold AstUtils.replace_child.
  destruct parent as [p|]; [| exact H].
  destruct (h !! p) as [o|] eqn:Hp; [| exact H].
  apply schema_insert; [exact H |].
  apply fields_alike_schema; [apply replace_in_fields_alike |].
  eapply schema_lookup; eassumption.
Qed.

Lemma classes_kept_refl (h : heap) : classes_kept h h.
Proof. intros i o H. eauto. Qed.

Lemma classes_kept_trans (h1 h2 h3 : heap) :
  classes_kept h1 h2 -> classes_kept h2 h3 -> classes_kept h1 h3.
Proof.
  intros H12 H23 i o Hi. destruct (H12 i o Hi) as (o2 & H2 & E2).
  destruct (H23 i o2 H2) as (o3 & H3 & E3). exists o3. split; congruence.
Qed.

Lemma classes_kept_set_fields (h : heap) (p : nat) (o : obj)
      (fs : list (string * value)) :
  h !! p = Some o -> classes_kept h (<[p := AstUtils.set_fields fs o]> h).
Proof.
  intros Hp i o' Hi. destruct (decide (p = i)) as [-> | Hne].
  - rewrite list_lookup_insert_eq by (eapply lookup_lt_Some; eassumption).
    eexists. split; [reflexivity |]. simpl. congruence.
  - rewrite list_lookup_insert_ne by exact Hne. eauto.
Qed.

Lemma classes_kept_deepcopy (v : value) (h : heap) :
  classes_kept h (snd (Inline.deepcopy v h)).
Proof.
  intros i o Hi. simpl. exists o. split; [| reflexivity].
  now apply lookup_app_l_Some.
Qed.

Lemma classes_kept_replace_child (parent : option nat) (node : nat)
      (new : value) (h : heap) :
  classes_kept h (AstUtils.replace_child parent node new h).
Proof.
  unfold AstUtils.replace_child. destruct parent as [p|];
    [| apply classes_kept_refl].
  destruct (h !! p) as [o|] eqn:Hp; [| apply classes_kept_refl].
  now apply classes_kept_set_fields.
Qed.

(** ** Constant inlining: what can fail, and when *)

(** The scan for a store reference touches nothing. *)
Lemma check_reads_outcome (name : string) (refs : list nat) (h : heap) :
  Inline.check_reads name refs h
  = if existsb (Inline.is_store h) refs
    then (Raise (InlineError (Inline.not_a_constant name)), h)
    else (Ret tt, h).
Proof.
  induction refs as [|r refs IH]; [reflexivity |].
  unfold Inline.check_reads in *. simpl.
  unfold bind at 1. unfold bind at 1. unfold get.
  destruct (Inline.is_store h r); simpl; [reflexivity | exact IH].
Qed.

(** The rewriting of the references always goes through. *)
Lemma replace_reads_total (sc : Scope.scope) (v : value) (refs : list nat) :
  forall h, exists h',
    Inline.replace_reads sc v refs h = (Ret tt, h')
    /\ classes_kept h h'
    /\ (schema h = true -> schema h' = true).
Proof.
  induction refs as [|r refs IH]; intros h.
  - exists h. split; [reflexivity |]. split; [apply classes_kept_refl | auto].
  - set (h1 := AstUtils.replace_child (Scope.parent sc r) r
                 (fst (Inline.deepcopy v h)) (snd (Inline.deepcopy v h))).
    destruct (IH h1) as (h' & Hrun & Hcls & Hsch).
    exists h'. split; [| split].
    + unfold Inline.replace_reads in *. simpl. unfold bind at 1.
      unfold bind at 1. simpl. unfold modify. exact Hrun.
    + eapply classes_kept_trans; [| exact Hcls].
      eapply classes_kept_trans; [apply classes_kept_deepcopy |].
      apply classes_kept_replace_child.
    + intros H. apply Hsch. subst h1.
      apply schema_replace_child. now apply schema_deepcopy.
Qed.

Lemma filter_targets_total (h : heap) (name : string) (tgts : list value) :
  schema h = true -> exists l, Inline.filter_targets h name tgts = Ret l.
Proof.
  intros Hs. induction tgts as [|tgt tgts [l IH]]; simpl; [eauto |].
  rewrite IH.
  destruct tgt as [ | | | | i | ]; eauto.
  unfold isinstance. destruct (h !! i) as [o|] eqn:Hi; simpl; [| eauto].
  destruct (String.eqb (cls o) "Name") eqn:Hn; [| eauto].
  pose proof (schema_lookup _ _ _ Hs Hi) as Ho.
  unfold obj_schema in Ho. rewrite Hn in Ho.
  apply andb_true_iff in Ho as [_ Ho]. unfold has_field in Ho.
  destruct (assoc "id" (fields o)); [eauto | discriminate].
Qed.

Lemma remove_assignment_total (sc : Scope.scope) (name : string)
      (assign_node : nat) (h : heap) :
  schema h = true -> isinstance h assign_node "Assign" = true ->
  exists h', Inline.remove_assignment sc name assign_node h = (Ret tt, h').
Proof.
  intros Hs Ha. unfold isinstance in Ha.
  destruct (h !! assign_node) as [o|] eqn:Ho; [| discriminate].
  pose proof (schema_lookup _ _ _ Hs Ho) as Hso.
  unfold obj_schema in Hso. rewrite Ha in Hso.
  apply andb_true_iff in Hso as [Hso _]. apply andb_true_iff in Hso as [Ht _].
  unfold has_list_field in Ht.
  destruct (assoc "targets" (fields o)) as [[ | | | | | tgts]|] eqn:Et;
    try discriminate.
  unfold Inline.remove_assignment, bind, Inline.getattr. rewrite Ho. simpl.
  rewrite Et.
  destruct (Nat.eqb (length tgts) 1); [unfold modify; eauto |].
  destruct (filter_targets_total h name tgts Hs) as [l ->].
  unfold modify. eauto.
Qed.

(** The two mutating steps, one after the other, from a store that meets the
    grammar: they end, and they end well. *)
Lemma mutation_total (sc : Scope.scope) (name : string) (v : value)
      (refs : list nat) (assign_node : nat) (h : heap) :
  schema h = true -> isinstance h assign_node "Assign" = true ->
  exists h',
    bind (Inline.replace_reads sc v refs)
         (fun _ => Inline.remove_assignment sc name assign_node) h
    = (Ret tt, h').
Proof.
  intros Hs Ha.
  destruct (replace_reads_total sc v refs h) as (h1 & Hrun & Hcls & Hsch).
  unfold bind. rewrite Hrun.
  apply remove_assignment_total; [auto |].
  unfold isinstance in *. destruct (h !! assign_node) as [o|] eqn:Ho;
    [| discriminate].
  destruct (Hcls _ _ Ho) as (o' & -> & ->). exact Ha.
Qed.

Lemma assign_has_value (h : heap) (a : nat) :
  schema h = true -> isinstance h a "Assign" = true ->
  exists v, Inline.getattr a "value" h = (Ret v, h).
Proof.
  intros Hs Ha. unfold isinstance in Ha. unfold Inline.getattr.
  destruct (h !! a) as [o|] eqn:Ho; [| discriminate]. simpl.
  pose proof (schema_lookup _ _ _ Hs Ho) as Hso.
  unfold obj_schema in Hso. rewrite Ha in Hso.
  apply andb_true_iff in Hso as [Hso _]. apply andb_true_iff in Hso as [_ Hv].
  unfold has_field in Hv. destruct (assoc "value" (fields o)); [eauto | discriminate].
Qed.

(** The run of [inline_name] for a name the table knows, on a tree that meets
    the grammar, by the first check that fails. *)
Lemma inline_name_cases
      (analyze : nat -> heap -> Scope.scope) (astlib : string)
      (t : nat) (name : string) (h : heap) (entry : Scope.name_entry) :
  Scope.names (analyze t h) !! name = Some entry ->
  schema h = true ->
  let sc := analyze t h in
  let d := Scope.definition entry in
  let a := d ≫= Scope.parent sc in
  let run := Inline.inline_name analyze astlib t name h in
  let is_name := Inline.opt_isinstance h d "Name" in
  let in_assign := Inline.opt_isinstance h a "Assign" in
  let top_level := Inline.opt_isinstance h (a ≫= Scope.parent sc) "Module" in
  let stored := existsb (Inline.is_store h) (Scope.reads entry) in
  (is_name = false
   /\ run = (Raise (InlineError (Inline.not_a_constant_type astlib name h d)), h))
  \/ (is_name = true /\ in_assign = false
      /\ run = (Raise (InlineError (Inline.not_in_assignment name)), h))
  \/ (is_name = true /\ in_assign = true /\ top_level = false
      /\ run = (Raise (InlineError (Inline.not_top_level name)), h))
  \/ (is_name = true /\ in_assign = true /\ top_level = true /\ stored = true
      /\ run = (Raise (InlineError (Inline.not_a_constant name)), h))
  \/ (is_name = true /\ in_assign = true /\ top_level = true /\ stored = false
      /\ exists h', run = (Ret tt, h')).
Proof.
  intros Hname Hs. cbv zeta.
  remember (Inline.inline_name analyze astlib t name h) as run eqn:Hrun.
  unfold Inline.inline_name, bind at 1, get in Hrun. rewrite Hname in Hrun.
  set (sc := analyze t h) in *. set (d := Scope.definition entry) in *.
  destruct (Inline.opt_isinstance h d "Name"); [| now left].
  right. simpl in Hrun.
  destruct (d ≫= Scope.parent sc) as [a'|]; [| now left].
  destruct (Inline.opt_isinstance h (Some a') "Assign") eqn:Ha; [| now left].
  right. simpl in Ha, Hrun. simpl.
  destruct (assign_has_value h a' Hs Ha) as [v Hv].
  unfold bind at 1 in Hrun. rewrite Hv in Hrun.
  destruct (Inline.opt_isinstance h (Scope.parent sc a') "Module"); [| now left].
  right. simpl in Hrun.
  unfold bind at 1 in Hrun. rewrite check_reads_outcome in Hrun.
  destruct (existsb (Inline.is_store h) (Scope.reads entry)); [now left |].
  right.
  destruct (mutation_total sc name v (Scope.reads entry) a' h Hs Ha) as [h' Hm].
  repeat split. exists h'. rewrite Hrun. exact Hm.
Qed.

(** C5: for a name the scope table knows, on a tree that meets the grammar,
    [inline_name] raises [InlineError] with the message of the first check
    that fails, in the order definition kind, assignment, top level, store
    reference, each time with the tree as it was; and when no check fails it
    raises nothing.  The kind in the first message is the class of the
    definition, written the way Python writes a class:
    [<class 'ast.FunctionDef'>] for a function definition of the module
    [ast], and [<class 'NoneType'>] for a name without a definition. *)
Theorem inline_name_errors
        (analyze : nat -> heap -> Scope.scope) (astlib : string)
        (t : nat) (name : string) (h : heap) (entry : Scope.name_entry) :
  Scope.names (analyze t h) !! name = Some entry ->
  schema h = true ->
  let sc := analyze t h in
  let d := Scope.definition entry in
  let a := d ≫= Scope.parent sc in
  let run := Inline.inline_name analyze astlib t name h in
  let kind := match d ≫= (fun i => h !! i) with
              | Some o => ("<class '" ++ astlib ++ "." ++ cls o ++ "'>")%string
              | None => "<class 'NoneType'>"
              end in
  if negb (Inline.opt_isinstance h d "Name") then
    run = (Raise (InlineError
                    (("'" ++ name ++ "'") ++ " is not a constant; it has type "
                       ++ kind)), h)
  else if negb (Inline.opt_isinstance h a "Assign") then
    run = (Raise (InlineError
                    (("'" ++ name ++ "'") ++ " is not declared in an assignment")),
           h)
  else if negb (Inline.opt_isinstance h (a ≫= Scope.parent sc) "Module") then
    run = (Raise (InlineError
                    (("'" ++ name ++ "'") ++ " is not a top-level name")), h)
  else if existsb (Inline.is_store h) (Scope.reads entry) then
    run = (Raise (InlineError (("'" ++ name ++ "'") ++ " is not a constant")), h)
  else exists h', run = (Ret tt, h').
Proof.
  intros Hname Hs.
  pose proof (inline_name_cases analyze astlib t name h entry Hname Hs) as H.
  cbv zeta in *.
  destruct H as [[H1 H] | [(H1 & H2 & H) | [(H1 & H2 & H3 & H)
                | [(H1 & H2 & H3 & H4 & H) | (H1 & H2 & H3 & H4 & H)]]]];
    rewrite H1; simpl negb; cbv iota;
    try (rewrite H2; simpl negb; cbv iota);
    try (rewrite H3; simpl negb; cbv iota);
    try (rewrite H4; cbv iota);
    exact H.
Qed.

(** C5: the theorem at the four rejections of [inline_test.py], each with
    its message and its tree left as it was, and at [y] in
    [x = y = z = 1; a = x + y], which passes every check. *)
Lemma inline_name_errors_witness :
  Inline.inline_name (fun _ _ => Examples.func_scope) "ast" 0 "func"
                     Examples.func_tree
  = (Raise (InlineError
              "'func' is not a constant; it has type <class 'ast.FunctionDef'>"),
     Examples.func_tree)
  /\ Inline.inline_name (fun _ _ => Examples.tuple_scope) "ast" 0 "CONSTANT1"
                        Examples.tuple_tree
     = (Raise (InlineError "'CONSTANT1' is not declared in an assignment"),
        Examples.tuple_tree)
  /\ Inline.inline_name (fun _ _ => Examples.cond_scope) "ast" 0 "x"
                        Examples.cond_tree
     = (Raise (InlineError "'x' is not a top-level name"), Examples.cond_tree)
  /\ Inline.inline_name (fun _ _ => Examples.aug_scope) "ast" 0
                        "NOT_A_CONSTANT" Examples.aug_tree
     = (Raise (InlineError "'NOT_A_CONSTANT' is not a constant"),
        Examples.aug_tree)
  /\ exists h',
      Inline.inline_name (fun _ _ => Examples.chained_scope) "ast" 0 "y"
                         Examples.chained_tree
      = (Ret tt, h').
Proof.
  split; [| split; [| split; [| split]]].
  - exact (inline_name_errors (fun _ _ => Examples.func_scope) "ast" 0 "func"
                              Examples.func_tree
                              (Scope.NameEntry (Some 1) [5]) eq_refl eq_refl).
  - exact (inline_name_errors (fun _ _ => Examples.tuple_scope) "ast" 0
                              "CONSTANT1" Examples.tuple_tree
                              (Scope.NameEntry (Some 3) []) eq_refl eq_refl).
  - exact (inline_name_errors (fun _ _ => Examples.cond_scope) "ast" 0 "x"
                              Examples.cond_tree
                              (Scope.NameEntry (Some 4) [8]) eq_refl eq_refl).
  - exact (inline_name_errors (fun _ _ => Examples.aug_scope) "ast" 0
                              "NOT_A_CONSTANT" Examples.aug_tree
                              (Scope.NameEntry (Some 2) [5]) eq_refl eq_refl).
  - exact (inline_name_errors (fun _ _ => Examples.chained_scope) "ast" 0 "y"
                              Examples.chained_tree
                              (Scope.NameEntry (Some 3) [11]) eq_refl eq_refl).
Defined.

(** The four rejections of [inline_test.py]. *)
Example inline_function_fails :
  Inline.inline_name (fun _ _ => Examples.func_scope) "ast" 0 "func"
                     Examples.func_tree
  = (Raise (InlineError
              "'func' is not a constant; it has type <class 'ast.FunctionDef'>"),
     Examples.func_tree).
Proof. reflexivity. Qed.

Example inline_non_assign_fails :
  Inline.inline_name (fun _ _ => Examples.tuple_scope) "ast" 0 "CONSTANT1"
                     Examples.tuple_tree
  = (Raise (InlineError "'CONSTANT1' is not declared in an assignment"),
     Examples.tuple_tree).
Proof. reflexivity. Qed.

Example inline_conditional_fails :
  Inline.inline_name (fun _ _ => Examples.cond_scope) "ast" 0 "x"
                     Examples.cond_tree
  = (Raise (InlineError "'x' is not a top-level name"), Examples.cond_tree).
Proof. reflexivity. Qed.

Example inline_non_constant_fails :
  Inline.inline_name (fun _ _ => Examples.aug_scope) "ast" 0 "NOT_A_CONSTANT"
                     Examples.aug_tree
  = (Raise (InlineError "'NOT_A_CONSTANT' is not a constant"), Examples.aug_tree).
Proof. reflexivity. Qed.

Lemma filter_targets_raises (h : heap) (name : string) (tgts : list value)
      (e : exn) :
  Inline.filter_targets h name tgts = Raise e -> e = AttributeError.
Proof.
  revert e. induction tgts as [|tgt tgts IH]; intros e; simpl; [discriminate |].
  destruct (Inline.filter_targets h name tgts) as [l|e'].
  - destruct tgt as [ | | | | i | ]; try discriminate.
    destruct (isinstance h i "Name"); [| discriminate].
    destruct (h !! i ≫= _); [discriminate | now intros [= <-]].
  - specialize (IH e' eq_refl). subst e'.
    destruct tgt as [ | | | | i | ]; try (now intros [= <-]).
    destruct (isinstance h i "Name"); [| now intros [= <-]].
    destruct (h !! i ≫= _); now intros [= <-].
Qed.

Lemma remove_assignment_raises (sc : Scope.scope) (name : string)
      (assign_node : nat) (h h' : heap) (e : exn) :
  Inline.remove_assignment sc name assign_node h = (Raise e, h') ->
  e = AttributeError \/ e = TypeError.
Proof.
  unfold Inline.remove_assignment, bind, Inline.getattr.
  destruct (h !! assign_node ≫= _) as [targets|]; [| intros [= <- _]; now left].
  destruct targets as [ | | | | | tgts]; try (intros [= <- _]; now right).
  destruct (Nat.eqb (length tgts) 1); [discriminate |].
  destruct (Inline.filter_targets h name tgts) as [l|e'] eqn:Hf; [discriminate |].
  intros [= <- _]. left. eapply filter_targets_raises. exact Hf.
Qed.

(** C4: an [InlineError] leaves the tree as it was, whatever the tree and the
    scope table.  On a tree that meets the grammar, every failure of
    [inline_name] is the missing name or an [InlineError], raised with the
    tree untouched; and the two mutating steps, started from a validated tree,
    cannot fail. *)
Theorem inline_name_fails_before_mutating
        (analyze : nat -> heap -> Scope.scope) (astlib : string)
        (t : nat) (name : string) (h : heap) :
  (forall msg h',
      Inline.inline_name analyze astlib t name h = (Raise (InlineError msg), h') ->
      h' = h)
  /\ (schema h = true ->
      (forall e h',
          Inline.inline_name analyze astlib t name h = (Raise e, h') ->
          h' = h /\ (e = KeyError \/ exists msg, e = InlineError msg))
      /\ forall sc v refs assign_node,
          isinstance h assign_node "Assign" = true ->
          exists h',
            bind (Inline.replace_reads sc v refs)
                 (fun _ => Inline.remove_assignment sc name assign_node) h
            = (Ret tt, h')).
Proof.
  split.
  - intros msg h'. unfold Inline.inline_name, bind at 1, get.
    destruct (Scope.names (analyze t h) !! name) as [entry|];
      [| discriminate].
    destruct (negb (Inline.opt_isinstance h (Scope.definition entry) "Name"));
      [now intros [= _ <-] |].
    destruct (negb (Inline.opt_isinstance h _ "Assign"));
      [now intros [= _ <-] |].
    destruct (Scope.definition entry ≫= Scope.parent (analyze t h)) as [a|];
      [| discriminate].
    unfold bind at 1, Inline.getattr.
    destruct (h !! a ≫= _) as [v|]; [| discriminate].
    destruct (negb (Inline.opt_isinstance h _ "Module"));
      [now intros [= _ <-] |].
    unfold bind at 1. rewrite check_reads_outcome.
    destruct (existsb (Inline.is_store h) (Scope.reads entry));
      [now intros [= _ <-] |].
    unfold bind at 1.
    destruct (replace_reads_total (analyze t h) v (Scope.reads entry) h)
      as (h1 & -> & _).
    intros H. apply remove_assignment_raises in H as [H | H]; discriminate.
  - intros Hs. split; [| intros sc v refs a Ha; now apply mutation_total].
    intros e h'.
    destruct (Scope.names (analyze t h) !! name) as [entry|] eqn:Hname.
    + pose proof (inline_name_cases analyze astlib t name h entry Hname Hs) as H.
      cbv zeta in H.
      destruct H as [[_ H] | [(_ & _ & H) | [(_ & _ & _ & H)
                    | [(_ & _ & _ & _ & H) | (_ & _ & _ & _ & [h1 H])]]]];
        rewrite H; try discriminate;
        intros [= <- <-]; (split; [reflexivity | right; eauto]).
    + unfold Inline.inline_name, bind at 1, get. rewrite Hname.
      intros [= <- <-]. split; [reflexivity | now left].
Qed.

(** C4: the rejected [NOT_A_CONSTANT] leaves its tree as it was, and the
    mutating steps for [y] in the chained assignment end well. *)
Lemma inline_name_fails_before_mutating_witness :
  snd (Inline.inline_name (fun _ _ => Examples.aug_scope) "ast" 0
                          "NOT_A_CONSTANT" Examples.aug_tree)
  = Examples.aug_tree
  /\ exists h',
      bind (Inline.replace_reads Examples.chained_scope (VRef 5) [11])
           (fun _ => Inline.remove_assignment Examples.chained_scope "y" 1)
           Examples.chained_tree
      = (Ret tt, h').
Proof.
  split.
  - destruct (inline_name_fails_before_mutating
                (fun _ _ => Examples.aug_scope) "ast" 0 "NOT_A_CONSTANT"
                Examples.aug_tree) as [H _].
    apply (H "'NOT_A_CONSTANT' is not a constant"). reflexivity.
  - destruct (inline_name_fails_before_mutating
                (fun _ _ => Examples.chained_scope) "ast" 0 "y"
                Examples.chained_tree) as [_ H].
    destruct (H eq_refl) as [_ Hm].
    apply Hm. reflexivity.
Defined.

(** ** Constant inlining: what the rewriting leaves behind *)

#[local] Arguments subst_item : simpl never.
#[local] Arguments is_ref : simpl never.

Lemma is_ref_iff (r : nat) (v : value) : is_ref r v = true <-> v = VRef r.
Proof. unfold is_ref. apply value_eqb_ref. Qed.

Lemma is_ref_ref (r i : nat) : is_ref r (VRef i) = Nat.eqb i r.
Proof. reflexivity. Qed.

Lemma subst_item_one (r : nat) (c x : value) :
  subst_item [(r, c)] x = if is_ref r x then c else x.
Proof.
  destruct x as [ | | | | i | ]; try reflexivity.
  rewrite is_ref_ref. unfold subst_item. simpl. rewrite (Nat.eqb_sym r i).
  now destruct (Nat.eqb i r).
Qed.

(** Where [old] is no item, nothing is replaced; where it is an item once,
    the replacement of the first is the replacement of all. *)
Lemma replace_first_absent (old : nat) (new : value) (items : list value) :
  List.filter (is_ref old) items = [] ->
  AstUtils.replace_first old new items = None
  /\ map (subst_item [(old, new)]) items = items.
Proof.
  induction items as [|x items IH]; simpl; [auto |].
  rewrite subst_item_one. fold (is_ref old x).
  destruct (is_ref old x); [discriminate |].
  intros H. destruct (IH H) as [-> ->]. auto.
Qed.

Lemma replace_first_once (old : nat) (new : value) (items : list value) :
  length (List.filter (is_ref old) items) = 1 ->
  AstUtils.replace_first old new items
  = Some (map (subst_item [(old, new)]) items).
Proof.
  induction items as [|x items IH]; simpl; [discriminate |].
  rewrite subst_item_one. fold (is_ref old x).
  destruct (is_ref old x); simpl.
  - intros H. destruct (List.filter (is_ref old) items) eqn:E; [| discriminate].
    destruct (replace_first_absent old new items E) as [_ ->]. reflexivity.
  - intros H. now rewrite (IH H).
Qed.

Lemma child_count_cons (r : nat) (f : string) (v : value)
      (fs : list (string * value)) :
  child_count r ((f, v) :: fs)
  = match v with
    | VList items => length (List.filter (is_ref r) items)
    | VRef i => if Nat.eqb i r then 1 else 0
    | _ => 0
    end + child_count r fs.
Proof. now destruct v. Qed.

Lemma subst_fields_absent (r : nat) (c : value) (fs : list (string * value)) :
  child_count r fs = 0 -> subst_fields [(r, c)] fs = fs.
Proof.
  induction fs as [|[f v] fs IH]; [reflexivity |].
  rewrite child_count_cons. intros H. apply Nat.eq_add_0 in H as [H1 H2].
  change (subst_fields [(r, c)] ((f, v) :: fs))
    with ((f, subst_value [(r, c)] v) :: subst_fields [(r, c)] fs).
  rewrite (IH H2). f_equal. f_equal.
  destruct v as [ | | | | i | items]; try reflexivity.
  - simpl. rewrite subst_item_one, is_ref_ref.
    destruct (Nat.eqb i r); [discriminate | reflexivity].
  - simpl. f_equal. apply replace_first_absent.
    now destruct (List.filter (is_ref r) items).
Qed.

(** On a field list that holds [r] at most once, [replace_child] is the
    substitution of [c] for [r]. *)
Lemma replace_in_fields_subst (r : nat) (c : value) (fs : list (string * value)) :
  child_count r fs <= 1 ->
  AstUtils.replace_in_fields r c fs = subst_fields [(r, c)] fs.
Proof.
  induction fs as [|[f v] fs IH]; [reflexivity |].
  rewrite child_count_cons. intros H.
  change (subst_fields [(r, c)] ((f, v) :: fs))
    with ((f, subst_value [(r, c)] v) :: subst_fields [(r, c)] fs).
  destruct v as [ | | | | i | items]; simpl AstUtils.replace_in_fields;
    try (rewrite IH by (simpl in H; lia); reflexivity).
  - simpl subst_value. rewrite subst_item_one, is_ref_ref.
    destruct (Nat.eqb i r).
    + now rewrite subst_fields_absent by lia.
    + now rewrite IH by lia.
  - simpl subst_value.
    destruct (List.filter (is_ref r) items) as [|y ys] eqn:E.
    + destruct (replace_first_absent r c items E) as [-> ->].
      now rewrite IH by (simpl in H; lia).
    + simpl in H. assert (ys = []) by (destruct ys; [reflexivity | simpl in H; lia]).
      subst ys. rewrite replace_first_once by (now rewrite E).
      now rewrite subst_fields_absent by lia.
Qed.

(** A second substitution after the first is one substitution, when the copy
    put in by the first is no reference the second looks for. *)
Lemma subst_item_compose (r c' : nat) (sigma : list (nat * value)) (x : value) :
  List.find (fun rc => Nat.eqb (fst rc) c') sigma = None ->
  subst_item sigma (subst_item [(r, VRef c')] x)
  = subst_item ((r, VRef c') :: sigma) x.
Proof.
  intros Hfresh. destruct x as [ | | | | i | ]; try reflexivity.
  unfold subst_item. simpl.
  destruct (Nat.eqb r i); simpl; [now rewrite Hfresh | reflexivity].
Qed.

Lemma subst_fields_compose (r c' : nat) (sigma : list (nat * value))
      (fs : list (string * value)) :
  List.find (fun rc => Nat.eqb (fst rc) c') sigma = None ->
  subst_fields sigma (subst_fields [(r, VRef c')] fs)
  = subst_fields ((r, VRef c') :: sigma) fs.
Proof.
  intros Hfresh. unfold subst_fields. rewrite map_map. apply map_ext.
  intros [f v]. simpl. f_equal.
  destruct v as [ | | | | i | items]; try reflexivity.
  - change (subst_value sigma (subst_item [(r, VRef c')] (VRef i))
            = subst_item ((r, VRef c') :: sigma) (VRef i)).
    rewrite <- (subst_item_compose r c' sigma (VRef i) Hfresh).
    rewrite subst_item_one. now destruct (is_ref r (VRef i)).
  - simpl. f_equal. rewrite map_map. apply map_ext. intros x.
    now apply subst_item_compose.
Qed.

Lemma subst_fields_nil (fs : list (string * value)) : subst_fields [] fs = fs.
Proof.
  unfold subst_fields. rewrite <- (map_id fs) at 2. apply map_ext.
  intros [f v]. simpl. f_equal. destruct v as [ | | | | i | items]; try reflexivity.
  simpl. f_equal. rewrite <- (map_id items) at 2. apply map_ext.
  now intros [ | | | | | ].
Qed.

(** The count of another reference is not raised by the substitution. *)
Lemma child_count_subst (r r' c' : nat) (fs : list (string * value)) :
  c' <> r' ->
  child_count r' (subst_fields [(r, VRef c')] fs) <= child_count r' fs.
Proof.
  intros Hc.
  induction fs as [|[f v] fs IH]; [simpl; lia |].
  change (subst_fields [(r, VRef c')] ((f, v) :: fs))
    with ((f, subst_value [(r, VRef c')] v) :: subst_fields [(r, VRef c')] fs).
  rewrite !child_count_cons.
  assert (Hitem : forall x, is_ref r' (subst_item [(r, VRef c')] x) = true ->
                            is_ref r' x = true).
  { intros x. rewrite subst_item_one. destruct (is_ref r x); [| auto].
    rewrite is_ref_ref. intros E. apply Nat.eqb_eq in E. contradiction. }
  apply Nat.add_le_mono; [| exact IH].
  destruct v as [ | | | | i | items]; try (simpl; lia).
  - change (subst_value [(r, VRef c')] (VRef i))
      with (subst_item [(r, VRef c')] (VRef i)).
    rewrite subst_item_one, is_ref_ref.
    destruct (Nat.eqb i r) eqn:E.
    + destruct (Nat.eqb c' r') eqn:E'; [| lia].
      apply Nat.eqb_eq in E'. contradiction.
    + lia.
  - simpl. induction items as [|x items IHi]; simpl; [lia |].
    destruct (is_ref r' (subst_item [(r, VRef c')] x)) eqn:E.
    + rewrite (Hitem _ E). simpl. lia.
    + destruct (is_ref r' x); simpl; lia.
Qed.

(** *** Twins: the store after [deepcopy] *)

Lemma refs_geb_shift (m : nat) (v : value) : refs_geb m (Inline.shift m v) = true.
Proof.
  revert v. fix IH 1. intros [ | | | | i | items]; simpl; try reflexivity.
  - apply Nat.leb_le. lia.
  - induction items as [|x items IHi]; simpl; [reflexivity |].
    now rewrite IH, IHi.
Qed.

Lemma refs_ltb_shift (m : nat) (v : value) :
  refs_ltb m v = true -> refs_ltb (m + m) (Inline.shift m v) = true.
Proof.
  revert v. fix IH 1. intros [ | | | | i | items]; simpl; try reflexivity.
  - rewrite !Nat.ltb_lt. lia.
  - induction items as [|x items IHi]; simpl; [reflexivity |].
    rewrite !andb_true_iff. intros [Hx Hi]. split; [now apply IH | now apply IHi].
Qed.

Lemma refs_geb_mono (m m' : nat) (v : value) :
  m' <= m -> refs_geb m v = true -> refs_geb m' v = true.
Proof.
  intros Hle. revert v. fix IH 1. intros [ | | | | i | items]; simpl; try reflexivity.
  - rewrite !Nat.leb_le. lia.
  - induction items as [|x items IHi]; simpl; [reflexivity |].
    rewrite !andb_true_iff. intros [Hx Hi]. split; [now apply IH | now apply IHi].
Qed.

Lemma refs_ltb_mono (m m' : nat) (v : value) :
  m <= m' -> refs_ltb m v = true -> refs_ltb m' v = true.
Proof.
  intros Hle. revert v. fix IH 1. intros [ | | | | i | items]; simpl; try reflexivity.
  - rewrite !Nat.ltb_lt. lia.
  - induction items as [|x items IHi]; simpl; [reflexivity |].
    rewrite !andb_true_iff. intros [Hx Hi]. split; [now apply IH | now apply IHi].
Qed.

Lemma obj_all_impl (P Q : value -> bool) (o : obj) :
  (forall v, P v = true -> Q v = true) ->
  obj_all P o = true -> obj_all Q o = true.
Proof.
  intros HPQ. unfold obj_all. rewrite !andb_true_iff. intros [Hf Hp]. split.
  - rewrite forallb_forall in *. auto.
  - destruct (pasta o); [| reflexivity]. rewrite forallb_forall in *. auto.
Qed.

Lemma obj_all_shift (P Q : value -> bool) (m : nat) (o : obj) :
  (forall v, P v = true -> Q (Inline.shift m v) = true) ->
  obj_all P o = true -> obj_all Q (Inline.shift_obj m o) = true.
Proof.
  intros HPQ. unfold obj_all, Inline.shift_obj. simpl.
  rewrite !andb_true_iff. intros [Hf Hp]. split.
  - rewrite forallb_forall in *. intros x Hx.
    apply in_map_iff in Hx as (fv & <- & Hfv). simpl. auto.
  - destruct (pasta o) as [d|]; [| reflexivity]. simpl.
    rewrite forallb_forall in *. intros x Hx.
    apply in_map_iff in Hx as (kv & <- & Hkv). simpl. auto.
Qed.

Lemma lookup_twins (h : list obj) (i : nat) :
  (h ++ map (Inline.shift_obj (length h)) h) !! (i + length h)
  = Inline.shift_obj (length h) <$> h !! i.
Proof.
  rewrite lookup_app_r by lia.
  replace (i + length h - length h) with i by lia.
  change (map (Inline.shift_obj (length h)) h)
    with (Inline.shift_obj (length h) <$> h).
  apply list_lookup_fmap.
Qed.

(** The twin of a value has the tree of the value. *)
Lemma reify_twins (h : list obj) (fuel : nat) :
  forall v,
    reify fuel (h ++ map (Inline.shift_obj (length h)) h)
          (Inline.shift (length h) v)
    = reify fuel h v.
Proof.
  induction fuel as [|fuel IH]; intros v; [reflexivity |].
  destruct v as [ | | | | i | items]; simpl; try reflexivity.
  - rewrite lookup_twins. destruct (h !! i) as [o|]; simpl; [| reflexivity].
    f_equal.
    + rewrite map_map. apply map_ext. intros [f v]. simpl. now rewrite IH.
    + destruct (pasta o) as [d|]; simpl; [| reflexivity]. f_equal.
      rewrite map_map. apply map_ext. intros [k v]. simpl. now rewrite IH.
  - f_equal. rewrite map_map. apply map_ext. exact IH.
Qed.

Lemma closed_lookup (h : list obj) (i : nat) (o : obj) :
  closed h = true -> h !! i = Some o ->
  obj_all (refs_ltb (length h)) o = true.
Proof.
  unfold closed. rewrite forallb_forall. intros H Hi. apply H.
  apply list_elem_of_In. eapply list_elem_of_lookup_2. exact Hi.
Qed.

(** A value whose references all lie in the upper part has the same tree in
    two stores that agree on the upper part. *)
Lemma reify_stable (n : nat) (h1 h2 : list obj) :
  (forall j, n <= j -> j < length h1 -> h2 !! j = h1 !! j) ->
  closed h1 = true -> upper n h1 ->
  forall fuel v,
    refs_geb n v = true -> refs_ltb (length h1) v = true ->
    reify fuel h2 v = reify fuel h1 v.
Proof.
  intros Hagree Hclosed Hupper.
  induction fuel as [|fuel IH]; intros v Hge Hlt; [reflexivity |].
  destruct v as [ | | | | i | items]; simpl in *; try reflexivity.
  - apply Nat.leb_le in Hge. apply Nat.ltb_lt in Hlt.
    rewrite (Hagree i Hge Hlt).
    destruct (h1 !! i) as [o|] eqn:Hi; [| reflexivity].
    pose proof (Hupper i o Hge Hi) as Hu.
    pose proof (closed_lookup h1 i o Hclosed Hi) as Hc.
    unfold obj_all in Hu, Hc. apply andb_true_iff in Hu as [Huf Hup].
    apply andb_true_iff in Hc as [Hcf Hcp]. f_equal.
    + apply map_ext_in. intros [f v] Hin. simpl. f_equal.
      rewrite forallb_forall in Huf, Hcf.
      apply IH; [apply (Huf _ Hin) | apply (Hcf _ Hin)].
    + destruct (pasta o) as [d|]; [| reflexivity]. simpl. f_equal.
      apply map_ext_in. intros [k v] Hin. simpl. f_equal.
      rewrite forallb_forall in Hup, Hcp.
      apply IH; [apply (Hup _ Hin) | apply (Hcp _ Hin)].
  - f_equal. apply map_ext_in. intros x Hin.
    rewrite forallb_forall in Hge, Hlt. apply IH; auto.
Qed.

Lemma closed_twins (h : list obj) :
  closed h = true -> closed (h ++ map (Inline.shift_obj (length h)) h) = true.
Proof.
  unfold closed. rewrite length_app, length_map. intros H.
  rewrite forallb_app. rewrite forallb_forall in H. apply andb_true_iff. split.
  - apply forallb_forall. intros o Ho.
    apply (obj_all_impl (refs_ltb (length h))); [| auto].
    intros v. apply refs_ltb_mono. lia.
  - apply forallb_forall. intros x Hx. apply in_map_iff in Hx as (o & <- & Ho).
    apply (obj_all_shift (refs_ltb (length h))); [| auto].
    intros v. apply refs_ltb_shift.
Qed.

Lemma refs_ltb_replace_first (m old : nat) (new : value) (items items' : list value) :
  refs_ltb m new = true -> forallb (refs_ltb m) items = true ->
  AstUtils.replace_first old new items = Some items' ->
  forallb (refs_ltb m) items' = true.
Proof.
  intros Hnew. revert items'.
  induction items as [|x items IH]; intros items'; simpl; [discriminate |].
  rewrite andb_true_iff. intros [Hx Hi].
  destruct (value_eqb x (VRef old)).
  - intros [= <-]. simpl. now rewrite Hnew, Hi.
  - destruct (AstUtils.replace_first old new items) as [l|]; [| discriminate].
    intros [= <-]. simpl. rewrite Hx. simpl. now apply IH.
Qed.

Lemma refs_ltb_replace_in_fields (m old : nat) (new : value)
      (fs : list (string * value)) :
  refs_ltb m new = true ->
  forallb (fun fv => refs_ltb m (snd fv)) fs = true ->
  forallb (fun fv => refs_ltb m (snd fv))
          (AstUtils.replace_in_fields old new fs) = true.
Proof.
  intros Hnew. induction fs as [|[f v] fs IH]; simpl; [reflexivity |].
  rewrite andb_true_iff. intros [Hv Hfs].
  destruct v as [ | | | | i | items]; simpl;
    try (rewrite IH by exact Hfs; reflexivity).
  - destruct (Nat.eqb i old); simpl.
    + now rewrite Hnew, Hfs.
    + rewrite IH by exact Hfs. simpl in Hv. rewrite Hv. reflexivity.
  - destruct (AstUtils.replace_first old new items) as [l|] eqn:E; simpl.
    + rewrite (refs_ltb_replace_first m old new items l Hnew Hv E). exact Hfs.
    + rewrite IH by exact Hfs. simpl in Hv. now rewrite Hv.
Qed.

Lemma closed_insert (h : list obj) (i : nat) (o : obj) :
  closed h = true -> obj_all (refs_ltb (length h)) o = true ->
  closed (<[i := o]> h) = true.
Proof.
  unfold closed. rewrite length_insert, !forallb_forall. intros H Ho x Hx.
  apply list_elem_of_In in Hx. apply list_elem_of_lookup in Hx as [k Hk].
  destruct (decide (i = k)) as [-> | Hne].
  - destruct (decide (k < length h)) as [Hlt | Hge].
    + rewrite list_lookup_insert_eq in Hk by exact Hlt. now injection Hk as <-.
    + rewrite list_insert_ge in Hk by lia. apply H.
      apply list_elem_of_In. eapply list_elem_of_lookup_2. exact Hk.
  - rewrite list_lookup_insert_ne in Hk by exact Hne. apply H.
    apply list_elem_of_In. eapply list_elem_of_lookup_2. exact Hk.
Qed.

Lemma closed_replace_child (parent : option nat) (node : nat) (new : value)
      (h : list obj) :
  closed h = true -> refs_ltb (length h) new = true ->
  closed (AstUtils.replace_child parent node new h) = true.
Proof.
  intros Hc Hnew. unfold AstUtils.replace_child.
  destruct parent as [p|]; [| exact Hc].
  destruct (h !! p) as [o|] eqn:Hp; [| exact Hc].
  apply closed_insert; [exact Hc |].
  pose proof (closed_lookup h p o Hc Hp) as Ho. unfold obj_all in *. simpl.
  apply andb_true_iff in Ho as [Hf Hpa]. rewrite Hpa, andb_true_r.
  now apply refs_ltb_replace_in_fields.
Qed.

(** *** The loop over the references *)

Lemma replace_reads_rewritten (sc : Scope.scope) (j : nat) (refs : list nat) :
  forall hc,
    Inline.replace_reads sc (VRef j) refs hc = (Ret tt, rewritten sc j hc refs).
Proof.
  induction refs as [|r refs IH]; intros hc; [reflexivity |].
  unfold Inline.replace_reads in *. simpl. unfold bind at 1. unfold bind at 1.
  simpl. unfold modify. apply IH.
Qed.

Lemma set_fields_same (o : obj) : AstUtils.set_fields (fields o) o = o.
Proof. now destruct o. Qed.

Lemma find_under_fresh (sc : Scope.scope) (i c' : nat) (sigma : list (nat * value)) :
  (forall rc, In rc sigma -> fst rc < c') ->
  List.find (fun rc => Nat.eqb (fst rc) c') (under sc i sigma) = None.
Proof.
  intros H.
  destruct (List.find _ (under sc i sigma)) as [rc|] eqn:E; [| reflexivity].
  apply find_some in E as [Hin Heq]. unfold under in Hin.
  apply filter_In in Hin as [Hin _]. apply Nat.eqb_eq in Heq.
  specialize (H rc Hin). lia.
Qed.

Lemma in_combine_fst {A B} (l : list A) (l' : list B) (x : A * B) :
  In x (combine l l') -> In (fst x) l.
Proof. destruct x. apply in_combine_l. Qed.

Section Loop.
Variable sc : Scope.scope.
Variable n j : nat.
Hypothesis j_lt_n : j < n.

Lemma step_length (hc : list obj) (r : nat) :
  length (step sc j hc r) = length hc + length hc.
Proof.
  unfold step, AstUtils.replace_child.
  destruct (Scope.parent sc r) as [p|];
    [destruct (_ !! p) |]; rewrite ?length_insert, length_app, length_map;
    reflexivity.
Qed.

(** A turn leaves the cells from [n] on as the twinning made them. *)
Lemma step_upper_cells (hc : list obj) (r : nat) (k : nat) :
  match Scope.parent sc r with Some p => p < n | None => True end ->
  n <= k ->
  step sc j hc r !! k = (hc ++ map (Inline.shift_obj (length hc)) hc) !! k.
Proof.
  intros Hp Hk. unfold step, AstUtils.replace_child.
  destruct (Scope.parent sc r) as [p|]; [| reflexivity].
  destruct (_ !! p); [| reflexivity].
  apply list_lookup_insert_ne. lia.
Qed.

(** A turn on the cells below [n]. *)
Lemma step_lower_cell (hc : list obj) (r i : nat) (o : obj) :
  ready sc n hc [r] -> hc !! i = Some o ->
  step sc j hc r !! i
  = Some (AstUtils.set_fields
            (subst_fields (under sc i [(r, VRef (j + length hc))]) (fields o))
            o).
Proof.
  intros (_ & Hn & _ & Hr) Hi.
  destruct (Hr r (or_introl eq_refl)) as [Hrn Hp].
  assert (Hi' : (hc ++ map (Inline.shift_obj (length hc)) hc) !! i = Some o)
    by now apply lookup_app_l_Some.
  unfold step, AstUtils.replace_child, under. simpl.
  destruct (Scope.parent sc r) as [p|];
    [| rewrite subst_fields_nil, set_fields_same; exact Hi'].
  destruct Hp as [Hpn Hcount].
  destruct (Nat.eqb p i) eqn:E.
  - apply Nat.eqb_eq in E. subst p. rewrite Hi'.
    rewrite list_lookup_insert_eq
      by (rewrite length_app; apply lookup_lt_Some in Hi; lia).
    rewrite replace_in_fields_subst by (now apply Hcount). reflexivity.
  - apply Nat.eqb_neq in E. rewrite subst_fields_nil, set_fields_same.
    destruct ((hc ++ map (Inline.shift_obj (length hc)) hc) !! p);
      [| exact Hi'].
    rewrite list_lookup_insert_ne by exact E. exact Hi'.
Qed.

Lemma twins_upper (hc : list obj) :
  upper n hc -> n <= length hc ->
  upper n (hc ++ map (Inline.shift_obj (length hc)) hc).
Proof.
  intros Hu Hn k o Hk Ho.
  destruct (decide (k < length hc)) as [Hlt | Hge].
  - rewrite lookup_app_l in Ho by exact Hlt. eapply Hu; eassumption.
  - replace k with (k - length hc + length hc) in Ho by lia.
    rewrite lookup_twins in Ho.
    destruct (hc !! (k - length hc)) as [o0|]; [| discriminate].
    injection Ho as <-.
    apply (obj_all_shift (fun _ => true)).
    + intros v _. apply (refs_geb_mono (length hc)); [exact Hn |].
      apply refs_geb_shift.
    + unfold obj_all. rewrite andb_true_iff. split.
      * apply forallb_forall. auto.
      * destruct (pasta o0); [apply forallb_forall; auto | reflexivity].
Qed.

Lemma twins_upper_new (hc : list obj) (k : nat) (o : obj) :
  length hc <= k ->
  (hc ++ map (Inline.shift_obj (length hc)) hc) !! k = Some o ->
  obj_all (refs_geb (length hc)) o = true.
Proof.
  intros Hk Ho.
  replace k with (k - length hc + length hc) in Ho by lia.
  rewrite lookup_twins in Ho.
  destruct (hc !! (k - length hc)) as [o0|]; [| discriminate].
  injection Ho as <-.
  apply (obj_all_shift (fun _ => true)).
  - intros v _. apply refs_geb_shift.
  - unfold obj_all. rewrite andb_true_iff. split.
    + apply forallb_forall. auto.
    + destruct (pasta o0); [apply forallb_forall; auto | reflexivity].
Qed.

(** A turn hands a ready store to the next turn. *)
Lemma step_ready (hc : list obj) (r : nat) (rest : list nat) :
  ready sc n hc (r :: rest) -> ~ In r rest -> ready sc n (step sc j hc r) rest.
Proof.
  intros (Hc & Hn & Hu & Hr) Hnotin.
  destruct (Hr r (or_introl eq_refl)) as [Hrn Hp].
  assert (Hpn : match Scope.parent sc r with Some p => p < n | None => True end)
    by (destruct (Scope.parent sc r); tauto).
  split; [| split; [| split]].
  - unfold step. apply closed_replace_child; [now apply closed_twins |].
    rewrite length_app, length_map. simpl. apply Nat.ltb_lt. lia.
  - rewrite step_length. lia.
  - intros k o Hk Ho. rewrite step_upper_cells in Ho by assumption.
    eapply twins_upper; eassumption.
  - intros r' Hr'. destruct (Hr r' (or_intror Hr')) as [Hr'n Hp'].
    split; [exact Hr'n |].
    destruct (Scope.parent sc r') as [p'|]; [| exact I].
    destruct Hp' as [Hp'n Hcount]. split; [exact Hp'n |].
    intros o' Ho'.
    assert (Hlt : p' < length hc) by lia.
    destruct (lookup_lt_is_Some_2 hc p' Hlt) as [o Ho].
    rewrite (step_lower_cell hc r p' o) in Ho'.
    + injection Ho' as <-. simpl. unfold under. simpl.
      destruct (match Scope.parent sc r with
                | Some p => Nat.eqb p p'
                | None => false
                end).
      * etransitivity; [apply child_count_subst; lia | now apply Hcount].
      * rewrite subst_fields_nil. now apply Hcount.
    + refine (conj Hc (conj Hn (conj Hu _))).
      intros rr [<- | []]. split; [exact Hrn | exact Hp].
    + exact Ho.
Qed.

(** All the turns.  The store stays closed and only grows; the cells from
    [n] on that were there are left alone; every cell that was there has
    its fields with every reference whose parent it is replaced by the copy
    made for that reference; and each copy has the tree the value had when
    the copy was made, in cells that did not exist before. *)
Lemma rewritten_facts (refs : list nat) :
  forall hc,
    ready sc n hc refs -> List.NoDup refs ->
    let h1 := rewritten sc j hc refs in
    closed h1 = true
    /\ length hc <= length h1
    /\ upper n h1
    /\ upper (length hc) h1
    /\ (forall k, n <= k -> k < length hc -> h1 !! k = hc !! k)
    /\ (forall i o,
           hc !! i = Some o ->
           h1 !! i
           = Some (AstUtils.set_fields
                     (subst_fields
                        (under sc i (combine refs (copies sc j hc refs)))
                        (fields o))
                     o))
    /\ (forall k r,
           refs !! k = Some r ->
           let hk := rewritten sc j hc (take k refs) in
           copies sc j hc refs !! k = Some (VRef (j + length hk))
           /\ j + length hk < length h1
           /\ (forall fuel, reify fuel h1 (VRef (j + length hk))
                            = reify fuel hk (VRef j))
           /\ upper (length hk) h1).
Proof.
  induction refs as [|r rest IH]; intros hc Hready Hnd; cbv zeta.
  - destruct Hready as (Hc & Hn & Hu & _). simpl.
    split; [exact Hc |]. split; [lia |]. split; [exact Hu |].
    split; [| split; [| split]].
    + intros k o Hk Ho. apply lookup_lt_Some in Ho. lia.
    + reflexivity.
    + intros i o Ho. unfold under. simpl.
      now rewrite subst_fields_nil, set_fields_same.
    + intros k r Hk. rewrite lookup_nil in Hk. discriminate.
  - inversion Hnd as [|? ? Hnotin Hnd']; subst.
    pose proof (step_ready hc r rest Hready Hnotin) as Hready'.
    destruct Hready as (Hc & Hn & Hu & Hr).
    destruct (Hr r (or_introl eq_refl)) as [Hrn Hp].
    assert (Hpn : match Scope.parent sc r with Some p => p < n | None => True end)
      by (destruct (Scope.parent sc r); tauto).
    set (hs := step sc j hc r) in *.
    set (tw := hc ++ map (Inline.shift_obj (length hc)) hc).
    assert (Hlen : length hs = length hc + length hc) by apply step_length.
    assert (Htwlen : length tw = length hc + length hc)
      by (unfold tw; now rewrite length_app, length_map).
    destruct (IH hs Hready' Hnd')
      as (Hc1 & Hlen1 & Hu1 & Hus1 & Hagree1 & Hlow1 & Hcopies1).
    change (rewritten sc j hc (r :: rest)) with (rewritten sc j hs rest).
    set (h1 := rewritten sc j hs rest) in *.
    assert (Hagree_tw : forall k, n <= k -> k < length tw -> h1 !! k = tw !! k).
    { intros k Hk Hlt. rewrite Hagree1 by lia.
      now apply step_upper_cells. }
    assert (Hupper_hc : upper (length hc) h1).
    { intros k o Hk Ho. destruct (decide (k < length hs)) as [Hlt | Hge].
      - rewrite Hagree_tw in Ho by lia. eapply twins_upper_new; eassumption.
      - apply (obj_all_impl (refs_geb (length hs))).
        + intros v. apply refs_geb_mono. lia.
        + apply (Hus1 k o); [lia | exact Ho]. }
    split; [exact Hc1 |]. split; [lia |]. split; [exact Hu1 |].
    split; [exact Hupper_hc |]. split; [| split].
    + intros k Hk Hlt. rewrite Hagree_tw by lia. unfold tw.
      now rewrite lookup_app_l.
    + intros i o Ho.
      assert (Hs : hs !! i
                   = Some (AstUtils.set_fields
                             (subst_fields
                                (under sc i [(r, VRef (j + length hc))])
                                (fields o)) o)).
      { apply step_lower_cell; [| exact Ho].
        refine (conj Hc (conj Hn (conj Hu _))).
        intros rr [<- | []]. split; [exact Hrn | exact Hp]. }
      rewrite (Hlow1 _ _ Hs). f_equal. simpl.
      unfold under at 2 3. simpl.
      fold (under sc i (combine rest (copies sc j hs rest))).
      destruct (match Scope.parent sc r with
                | Some p => Nat.eqb p i
                | None => false
                end).
      * rewrite subst_fields_compose; [reflexivity |].
        apply find_under_fresh. intros rc Hin.
        apply in_combine_fst in Hin.
        destruct (Hr (fst rc) (or_intror Hin)) as [Hlt _]. lia.
      * now rewrite subst_fields_nil.
    + intros [|k] r' Hk; simpl in Hk; cbv zeta.
      * injection Hk as <-. simpl. split; [reflexivity |].
        split; [lia |]. split; [| exact Hupper_hc].
        intros fuel.
        rewrite (reify_stable n tw h1 Hagree_tw); cycle 1.
        { now apply closed_twins. }
        { now apply twins_upper. }
        { simpl. apply Nat.leb_le. lia. }
        { simpl. apply Nat.ltb_lt. lia. }
        change (VRef (j + length hc)) with (Inline.shift (length hc) (VRef j)).
        apply reify_twins.
      * simpl. exact (Hcopies1 k r' Hk).
Qed.
End Loop.

(** *** The assignment *)

Lemma filter_targets_filter (h : list obj) (name : string) (tgts kept : list value) :
  Inline.filter_targets h name tgts = Ret kept ->
  kept = List.filter (fun tgt => negb (is_named h name tgt)) tgts.
Proof.
  revert kept. induction tgts as [|tgt tgts IH]; intros kept; simpl.
  - now intros [= <-].
  - destruct (Inline.filter_targets h name tgts) as [l|e].
    + specialize (IH l eq_refl). subst l.
      destruct tgt as [ | | | | i | ]; simpl; try (now intros [= <-]).
      unfold isinstance. destruct (h !! i) as [o|]; simpl;
        [| now intros [= <-]].
      destruct (String.eqb (cls o) "Name"); simpl; [| now intros [= <-]].
      unfold getattr_or_none.
      destruct (assoc "id" (fields o)) as [v|]; [| discriminate].
      intros [= <-]. now destruct (value_eqb v (VStr name)).
    + destruct tgt as [ | | | | i | ]; try discriminate.
      destruct (isinstance h i "Name"); [| discriminate].
      destruct (h !! i ≫= _); discriminate.
Qed.

(** [list.remove] takes out the first item that is the child, and nothing
    else. *)
Lemma remove_first_split (child : nat) (items items' : list value) :
  AstUtils.remove_first child items = Some items' ->
  exists before after,
    items = before ++ VRef child :: after
    /\ items' = before ++ after
    /\ ~ In (VRef child) before.
Proof.
  revert items'. induction items as [|x items IH]; intros items'; simpl;
    [discriminate |].
  destruct (value_eqb x (VRef child)) eqn:E.
  - apply value_eqb_ref in E. subst x. intros [= <-].
    exists [], items. simpl. tauto.
  - destruct (AstUtils.remove_first child items) as [l|]; [| discriminate].
    intros [= <-]. destruct (IH l eq_refl) as (b & a & -> & -> & Hnot).
    exists (x :: b), a. repeat split. intros [-> | Hin]; [| contradiction].
    now rewrite value_eqb_refl in E.
Qed.

Lemma remove_assignment_result (sc : Scope.scope) (name : string) (a : nat)
      (h1 h' : list obj) :
  Inline.remove_assignment sc name a h1 = (Ret tt, h') ->
  exists o tgts,
    h1 !! a = Some o
    /\ assoc "targets" (fields o) = Some (VList tgts)
    /\ if Nat.eqb (length tgts) 1
       then h' = AstUtils.remove_child (Scope.parent sc a) a h1
       else h' = <[a := AstUtils.set_fields
                          (assoc_set "targets"
                             (VList (List.filter
                                       (fun tgt => negb (is_named h1 name tgt))
                                       tgts))
                             (fields o)) o]> h1.
Proof.
  unfold Inline.remove_assignment, bind, Inline.getattr.
  destruct (h1 !! a) as [o|] eqn:Ho; simpl; [| discriminate].
  destruct (assoc "targets" (fields o)) as [[ | | | | | tgts]|] eqn:Et;
    try discriminate.
  intros H. exists o, tgts. split; [reflexivity |]. split; [exact Et |].
  destruct (Nat.eqb (length tgts) 1).
  - unfold modify in H. now injection H as <-.
  - destruct (Inline.filter_targets h1 name tgts) as [kept|e] eqn:Hf;
      [| discriminate].
    apply filter_targets_filter in Hf. subst kept.
    unfold modify in H. rewrite Ho in H. now injection H as <-.
Qed.

Lemma remove_assignment_cells (sc : Scope.scope) (name : string) (a : nat)
      (h h1 h' : list obj) :
  Inline.remove_assignment sc name a h1 = (Ret tt, h') ->
  a < length h ->
  match Scope.parent sc a with Some p => p < length h | None => True end ->
  length h' = length h1
  /\ forall k, length h <= k -> h' !! k = h1 !! k.
Proof.
  intros Hrun Ha Hp.
  destruct (remove_assignment_result _ _ _ _ _ Hrun) as (o & tgts & Ho & _ & H).
  destruct (Nat.eqb (length tgts) 1); subst h'.
  - unfold AstUtils.remove_child. destruct (Scope.parent sc a) as [p|]; [| auto].
    destruct (h1 !! p); [| auto]. split; [apply length_insert |].
    intros k Hk. apply list_lookup_insert_ne. lia.
  - split; [apply length_insert |].
    intros k Hk. apply list_lookup_insert_ne. lia.
Qed.

Lemma copies_length (sc : Scope.scope) (j : nat) (refs : list nat) :
  forall hc, length (copies sc j hc refs) = length refs.
Proof. induction refs as [|r refs IH]; intros hc; simpl; [| rewrite IH]; reflexivity. Qed.

Lemma fits_ready (h : list obj) (sc : Scope.scope) (refs : list nat) :
  closed h = true -> fits h sc refs = true ->
  ready sc (length h) h refs /\ List.NoDup refs.
Proof.
  intros Hc Hf. unfold fits in Hf. apply andb_true_iff in Hf as [Hnd Hall].
  apply bool_decide_eq_true in Hnd. split; [| now apply NoDup_ListNoDup].
  refine (conj Hc (conj (le_n _) (conj _ _))).
  - intros k o Hk Ho. apply lookup_lt_Some in Ho. lia.
  - intros r Hr. rewrite forallb_forall in Hall. specialize (Hall r Hr).
    apply andb_true_iff in Hall as [Hlt Hp]. apply Nat.ltb_lt in Hlt.
    split; [exact Hlt |].
    destruct (Scope.parent sc r) as [p|]; [| exact I].
    destruct (h !! p) as [o|] eqn:Ho; [| discriminate].
    split; [eapply lookup_lt_Some; eassumption |].
    intros o' [= <-]. now apply Nat.leb_le.
Qed.

Lemma assign_value_node (h : list obj) (a : nat) :
  values_are_nodes h = true -> closed h = true ->
  isinstance h a "Assign" = true ->
  exists j, Inline.getattr a "value" h = (Ret (VRef j), h) /\ j < length h.
Proof.
  intros Hv Hc Ha. unfold isinstance in Ha. unfold Inline.getattr.
  destruct (h !! a) as [o|] eqn:Ho; [| discriminate]. simpl.
  unfold values_are_nodes in Hv. rewrite forallb_forall in Hv.
  assert (Hin : In o h)
    by (apply list_elem_of_In; eapply list_elem_of_lookup_2; exact Ho).
  specialize (Hv o Hin). rewrite Ha in Hv.
  destruct (assoc "value" (fields o)) as [[ | | | | j | ]|] eqn:Ev;
    try discriminate.
  exists j. split; [reflexivity |].
  pose proof (closed_lookup h a o Hc Ho) as Hall. unfold obj_all in Hall.
  apply andb_true_iff in Hall as [Hf _]. rewrite forallb_forall in Hf.
  specialize (Hf _ (assoc_In _ _ _ Ev)). simpl in Hf. now apply Nat.ltb_lt.
Qed.

Lemma rewritten_length (sc : Scope.scope) (j : nat) (refs : list nat) :
  forall hc, length hc <= length (rewritten sc j hc refs).
Proof.
  induction refs as [|r refs IH]; intros hc; simpl; [lia |].
  etransitivity; [| apply IH]. rewrite step_length. lia.
Qed.

(** C6: after a successful [inline_name], on a closed store whose
    assignments have nodes for values and whose table fits the tree.  Every
    object that was there has its fields as before, except that each
    reference to the name, under its parent, has given way to the copy made
    for it.  Each copy is a node that did not exist when it was made, refers
    only to such nodes, and has the tree the value had at that moment.  The
    assignment is taken out of its parent when it has one target; otherwise
    its targets are the former ones without those that are the name.  And
    [y] inlined in [x = y = z = 1; a = x + y] gives [x = z = 1; a = x + 1]. *)
Theorem inline_name_rewrites :
  (forall (analyze : nat -> heap -> Scope.scope) (astlib : string)
          (t : nat) (name : string) (h h' : heap) (entry : Scope.name_entry),
      Scope.names (analyze t h) !! name = Some entry ->
      closed h = true ->
      values_are_nodes h = true ->
      fits h (analyze t h) (Scope.reads entry) = true ->
      Inline.inline_name analyze astlib t name h = (Ret tt, h') ->
      let sc := analyze t h in
      let refs := Scope.reads entry in
      exists (d a j : nat) (h1 : heap) (cs : list value),
        Scope.definition entry = Some d
        /\ Scope.parent sc d = Some a
        /\ Inline.getattr a "value" h = (Ret (VRef j), h)
        /\ Inline.replace_reads sc (VRef j) refs h = (Ret tt, h1)
        /\ length cs = length refs
        /\ (forall i o,
               h !! i = Some o ->
               h1 !! i
               = Some (AstUtils.set_fields
                         (subst_fields (under sc i (combine refs cs)) (fields o))
                         o))
        /\ (forall k r,
               refs !! k = Some r ->
               let hk := snd (Inline.replace_reads sc (VRef j) (take k refs) h) in
               exists c,
                 cs !! k = Some (VRef c)
                 /\ length hk <= c
                 /\ (forall fuel, reify fuel h' (VRef c) = reify fuel hk (VRef j))
                 /\ upper (length hk) h')
        /\ exists o tgts,
            h1 !! a = Some o
            /\ assoc "targets" (fields o) = Some (VList tgts)
            /\ if Nat.eqb (length tgts) 1
               then h' = AstUtils.remove_child (Scope.parent sc a) a h1
               else h' = <[a := AstUtils.set_fields
                                  (assoc_set "targets"
                                     (VList (List.filter
                                               (fun tgt =>
                                                  negb (is_named h1 name tgt))
                                               tgts))
                                     (fields o)) o]> h1)
  /\ (let run := Inline.inline_name (fun _ _ => Examples.chained_scope) "ast"
                                    0 "y" Examples.chained_tree in
      fst run = Ret tt
      /\ reify 8 (snd run) (VRef 0) = reify 8 Examples.chained_expected (VRef 0)).
Proof.
  split; [| split; reflexivity].
  intros analyze astlib t name h h' entry Hname Hc Hv Hfit Hrun. cbv zeta.
  unfold Inline.inline_name, bind at 1, get in Hrun. rewrite Hname in Hrun.
  set (sc := analyze t h) in *. set (refs := Scope.reads entry) in *.
  destruct (Scope.definition entry) as [d|]; [| discriminate].
  simpl in Hrun.
  destruct (negb (isinstance h d "Name")); [discriminate |].
  destruct (Scope.parent sc d) as [a|] eqn:Hpa; [| discriminate].
  simpl in Hrun.
  destruct (negb (isinstance h a "Assign")) eqn:Ha; [discriminate |].
  apply negb_false_iff in Ha.
  destruct (assign_value_node h a Hv Hc Ha) as (j & Hval & Hj).
  unfold bind at 1 in Hrun. rewrite Hval in Hrun.
  destruct (negb (Inline.opt_isinstance h (Scope.parent sc a) "Module")) eqn:Hm;
    [discriminate |].
  apply negb_false_iff in Hm.
  unfold bind at 1 in Hrun. rewrite check_reads_outcome in Hrun.
  destruct (existsb (Inline.is_store h) refs); [discriminate |].
  unfold bind at 1 in Hrun. rewrite replace_reads_rewritten in Hrun.
  set (h1 := rewritten sc j h refs) in *.
  assert (Halt : a < length h).
  { unfold isinstance in Ha. destruct (h !! a) eqn:E; [| discriminate].
    eapply lookup_lt_Some. exact E. }
  assert (Hplt : match Scope.parent sc a with
                 | Some p => p < length h
                 | None => True
                 end).
  { destruct (Scope.parent sc a) as [p|]; [| exact I]. simpl in Hm.
    unfold isinstance in Hm. destruct (h !! p) eqn:E; [| discriminate].
    eapply lookup_lt_Some. exact E. }
  destruct (remove_assignment_cells sc name a h h1 h' Hrun Halt Hplt)
    as [Hlen' Hcells'].
  destruct (fits_ready h sc refs Hc Hfit) as [Hready Hnd].
  destruct (rewritten_facts sc (length h) j Hj refs h Hready Hnd)
    as (Hc1 & Hlen1 & Hu1 & _ & _ & Hlow & Hcopies).
  fold h1 in Hc1, Hlen1, Hu1, Hlow, Hcopies.
  exists d, a, j, h1, (copies sc j h refs).
  split; [reflexivity |]. split; [exact Hpa |]. split; [exact Hval |].
  split; [apply replace_reads_rewritten |].
  split; [apply copies_length |]. split; [exact Hlow |].
  split; [| now apply remove_assignment_result].
  intros k r Hk. cbv zeta. rewrite replace_reads_rewritten. simpl.
  destruct (Hcopies k r Hk) as (Hck & Hlt & Hreify & Hupper).
  set (hk := rewritten sc j h (take k refs)) in *.
  assert (Hhk : length h <= length hk) by apply rewritten_length.
  exists (j + length hk). split; [exact Hck |]. split; [lia |]. split.
  - intros fuel. rewrite <- Hreify.
    apply (reify_stable (length h) h1 h'); try assumption.
    + intros i Hi _. apply Hcells'. exact Hi.
    + simpl. apply Nat.leb_le. lia.
    + simpl. apply Nat.ltb_lt. exact Hlt.
  - intros i o Hi Ho. rewrite Hcells' in Ho by lia. eapply Hupper; eassumption.
Qed.

(** C6: the theorem at [y] in [x = y = z = 1; a = x + y]. *)
Lemma inline_name_rewrites_witness :
  exists (h1 : heap) (c : nat),
    Inline.replace_reads Examples.chained_scope (VRef 5) [11]
                         Examples.chained_tree
    = (Ret tt, h1)
    /\ length Examples.chained_tree <= c
    /\ (h1 !! 8 ≫= fun o => assoc "right" (fields o)) = Some (VRef c)
    /\ forall fuel,
        reify fuel
              (snd (Inline.inline_name (fun _ _ => Examples.chained_scope) "ast"
                                       0 "y" Examples.chained_tree))
              (VRef c)
        = reify fuel Examples.chained_tree (VRef 5).
Proof.
  destruct inline_name_rewrites as [H _].
  destruct (H (fun _ _ => Examples.chained_scope) "ast" 0 "y"
              Examples.chained_tree
              (snd (Inline.inline_name (fun _ _ => Examples.chained_scope) "ast"
                                       0 "y" Examples.chained_tree))
              (Scope.NameEntry (Some 3) [11])
              eq_refl eq_refl eq_refl eq_refl eq_refl)
    as (d & a & j & h1 & cs & Hd & Ha & Hv & Hr & Hlen & Hlow & Hcopy & _).
  injection Hd as <-. injection Ha as <-. injection Hv as <-.
  destruct (Hcopy 0 11 eq_refl) as (c & Hc & Hfresh & Hreify & _).
  exists h1, c. split; [exact Hr |]. split; [exact Hfresh |].
  split; [| exact Hreify].
  rewrite (Hlow 8 _ eq_refl). simpl.
  destruct cs as [|c0 cs]; [discriminate |].
  simpl in Hc. injection Hc as ->. reflexivity.
Defined.

(** [test_inline_simple]: [x] inlined in [x = 1; a = x] gives [a = 1]. *)
Example inline_simple :
  let run := Inline.inline_name (fun _ _ => Examples.simple_scope) "ast"
                                0 "x" Examples.simple_tree in
  fst run = Ret tt
  /\ reify 8 (snd run) (VRef 0) = reify 8 Examples.simple_expected (VRef 0).
Proof. split; reflexivity. Qed.

(** * Further properties of the printer and of the inlining *)

(** ** The indentation marker *)

Lemma prefix_append (t b : string) : String.prefix t (t ++ b) = true.
Proof.
  induction t as [|c t IH]; [now destruct b |].
  change (String.prefix (String c t) (String c (t ++ b)) = true). simpl.
  destruct (ascii_dec c c); [exact IH | contradiction].
Qed.

Lemma replace_from_skip (old new t b : string) :
  replace_from old new (String.length t) (t ++ b) = replace_from old new 0 b.
Proof.
  induction t as [|c t IH]; [reflexivity |].
  change (replace_from old new (S (String.length t)) (String c (t ++ b))
          = replace_from old new 0 b).
  simpl. exact IH.
Qed.

Lemma prefix_cons (c0 c : ascii) (t s : string) :
  String.prefix (String c0 t) (String c s)
  = if ascii_dec c0 c then String.prefix t s else false.
Proof. reflexivity. Qed.

Lemma replace_from_cons (old new : string) (c : ascii) (rest : string) :
  replace_from old new 0 (String c rest)
  = if String.prefix old (String c rest)
    then (new ++ replace_from old new (String.length old - 1) rest)%string
    else String c (replace_from old new 0 rest).
Proof. reflexivity. Qed.

Lemma replace_plain_then (ind a rest : string) :
  plain a = true ->
  replace "@@indent@@" ind (a ++ rest) = (a ++ replace "@@indent@@" ind rest)%string.
Proof.
  intros Ha. induction a as [|c a IH]; [reflexivity |].
  simpl in Ha. apply andb_true_iff in Ha as [Hc Ha].
  change (replace "@@indent@@" ind (String c (a ++ rest))
          = String c (a ++ replace "@@indent@@" ind rest)).
  unfold replace in *. rewrite replace_from_cons.
  change "@@indent@@" with (String "@" "@indent@@") at 1. rewrite prefix_cons.
  destruct (ascii_dec "@" c) as [<- | Hne]; [discriminate |].
  f_equal. now apply IH.
Qed.

Lemma replace_marker (ind b : string) :
  replace "@@indent@@" ind ("@@indent@@" ++ b)
  = (ind ++ replace "@@indent@@" ind b)%string.
Proof.
  unfold replace.
  change ("@@indent@@" ++ b)%string with (String "@" ("@indent@@" ++ b)).
  rewrite replace_from_cons.
  change (String "@" ("@indent@@" ++ b)) with ("@@indent@@" ++ b)%string.
  rewrite prefix_append.
  now rewrite <- (replace_from_skip "@@indent@@" ind "@indent@@" b).
Qed.

(** X1: a text without [@] goes to the output as it is. *)
Theorem add_code_plain (s : string) (p : Codegen.printer) :
  plain s = true ->
  Codegen._add_code s p
  = (Ret tt,
     Codegen.Printer (Codegen._code p ++ s) (Codegen._indent p) (Codegen.store p)).
Proof.
  intros Hs. unfold Codegen._add_code, Codegen.set_code.
  rewrite <- (append_empty_r s) at 1.
  rewrite (replace_plain_then _ s "" Hs).
  change (replace "@@indent@@" (Codegen._indent p) "") with "".
  now rewrite append_empty_r.
Qed.

Lemma add_code_plain_witness :
  Codegen._add_code "x = 1" (Codegen.Printer "if y: " "  " [])
  = (Ret tt, Codegen.Printer "if y: x = 1" "  " []).
Proof. exact (add_code_plain "x = 1" (Codegen.Printer "if y: " "  " []) eq_refl). Defined.

(** X2: the first marker of a text is replaced by the current indentation,
    the text before it is kept, and what was put in is not looked at again:
    the expansion goes on in the text after the marker. *)
Theorem add_code_expands_marker (a b : string) (p : Codegen.printer) :
  plain a = true ->
  Codegen._add_code (a ++ "@@indent@@" ++ b) p
  = (Ret tt,
     Codegen.Printer
       (Codegen._code p ++ a ++ Codegen._indent p
          ++ replace "@@indent@@" (Codegen._indent p) b)
       (Codegen._indent p) (Codegen.store p)).
Proof.
  intros Ha. unfold Codegen._add_code, Codegen.set_code.
  now rewrite (replace_plain_then _ a _ Ha), replace_marker.
Qed.

Lemma add_code_expands_marker_witness :
  Codegen._add_code (String "010" "" ++ "@@indent@@" ++ "pass")
                    (Codegen.Printer "if y:" "  " [])
  = (Ret tt,
     Codegen.Printer ("if y:" ++ String "010" "" ++ "  " ++ "pass") "  " []).
Proof.
  exact (add_code_expands_marker (String "010" "") "pass"
                                 (Codegen.Printer "if y:" "  " []) eq_refl).
Defined.

(** ** Attribute emission, visit after visit *)

(** What [attr] leaves behind in the cases where it reaches the output
    stage. *)
Lemma attr_emitting (p : Codegen.printer) (node : nat) (o : obj)
      (info : gmap string bool) (attr_name : string)
      (deps : option (list string)) (default : option string)
      (separate_before : bool) :
  Codegen.store p !! node = Some o ->
  printer_info o = Some info ->
  match info !! attr_name with Some b => b | None => false end = false ->
  let marked := <[node := Codegen.set_printer_info
                            (Some (<[attr_name := true]> info)) o]>
                  (Codegen.store p) in
  match Codegen.attr_val o attr_name deps default with
  | VStr val =>
      exists sp : string,
        (sp = " " \/ sp = "")
        /\ Codegen.attr node attr_name deps default separate_before p
           = (Ret tt,
              Codegen.Printer
                (Codegen._code p ++ sp
                   ++ replace "@@indent@@" (Codegen._indent p) val)
                (Codegen._indent p) marked)
  | _ =>
      exists (sp : string) (e : exn),
        (sp = " " \/ sp = "")
        /\ (e = AttributeError \/ e = TypeError)
        /\ Codegen.attr node attr_name deps default separate_before p
           = (Raise e,
              Codegen.Printer (Codegen._code p ++ sp) (Codegen._indent p) marked)
  end.
Proof.
  intros Hnode Hinfo Hflag. cbv zeta.
  assert (Hother : forall val,
             (forall s, val <> VStr s) ->
             exists (sp : string) (e : exn),
               (sp = " " \/ sp = "")
               /\ (e = AttributeError \/ e = TypeError)
               /\ bind (if separate_before && truthy_str (Codegen._code p)
                           && opt_isalnum (last_char (Codegen._code p))
                        then match Codegen.index_guard val with
                             | Ret true => Codegen._add_code " "
                             | Ret false => ret tt
                             | Raise e => raise e
                             end
                        else ret tt)
                       (fun _ => raise AttributeError : M Codegen.printer unit)
                       (Codegen.set_store
                          (<[node := Codegen.set_printer_info
                                       (Some (<[attr_name := true]> info)) o]>
                             (Codegen.store p)) p)
                  = (Raise e,
                     Codegen.Printer (Codegen._code p ++ sp) (Codegen._indent p)
                       (<[node := Codegen.set_printer_info
                                    (Some (<[attr_name := true]> info)) o]>
                          (Codegen.store p)))).
  { intros val Hval.
    destruct (separate_before && truthy_str (Codegen._code p)
              && opt_isalnum (last_char (Codegen._code p))).
    - destruct (Codegen.index_guard val) as [[|]|e] eqn:Hg.
      + exists " ", AttributeError. split; [now left |]. split; [now left |].
        reflexivity.
      + exists "", AttributeError. split; [now right |]. split; [now left |].
        unfold bind, ret, raise, Codegen.set_store. simpl.
        now rewrite append_empty_r.
      + exists "", e. split; [now right |]. split.
        * unfold Codegen.index_guard in Hg.
          destruct (negb (Codegen.truthy val)); [discriminate |].
          destruct val as [ | | | | | [|[] ?]]; simpl in Hg; try discriminate;
            injection Hg as <-; tauto.
        * unfold bind, raise, Codegen.set_store. simpl.
          now rewrite append_empty_r.
    - exists "", AttributeError. split; [now right |]. split; [now left |].
      unfold bind, ret, raise, Codegen.set_store. simpl.
      now rewrite append_empty_r. }
  destruct (Codegen.attr_val o attr_name deps default)
    as [ | b | z | val | i | items] eqn:Hval;
    unfold Codegen.attr, bind at 1, get; rewrite Hnode, Hinfo, Hflag;
    unfold bind at 1, modify; rewrite Hval;
    try (match goal with
         | |- context [Codegen.index_guard ?v] =>
             destruct (Hother v ltac:(intros s; discriminate))
               as (sp & e & Hsp & He & Hrun);
             exists sp, e; split; [exact Hsp |]; split; [exact He |];
             rewrite <- Hrun; reflexivity
         end).
  unfold bind.
  destruct (Codegen.needs_space separate_before (Codegen._code p) val).
  - exists " ". split; [now left |].
    unfold Codegen._add_code, Codegen.set_code, Codegen.set_store. simpl.
    now rewrite append_assoc.
  - exists "". split; [now right | reflexivity].
Qed.

(** X3: an [attr] that has returned is a no-op when it is asked again for
    the same node and attribute, whatever the other arguments. *)
Theorem attr_twice (p p1 : Codegen.printer) (node : nat) (attr_name : string)
        (deps deps' : option (list string)) (default default' : option string)
        (separate_before separate_before' : bool) :
  Codegen.attr node attr_name deps default separate_before p = (Ret tt, p1) ->
  Codegen.attr node attr_name deps' default' separate_before' p1 = (Ret tt, p1).
Proof.
  intros H.
  destruct (Codegen.store p !! node) as [o|] eqn:Hnode;
    [| unfold Codegen.attr, bind, get in H; rewrite Hnode in H; discriminate].
  destruct (printer_info o) as [info|] eqn:Hinfo.
  - destruct (match info !! attr_name with Some b => b | None => false end)
      eqn:Hflag.
    + unfold Codegen.attr, bind, get in H. rewrite Hnode, Hinfo, Hflag in H.
      injection H as <-.
      unfold Codegen.attr, bind, get. now rewrite Hnode, Hinfo, Hflag.
    + pose proof (attr_emitting p node o info attr_name deps default
                                separate_before Hnode Hinfo Hflag) as Hrun.
      cbv zeta in Hrun.
      destruct (Codegen.attr_val o attr_name deps default);
        try (destruct Hrun as (sp & e & _ & _ & Hrun); rewrite Hrun in H;
             discriminate).
      destruct Hrun as (sp & _ & Hrun). rewrite Hrun in H. injection H as <-.
      unfold Codegen.attr, bind, get. simpl.
      rewrite list_lookup_insert_eq by (eapply lookup_lt_Some; exact Hnode).
      simpl. now rewrite lookup_insert_eq.
  - unfold Codegen.attr, bind, get in H. rewrite Hnode, Hinfo in H.
    injection H as <-.
    unfold Codegen.attr, bind, get. now rewrite Hnode, Hinfo.
Qed.

Lemma attr_twice_witness :
  Codegen.attr 0 "content" None None true
               (Codegen.Printer "x = 2" ""
                  [Codegen.set_printer_info (Some {["content" := true]})
                                            Examples.num_edited])
  = (Ret tt,
     Codegen.Printer "x = 2" ""
       [Codegen.set_printer_info (Some {["content" := true]})
                                 Examples.num_edited]).
Proof.
  apply (attr_twice (Codegen.Printer "x = " "" [Examples.num_edited]) _ 0
                    "content" (Some ["n"]) None (Some "2") None false true).
  reflexivity.
Defined.

(** X4: whatever [attr] does and however it ends, the indentation is what it
    was, the output has only grown, every other node is untouched, and the
    node itself keeps its class, its fields and its formatting. *)
Theorem attr_frame (p p' : Codegen.printer) (r : outcome unit) (node : nat)
        (attr_name : string) (deps : option (list string))
        (default : option string) (separate_before : bool) :
  Codegen.attr node attr_name deps default separate_before p = (r, p') ->
  Codegen._indent p' = Codegen._indent p
  /\ (exists x, Codegen._code p' = (Codegen._code p ++ x)%string)
  /\ length (Codegen.store p') = length (Codegen.store p)
  /\ (forall i, i <> node -> Codegen.store p' !! i = Codegen.store p !! i)
  /\ (forall o, Codegen.store p !! node = Some o ->
        exists o', Codegen.store p' !! node = Some o'
                   /\ cls o' = cls o /\ fields o' = fields o
                   /\ pasta o' = pasta o).
Proof.
  intros H.
  assert (Hsame : p' = p ->
            Codegen._indent p' = Codegen._indent p
            /\ (exists x, Codegen._code p' = (Codegen._code p ++ x)%string)
            /\ length (Codegen.store p') = length (Codegen.store p)
            /\ (forall i, i <> node ->
                  Codegen.store p' !! i = Codegen.store p !! i)
            /\ (forall o, Codegen.store p !! node = Some o ->
                  exists o', Codegen.store p' !! node = Some o'
                             /\ cls o' = cls o /\ fields o' = fields o
                             /\ pasta o' = pasta o)).
  { intros ->. split; [reflexivity |].
    split; [exists ""; now rewrite append_empty_r |].
    split; [reflexivity |]. split; [reflexivity | eauto]. }
  destruct (Codegen.store p !! node) as [o|] eqn:Hnode;
    [| unfold Codegen.attr, bind, get in H; rewrite Hnode in H;
       injection H as _ <-; now apply Hsame].
  destruct (printer_info o) as [info|] eqn:Hinfo;
    [| unfold Codegen.attr, bind, get in H; rewrite Hnode, Hinfo in H;
       injection H as _ <-; now apply Hsame].
  destruct (match info !! attr_name with Some b => b | None => false end)
    eqn:Hflag;
    [unfold Codegen.attr, bind, get in H; rewrite Hnode, Hinfo, Hflag in H;
     injection H as _ <-; now apply Hsame |].
  pose proof (attr_emitting p node o info attr_name deps default
                            separate_before Hnode Hinfo Hflag) as Hrun.
  cbv zeta in Hrun.
  set (marked := <[node := Codegen.set_printer_info
                             (Some (<[attr_name := true]> info)) o]>
                   (Codegen.store p)) in *.
  assert (Hmarked :
            length marked = length (Codegen.store p)
            /\ (forall i, i <> node -> marked !! i = Codegen.store p !! i)
            /\ (forall o0, Some o = Some o0 ->
                  exists o', marked !! node = Some o'
                             /\ cls o' = cls o0 /\ fields o' = fields o0
                             /\ pasta o' = pasta o0)).
  { subst marked. split; [apply length_insert |]. split.
    - intros i Hi. now apply list_lookup_insert_ne.
    - intros o0 [= <-].
      rewrite list_lookup_insert_eq by (eapply lookup_lt_Some; exact Hnode).
      eexists. split; [reflexivity |]. now simpl. }
  destruct (Codegen.attr_val o attr_name deps default) as [ | | | val | | ].
  1-3, 5-6:
    destruct Hrun as (sp & e & _ & _ & Hrun); rewrite Hrun in H;
    injection H as _ <-;
    (split; [reflexivity |]);
    (split; [simpl; eauto |]);
    exact Hmarked.
  destruct Hrun as (sp & _ & Hrun). rewrite Hrun in H. injection H as _ <-.
  split; [reflexivity |]. split; [simpl; eauto |]. exact Hmarked.
Qed.

(** X4, at a request that fails: the stored value is the number [0], the
    output ends in a letter and separation is asked for, so that the space is
    written before [_add_code] fails on the number. *)
Lemma attr_frame_witness :
  Codegen.attr 0 "content" None None true
               (Codegen.Printer "x" "  "
                  [Obj "Num" [("n", VInt 0)] (Some [("content", VInt 0)])
                       (Some ∅)])
  = (Raise AttributeError,
     Codegen.Printer "x " "  "
       [Obj "Num" [("n", VInt 0)] (Some [("content", VInt 0)])
            (Some {["content" := true]})])
  /\ exists x, "x " = ("x" ++ x)%string.
Proof.
  assert (Hrun : Codegen.attr 0 "content" None None true
                   (Codegen.Printer "x" "  "
                      [Obj "Num" [("n", VInt 0)] (Some [("content", VInt 0)])
                           (Some ∅)])
                 = (Raise AttributeError,
                    Codegen.Printer "x " "  "
                      [Obj "Num" [("n", VInt 0)] (Some [("content", VInt 0)])
                           (Some {["content" := true]})]))
    by reflexivity.
  split; [exact Hrun |].
  destruct (attr_frame _ _ _ _ _ _ _ _ Hrun) as (_ & H & _).
  exact H.
Defined.

(** ** The flags of a visit *)

Lemma update_node_store (node : nat) (f : obj -> obj) (p : Codegen.printer)
      (o : obj) :
  Codegen.store p !! node = Some o ->
  Codegen.update_node node f p
  = (Ret tt,
     Codegen.Printer (Codegen._code p) (Codegen._indent p)
                     (<[node := f o]> (Codegen.store p))).
Proof. intros H. unfold Codegen.update_node, modify. now rewrite H. Qed.

Lemma del_printer_info_returns (node : nat) (p p' : Codegen.printer) :
  Codegen.del_printer_info node p = (Ret tt, p') ->
  exists o,
    Codegen.store p !! node = Some o
    /\ p' = Codegen.Printer (Codegen._code p) (Codegen._indent p)
              (<[node := Codegen.set_printer_info None o]> (Codegen.store p)).
Proof.
  unfold Codegen.del_printer_info, bind, get.
  destruct (Codegen.store p !! node) as [o|] eqn:Hnode; [| discriminate].
  destruct (printer_info o); [| discriminate].
  rewrite (update_node_store _ _ _ _ Hnode). intros [= <-]. eauto.
Qed.

(** X5: when [visit] returns, the node it visited is there and carries no
    [_printer_info], whatever the dispatch did. *)
Theorem visit_clears_flags (super_visit : nat -> M Codegen.printer unit)
        (node : nat) (p p' : Codegen.printer) :
  Codegen.visit super_visit node p = (Ret tt, p') ->
  exists o, Codegen.store p' !! node = Some o /\ printer_info o = None.
Proof.
  unfold Codegen.visit, bind, try_except.
  destruct (Codegen.update_node node _ p) as [[[]|e] p0]; [| discriminate].
  destruct (super_visit node p0) as [[[]|e] p1].
  - intros H. apply del_printer_info_returns in H as (o & Ho & ->). simpl.
    rewrite list_lookup_insert_eq by (eapply lookup_lt_Some; exact Ho).
    eauto.
  - destruct (Codegen.internal_error e); discriminate.
Qed.

Lemma visit_clears_flags_witness :
  exists o,
    Codegen.store
      (snd (Codegen.visit (fun n => Codegen.attr n "content" None None false) 0
                          (Codegen.Printer "" "" [Examples.num_edited_emitted])))
      !! 0 = Some o
    /\ printer_info o = None.
Proof.
  apply (visit_clears_flags (fun n => Codegen.attr n "content" None None false)
                            0 (Codegen.Printer "" "" [Examples.num_edited_emitted])).
  reflexivity.
Defined.

(** X6: every visit starts from empty flags.  A node that still carries
    flags, as a print that failed leaves them, has its text emitted all the
    same by the first request of the next visit, and comes out without
    flags.  The text is the stored one, or the default when a declared
    dependency has a snapshot that the live value is not equal to. *)
Theorem visit_emits_despite_old_flags
        (p : Codegen.printer) (node : nat) (o : obj) (attr_name : string)
        (deps : option (list string)) (default : option string)
        (separate_before : bool) (fragment : string) :
  Codegen.store p !! node = Some o ->
  Fmt.get o attr_name = VStr fragment ->
  exists sp : string,
    (sp = " " \/ sp = "")
    /\ Codegen.visit
         (fun n => Codegen.attr n attr_name deps default separate_before)
         node p
       = (Ret tt,
          Codegen.Printer
            (Codegen._code p ++ sp
               ++ replace "@@indent@@" (Codegen._indent p)
                    (chosen_text o deps default fragment))
            (Codegen._indent p)
            (<[node := Codegen.set_printer_info None o]> (Codegen.store p))).
Proof.
  intros Hnode Hfrag.
  set (o0 := Codegen.set_printer_info (Some ∅) o).
  set (p0 := Codegen.Printer (Codegen._code p) (Codegen._indent p)
               (<[node := o0]> (Codegen.store p))).
  assert (Hlt : node < length (Codegen.store p))
    by (eapply lookup_lt_Some; exact Hnode).
  assert (Hnode0 : Codegen.store p0 !! node = Some o0)
    by (simpl; now apply list_lookup_insert_eq).
  pose proof (attr_emitting p0 node o0 ∅ attr_name deps default separate_before
                            Hnode0 eq_refl eq_refl) as Hrun.
  cbv zeta in Hrun.
  assert (Hval : Codegen.attr_val o0 attr_name deps default
                 = VStr (chosen_text o deps default fragment)).
  { exact (attr_val_text o0 attr_name deps default fragment Hfrag). }
  rewrite Hval in Hrun. destruct Hrun as (sp & Hsp & Hrun).
  exists sp. split; [exact Hsp |].
  unfold Codegen.visit, bind, try_except.
  rewrite (update_node_store _ _ _ _ Hnode). fold o0. fold p0. rewrite Hrun.
  unfold Codegen.del_printer_info, bind, get. simpl.
  rewrite list_lookup_insert_eq by (rewrite length_insert; exact Hlt). simpl.
  unfold Codegen.update_node, modify. simpl.
  rewrite list_lookup_insert_eq by (rewrite length_insert; exact Hlt).
  unfold Codegen.set_store. simpl. rewrite !list_insert_insert_eq. reflexivity.
Qed.

(** X6, at a number literal that carries the flag of an earlier print: its
    value was edited from [1] to [2], and the default is written; and at a
    literal whose value [True] is equal to the snapshot [1], where the stored
    text is written. *)
Lemma visit_emits_despite_old_flags_witness :
  Codegen.visit (fun n => Codegen.attr n "content" (Some ["n"]) (Some "2") false)
                0 (Codegen.Printer "x = " "" [Examples.num_edited_emitted])
  = (Ret tt,
     Codegen.Printer "x = 2" ""
                     [Codegen.set_printer_info None Examples.num_edited_emitted])
  /\ Codegen.visit
       (fun n => Codegen.attr n "content" (Some ["n"]) (Some "True") false) 0
       (Codegen.Printer "x = " ""
          [Obj "Num" [("n", VBool true)]
               (Some [("content", VStr "1"); ("n__src", VInt 1)])
               (Some {["content" := true]})])
     = (Ret tt,
        Codegen.Printer "x = 1" ""
          [Obj "Num" [("n", VBool true)]
               (Some [("content", VStr "1"); ("n__src", VInt 1)]) None]).
Proof.
  split.
  - destruct (visit_emits_despite_old_flags
                (Codegen.Printer "x = " "" [Examples.num_edited_emitted]) 0
                Examples.num_edited_emitted "content" (Some ["n"]) (Some "2")
                false "1" eq_refl eq_refl) as (sp & Hsp & Hrun).
    rewrite Hrun. destruct Hsp as [-> | ->]; [| reflexivity].
    discriminate Hrun.
  - destruct (visit_emits_despite_old_flags
                (Codegen.Printer "x = " ""
                   [Obj "Num" [("n", VBool true)]
                        (Some [("content", VStr "1"); ("n__src", VInt 1)])
                        (Some {["content" := true]})]) 0
                (Obj "Num" [("n", VBool true)]
                     (Some [("content", VStr "1"); ("n__src", VInt 1)])
                     (Some {["content" := true]}))
                "content" (Some ["n"]) (Some "True")
                false "1" eq_refl eq_refl) as (sp & Hsp & Hrun).
    rewrite Hrun. destruct Hsp as [-> | ->]; [| reflexivity].
    discriminate Hrun.
Defined.

(** ** Optional tokens *)

Lemma add_code_empty (p : Codegen.printer) :
  Codegen._add_code "" p = (Ret tt, p).
Proof.
  unfold Codegen._add_code, Codegen.set_code.
  change (replace "@@indent@@" (Codegen._indent p) "") with "".
  rewrite append_empty_r. now destruct p.
Qed.

(** X7: [optional_token] writes the token only when nothing at all is
    stored under the attribute and the caller asks for the default.  A stored
    text is written in its place, also the empty one; and when nothing is
    stored and no default is asked for, or when what is stored is falsy, the
    printer is left exactly as it was. *)
Theorem optional_token_cases (p : Codegen.printer) (node : nat) (o : obj)
        (attr_name token_val : string) (default : bool) :
  Codegen.store p !! node = Some o ->
  Visitors.optional_token node attr_name token_val default p
  = match Fmt.get o attr_name with
    | VNone => if default then Codegen._add_code token_val p else (Ret tt, p)
    | VStr s => Codegen._add_code s p
    | v => if Codegen.truthy v then (Raise AttributeError, p) else (Ret tt, p)
    end.
Proof.
  intros Hnode. unfold Visitors.optional_token, bind, Visitors.the_node.
  rewrite Hnode.
  destruct (Fmt.get o attr_name) as [ | b | z | s | i | items]; simpl.
  - destruct default; simpl.
    + now destruct token_val.
    + apply add_code_empty.
  - destruct b; [reflexivity | apply add_code_empty].
  - destruct (negb (Z.eqb z 0)); [reflexivity | apply add_code_empty].
  - now destruct s.
  - reflexivity.
  - destruct items; [apply add_code_empty | reflexivity].
Qed.

Lemma optional_token_cases_witness :
  Visitors.optional_token 0 "content" "," true
                          (Codegen.Printer "f(a" "" [Examples.num_annotated])
  = Codegen._add_code "1" (Codegen.Printer "f(a" "" [Examples.num_annotated]).
Proof.
  exact (optional_token_cases (Codegen.Printer "f(a" "" [Examples.num_annotated])
                              0 Examples.num_annotated "content" "," true
                              eq_refl).
Defined.

(** ** The dictionary of indentation counts *)

(** X8: after the loop over the walked nodes, the dictionary has one entry
    for every text that is stored as a counted [indent_diff], with the number
    of nodes that store it, and no other entry with a text for key.  No two
    entries have the same key, every count is above zero, and every key is a
    counted [indent_diff] of a walked node: one that is not text is a key as
    well, and it is the [max] after the loop that fails on it. *)
Theorem seen_indent_diffs_exact (vals : list value) (seen : list (value * nat)) :
  Codegen.count_indent_diffs vals [] = Ret seen ->
  List.NoDup (map fst seen)
  /\ (forall s c, In (VStr s, c) seen <-> (c = occurrences s vals /\ 0 < c))
  /\ (forall k c, In (k, c) seen ->
        In k vals /\ Codegen.truthy k = true /\ 0 < c)
  /\ (forall v, In v vals -> Codegen.truthy v = true ->
        exists k c, In (k, c) seen /\ value_eqb k v = true).
Proof.
  intros H.
  destruct (count_indent_diffs_keys vals [] seen H)
    as (Hnd & Hpos & Hfrom & _ & Hall); [constructor | constructor |].
  pose proof (count_text_part vals [] seen H) as Htexts. simpl in Htexts.
  destruct (tally_texts_counts vals []) as (Hnd' & Hpos' & Hcnt);
    [constructor | constructor |].
  rewrite <- Htexts in Hnd', Hpos', Hcnt.
  split; [exact Hnd |]. split; [| split].
  - intros s c. rewrite In_text_part. specialize (Hcnt s). simpl in Hcnt.
    unfold count_of in Hcnt. split.
    + intros Hin. rewrite (In_assoc_unique s c _ Hnd' Hin) in Hcnt.
      split; [exact Hcnt |]. rewrite Forall_forall in Hpos'.
      apply (Hpos' (s, c)). now apply list_elem_of_In.
    + intros [-> Hc]. rewrite <- Hcnt in *.
      destruct (assoc s (text_part seen)) as [c|] eqn:E; [| lia].
      now apply assoc_In.
  - intros k c Hin.
    assert (Hk : In k (map fst seen))
      by (change k with (fst (k, c)); now apply in_map).
    destruct (Hfrom k Hk) as [[] | [Hv Ht]].
    split; [exact Hv |]. split; [exact Ht |].
    rewrite Forall_forall in Hpos. apply (Hpos (k, c)).
    now apply list_elem_of_In.
  - intros v Hv Ht. destruct (Hall v Hv Ht) as (k & Hk & He).
    apply in_map_iff in Hk as ([k' c] & Hfst & Hin). simpl in Hfst. subst k'.
    exists k, c. split; [exact Hin | exact He].
Qed.

(** X8, at a walk that meets two texts, the number [4] and the tab again:
    the [4] is a key of the dictionary, beside the two texts with their
    counts. *)
Lemma seen_indent_diffs_exact_witness :
  Codegen.count_indent_diffs [VStr "  "; VStr Spec.tab; VInt 4; VStr Spec.tab] []
  = Ret [(VStr "  ", 1); (VStr Spec.tab, 2); (VInt 4, 1)]
  /\ (2 = occurrences Spec.tab [VStr "  "; VStr Spec.tab; VInt 4; VStr Spec.tab]
      /\ 0 < 2).
Proof.
  split; [reflexivity |].
  destruct (seen_indent_diffs_exact
              [VStr "  "; VStr Spec.tab; VInt 4; VStr Spec.tab]
              [(VStr "  ", 1); (VStr Spec.tab, 2); (VInt 4, 1)] eq_refl)
    as (_ & H & _).
  apply (H Spec.tab 2). right. now left.
Defined.

(** X9: when no walked node stores a counted [indent_diff], [to_str] does
    not touch the default indentation: it is the visit of the tree by a fresh
    printer, and the code of that printer. *)
Theorem to_str_without_indent_diffs
        (bv : Codegen.base_visitor) (fuel tree : nat) (h : heap)
        (nodes : list nat) :
  Codegen.walk fuel h [tree] = Some nodes ->
  Forall (fun v => Codegen.truthy v = false) (Codegen.indent_diffs h nodes) ->
  Codegen.to_str bv fuel tree h
  = Some (match Codegen.visit (Codegen.super_visit bv) tree
                              (Codegen.Printer "" (Codegen.init_indent bv) h) with
          | (Ret _, p) => (Ret (Codegen._code p), Codegen.store p)
          | (Raise e, p) => (Raise e, Codegen.store p)
          end).
Proof.
  intros Hwalk Hall. unfold Codegen.to_str, Codegen.detect_indent_diff.
  rewrite Hwalk.
  assert (Hcount : forall seen,
             Codegen.count_indent_diffs (Codegen.indent_diffs h nodes) seen
             = Ret seen).
  { induction Hall as [|v vals Hv _ IH]; intros seen; simpl; [reflexivity |].
    rewrite Hv. apply IH. }
  rewrite Hcount. simpl. unfold bind, ret, get.
  destruct (Codegen.visit (Codegen.super_visit bv) tree _) as [[[]|e] p];
    reflexivity.
Qed.

Lemma to_str_without_indent_diffs_witness :
  Codegen.to_str Examples.failing_visitor 2 0 Examples.name_tree
  = Some (Raise (PrintError KeyError),
          <[0 := Obj "Name" [("id", VStr "x"); ("ctx", VRef 1)]
                     (Some [("prefix", VStr " ")]) (Some ∅)]>
            Examples.name_tree).
Proof.
  exact (to_str_without_indent_diffs Examples.failing_visitor 2 0
                                     Examples.name_tree [0; 1] eq_refl
                                     ltac:(repeat constructor)).
Defined.

(** ** Ties between indentations *)

Lemma key_lt_trans (a b c : Z * Z) :
  Codegen.key_lt a b = true -> Codegen.key_lt b c = true ->
  Codegen.key_lt a c = true.
Proof.
  unfold Codegen.key_lt.
  rewrite !orb_true_iff, !andb_true_iff, !Z.ltb_lt, !Z.eqb_eq. lia.
Qed.

Lemma key_le_lt_trans (a b c : Z * Z) :
  Codegen.key_lt b a = false -> Codegen.key_lt b c = true ->
  Codegen.key_lt a c = true.
Proof.
  rewrite key_lt_false. unfold Codegen.key_lt.
  rewrite !orb_true_iff, !andb_true_iff, !Z.ltb_lt, !Z.eqb_eq. lia.
Qed.

(** [max] keeps the item it holds unless a later one is strictly greater:
    the result is the starting item, or a later item that every item before
    it stays strictly below. *)
Lemma max_from_first (items : list (string * nat)) :
  forall best,
    let r := Codegen.max_from best items in
    r = best
    \/ exists i,
        items !! i = Some r
        /\ Codegen.key_lt (Codegen.indent_key best) (Codegen.indent_key r) = true
        /\ forall j y, j < i -> items !! j = Some y ->
             Codegen.key_lt (Codegen.indent_key y) (Codegen.indent_key r) = true.
Proof.
  induction items as [|x items IH]; intros best; cbv zeta; simpl; [now left |].
  destruct (Codegen.key_lt (Codegen.indent_key best) (Codegen.indent_key x))
    eqn:E.
  - right. destruct (IH x) as [Hr | (i & Hi & Hlt & Hbefore)].
    + exists 0. rewrite Hr. split; [reflexivity |]. split; [exact E |].
      intros j y Hj. lia.
    + exists (S i). split; [exact Hi |]. split.
      * eapply key_lt_trans; eassumption.
      * intros [|j] y Hj Hy; simpl in Hy.
        -- injection Hy as <-. exact Hlt.
        -- apply (Hbefore j y); [lia | exact Hy].
  - destruct (IH best) as [Hr | (i & Hi & Hlt & Hbefore)]; [now left |].
    right. exists (S i). split; [exact Hi |]. split; [exact Hlt |].
    intros [|j] y Hj Hy; simpl in Hy.
    + injection Hy as <-. eapply key_le_lt_trans; eassumption.
    + apply (Hbefore j y); [lia | exact Hy].
Qed.

(** X10: among the texts met in the walk, one that comes before the chosen
    one in the dictionary has a smaller count, or the same count and a
    greater length.  So of two texts with the same count and the same length
    the one met first is chosen. *)
Theorem most_prevalent_first_wins (seen : list (string * nat)) (d : string) :
  Codegen.most_prevalent seen = Some d ->
  exists i c,
    seen !! i = Some (d, c)
    /\ forall j s' c', j < i -> seen !! j = Some (s', c') ->
         c' < c \/ (c' = c /\ String.length d < String.length s').
Proof.
  destruct seen as [|x rest]; [discriminate |]. simpl. intros [= <-].
  assert (Hkey : forall (y r : string * nat),
             Codegen.key_lt (Codegen.indent_key y) (Codegen.indent_key r) = true ->
             snd y < snd r
             \/ (snd y = snd r
                 /\ String.length (fst r) < String.length (fst y))).
  { intros y r. unfold Codegen.key_lt, Codegen.indent_key. simpl.
    rewrite orb_true_iff, andb_true_iff, !Z.ltb_lt, Z.eqb_eq. lia. }
  destruct (max_from_first rest x) as [Hr | (i & Hi & Hlt & Hbefore)].
  - exists 0, (snd x). rewrite Hr. split; [now destruct x |].
    intros j s' c' Hj. lia.
  - exists (S i), (snd (Codegen.max_from x rest)).
    split; [simpl; rewrite Hi; now destruct (Codegen.max_from x rest) |].
    intros [|j] s' c' Hj Hy; simpl in Hy.
    + injection Hy as ->. exact (Hkey (s', c') _ Hlt).
    + apply (Hkey (s', c')). apply (Hbefore j); [lia | exact Hy].
Qed.

Lemma most_prevalent_first_wins_witness :
  exists i c,
    [("  ", 2); ("        ", 2); (String "009" (String "009" ""), 2)] !! i
    = Some ("  ", c)
    /\ forall j s' c', j < i ->
         [("  ", 2); ("        ", 2); (String "009" (String "009" ""), 2)] !! j
         = Some (s', c') ->
         c' < c \/ (c' = c /\ String.length "  " < String.length s').
Proof.
  exact (most_prevalent_first_wins
           [("  ", 2); ("        ", 2); (String "009" (String "009" ""), 2)]
           "  " eq_refl).
Defined.

(** ** Markers of an interpolated string *)

(** X11: without stored content, the part built for the value at position
    [i] of the literal is the text of that value when it is a text segment,
    and otherwise the marker of ordinal [i], the position among all the
    values. *)
Theorem joined_parts_follow_values
        (placeholder : nat -> string) (h : heap) (values parts : list value) :
  Codegen.joined_parts placeholder h values [] = Ret parts ->
  length parts = length values
  /\ forall i v,
      values !! i = Some v ->
      match v with
      | VRef n =>
          if isinstance h n "Str"
          then parts !! i = h !! n ≫= (fun o => assoc "s" (fields o))
          else parts !! i = Some (VStr (placeholder i))
      | _ => parts !! i = Some (VStr (placeholder i))
      end.
Proof.
  assert (Hgen : forall values acc ps,
             Codegen.joined_parts placeholder h values acc = Ret ps ->
             length ps = length acc + length values
             /\ (forall i, i < length acc -> ps !! i = acc !! i)
             /\ forall i v,
                 values !! i = Some v ->
                 match v with
                 | VRef n =>
                     if isinstance h n "Str"
                     then ps !! (length acc + i)
                          = h !! n ≫= (fun o => assoc "s" (fields o))
                     else ps !! (length acc + i)
                          = Some (VStr (placeholder (length acc + i)))
                 | _ => ps !! (length acc + i)
                        = Some (VStr (placeholder (length acc + i)))
                 end).
  { clear values parts. induction values as [|val rest IH]; intros acc ps H;
      simpl in H.
    - injection H as <-. split; [simpl; lia |]. split; [reflexivity |].
      intros i v Hi. rewrite lookup_nil in Hi. discriminate.
    - assert (Hstep : forall x,
                 Codegen.joined_parts placeholder h rest (acc ++ [x]) = Ret ps ->
                 length ps = length acc + S (length rest)
                 /\ (forall i, i < length acc -> ps !! i = acc !! i)
                 /\ ps !! length acc = Some x
                 /\ forall i v,
                     rest !! i = Some v ->
                     match v with
                     | VRef n =>
                         if isinstance h n "Str"
                         then ps !! (length acc + S i)
                              = h !! n ≫= (fun o => assoc "s" (fields o))
                         else ps !! (length acc + S i)
                              = Some (VStr (placeholder (length acc + S i)))
                     | _ => ps !! (length acc + S i)
                            = Some (VStr (placeholder (length acc + S i)))
                     end).
      { intros x Hx. destruct (IH _ _ Hx) as (Hlen & Hpre & Hpos).
        rewrite length_app in Hlen, Hpre, Hpos. simpl in Hlen, Hpre, Hpos.
        split; [lia |]. split; [| split].
        - intros i Hi. rewrite Hpre by lia. now rewrite lookup_app_l.
        - rewrite Hpre by lia. rewrite lookup_app_r by lia.
          now rewrite Nat.sub_diag.
        - intros i v Hi. specialize (Hpos i v Hi).
          replace (length acc + S i) with (length acc + 1 + i) by lia.
          exact Hpos. }
      destruct val as [ | | | | n | ];
        try (destruct (Hstep _ H) as (Hlen & Hpre & Hhere & Hpos);
             split; [exact Hlen |]; split; [exact Hpre |];
             intros [|i] v Hi; simpl in Hi;
             [injection Hi as <-; now rewrite Nat.add_0_r | exact (Hpos i v Hi)]).
      destruct (isinstance h n "Str") eqn:Hstr.
      + destruct (h !! n ≫= _) as [s|] eqn:Hs; [| discriminate].
        destruct (Hstep _ H) as (Hlen & Hpre & Hhere & Hpos).
        split; [exact Hlen |]. split; [exact Hpre |].
        intros [|i] v Hi; simpl in Hi.
        * injection Hi as <-. rewrite Hstr, Nat.add_0_r. congruence.
        * exact (Hpos i v Hi).
      + destruct (Hstep _ H) as (Hlen & Hpre & Hhere & Hpos).
        split; [exact Hlen |]. split; [exact Hpre |].
        intros [|i] v Hi; simpl in Hi.
        * injection Hi as <-. now rewrite Hstr, Nat.add_0_r.
        * exact (Hpos i v Hi). }
  intros H. destruct (Hgen values [] parts H) as (Hlen & _ & Hpos).
  split; [exact Hlen |]. exact Hpos.
Qed.

Lemma joined_parts_follow_values_witness :
  length [VStr "a"; VStr "<1>"] = 2
  /\ forall i v,
      [VRef 1; VRef 2] !! i = Some v ->
      match v with
      | VRef n =>
          if isinstance Examples.fstring_tree n "Str"
          then [VStr "a"; VStr "<1>"] !! i
               = Examples.fstring_tree !! n ≫= (fun o => assoc "s" (fields o))
          else [VStr "a"; VStr "<1>"] !! i
               = Some (VStr (if Nat.eqb i 1 then "<1>" else "<0>"))
      | _ => [VStr "a"; VStr "<1>"] !! i
             = Some (VStr (if Nat.eqb i 1 then "<1>" else "<0>"))
      end.
Proof.
  exact (joined_parts_follow_values
           (fun i => if Nat.eqb i 1 then "<1>" else "<0>")
           Examples.fstring_tree [VRef 1; VRef 2] [VStr "a"; VStr "<1>"]
           eq_refl).
Defined.

(** ** Indentations that are not text *)

(** A counted [indent_diff] that is not text ends the detection in
    [TypeError]: in the loop when it cannot be hashed, and otherwise in
    [max], where it is a key. *)
Lemma count_indent_diffs_not_text (vals : list value) (v : value) :
  In v vals -> Codegen.truthy v = true -> (forall s, v <> VStr s) ->
  match Codegen.count_indent_diffs vals [] with
  | Ret seen => Codegen.text_items seen = Raise TypeError
  | Raise e => e = TypeError
  end.
Proof.
  intros Hin Hv Hns.
  destruct (Codegen.count_indent_diffs vals []) as [seen|e] eqn:H;
    [| now apply count_indent_diffs_raises in H].
  destruct (count_indent_diffs_keys vals [] seen H)
    as (_ & _ & _ & _ & Hall); [constructor | constructor |].
  destruct (Hall v Hin Hv) as (k & Hk & He).
  apply in_map_iff in Hk as ([k' c] & Hfst & Hkc). simpl in Hfst. subst k'.
  apply (text_items_other seen k c Hkc).
  apply (equal_to_other k v); [| exact He].
  destruct v; try reflexivity. now destruct (Hns s).
Qed.

(** X12: a walked node whose stored [indent_diff] is truthy and is not text
    makes [to_str] end in [TypeError] itself, not in a [PrintError], and
    before the printer has touched any node. *)
Theorem to_str_indent_diff_not_text
        (bv : Codegen.base_visitor) (fuel tree : nat) (h : heap)
        (nodes : list nat) (v : value) :
  Codegen.walk fuel h [tree] = Some nodes ->
  In v (Codegen.indent_diffs h nodes) ->
  Codegen.truthy v = true ->
  (forall s, v <> VStr s) ->
  Codegen.to_str bv fuel tree h = Some (Raise TypeError, h).
Proof.
  intros Hwalk Hin Hv Hns. unfold Codegen.to_str, Codegen.detect_indent_diff.
  rewrite Hwalk.
  pose proof (count_indent_diffs_not_text _ v Hin Hv Hns) as H.
  destruct (Codegen.count_indent_diffs (Codegen.indent_diffs h nodes) [])
    as [seen|e]; [now rewrite H | now subst e].
Qed.

Lemma to_str_indent_diff_not_text_witness :
  Codegen.to_str Examples.failing_visitor 1 0
                 [Obj "Pass" [] (Some [("indent_diff", VInt 4)]) None]
  = Some (Raise TypeError,
          [Obj "Pass" [] (Some [("indent_diff", VInt 4)]) None]).
Proof.
  apply (to_str_indent_diff_not_text
           Examples.failing_visitor 1 0
           [Obj "Pass" [] (Some [("indent_diff", VInt 4)]) None] [0] (VInt 4)).
  - reflexivity.
  - left. reflexivity.
  - reflexivity.
  - intros s. discriminate.
Defined.

(** ** Constant inlining and the formatting *)

Lemma formatting_kept_refl (h : heap) : formatting_kept h h.
Proof. intros i o H. eauto. Qed.

Lemma formatting_kept_trans (h1 h2 h3 : heap) :
  formatting_kept h1 h2 -> formatting_kept h2 h3 -> formatting_kept h1 h3.
Proof.
  intros H12 H23 i o Hi. destruct (H12 i o Hi) as (o2 & H2 & E2 & F2 & G2).
  destruct (H23 i o2 H2) as (o3 & H3 & E3 & F3 & G3). exists o3.
  repeat split; congruence.
Qed.

Lemma formatting_kept_set_fields (h : heap) (p : nat) (o : obj)
      (fs : list (string * value)) :
  h !! p = Some o -> formatting_kept h (<[p := AstUtils.set_fields fs o]> h).
Proof.
  intros Hp i o' Hi. destruct (decide (p = i)) as [-> | Hne].
  - rewrite list_lookup_insert_eq by (eapply lookup_lt_Some; eassumption).
    eexists. split; [reflexivity |]. simpl.
    assert (o' = o) as -> by congruence. auto.
  - rewrite list_lookup_insert_ne by exact Hne. eauto.
Qed.

Lemma formatting_kept_replace_reads (sc : Scope.scope) (v : value)
      (refs : list nat) :
  forall h, formatting_kept h (snd (Inline.replace_reads sc v refs h)).
Proof.
  induction refs as [|r refs IH]; intros h; [apply formatting_kept_refl |].
  set (h1 := AstUtils.replace_child (Scope.parent sc r) r
               (fst (Inline.deepcopy v h)) (snd (Inline.deepcopy v h))).
  assert (Hrun : Inline.replace_reads sc v (r :: refs) h
                 = Inline.replace_reads sc v refs h1) by reflexivity.
  rewrite Hrun. eapply formatting_kept_trans; [| apply IH].
  apply (formatting_kept_trans _ (snd (Inline.deepcopy v h))).
  - intros i o Hi. exists o. split; [| auto]. simpl.
    now apply lookup_app_l_Some.
  - subst h1. unfold AstUtils.replace_child.
    destruct (Scope.parent sc r) as [p|]; [| apply formatting_kept_refl].
    destruct (snd (Inline.deepcopy v h) !! p) as [o|] eqn:Hp;
      [| apply formatting_kept_refl].
    now apply formatting_kept_set_fields.
Qed.

Lemma formatting_kept_remove_assignment (sc : Scope.scope) (name : string)
      (a : nat) (h : heap) :
  formatting_kept h (snd (Inline.remove_assignment sc name a h)).
Proof.
  unfold Inline.remove_assignment, bind, Inline.getattr.
  destruct (h !! a ≫= _) as [targets|]; [| apply formatting_kept_refl].
  destruct targets as [ | | | | | tgts]; try apply formatting_kept_refl.
  destruct (Nat.eqb (length tgts) 1).
  - unfold modify. simpl. unfold AstUtils.remove_child.
    destruct (Scope.parent sc a) as [p|]; [| apply formatting_kept_refl].
    destruct (h !! p) as [o|] eqn:Hp; [| apply formatting_kept_refl].
    now apply formatting_kept_set_fields.
  - destruct (Inline.filter_targets h name tgts); [| apply formatting_kept_refl].
    unfold modify. simpl.
    destruct (h !! a) as [o|] eqn:Ha; [| apply formatting_kept_refl].
    now apply formatting_kept_set_fields.
Qed.

(** X13: however [inline_name] ends, every object of the tree is still
    there, with the class, the formatting and the printer flags it had: the
    rewriting changes fields only, and the copies it makes are new
    objects. *)
Theorem inline_name_keeps_formatting
        (analyze : nat -> heap -> Scope.scope) (astlib : string)
        (t : nat) (name : string) (h h' : heap) (r : outcome unit) :
  Inline.inline_name analyze astlib t name h = (r, h') ->
  formatting_kept h h'.
Proof.
  intros H. assert (Hh : h' = snd (Inline.inline_name analyze astlib t name h))
    by now rewrite H.
  subst h'. clear H. unfold Inline.inline_name, bind at 1, get.
  destruct (Scope.names (analyze t h) !! name) as [entry|];
    [| apply formatting_kept_refl].
  destruct (negb (Inline.opt_isinstance h (Scope.definition entry) "Name"));
    [apply formatting_kept_refl |].
  destruct (negb (Inline.opt_isinstance h _ "Assign"));
    [apply formatting_kept_refl |].
  destruct (Scope.definition entry ≫= Scope.parent (analyze t h)) as [a|];
    [| apply formatting_kept_refl].
  unfold bind at 1, Inline.getattr.
  destruct (h !! a ≫= _) as [v|]; [| apply formatting_kept_refl].
  destruct (negb (Inline.opt_isinstance h _ "Module"));
    [apply formatting_kept_refl |].
  unfold bind at 1. rewrite check_reads_outcome.
  destruct (existsb (Inline.is_store h) (Scope.reads entry));
    [apply formatting_kept_refl |].
  unfold bind at 1.
  pose proof (formatting_kept_replace_reads (analyze t h) v
                                            (Scope.reads entry) h) as H1.
  destruct (Inline.replace_reads (analyze t h) v (Scope.reads entry) h)
    as [[[]|e] h1]; simpl in H1; [| exact H1].
  eapply formatting_kept_trans; [exact H1 |].
  apply formatting_kept_remove_assignment.
Qed.

Lemma inline_name_keeps_formatting_witness :
  formatting_kept
    Examples.chained_tree
    (snd (Inline.inline_name (fun _ _ => Examples.chained_scope) "ast" 0 "y"
                             Examples.chained_tree)).
Proof.
  exact (inline_name_keeps_formatting
           (fun _ _ => Examples.chained_scope) "ast" 0 "y"
           Examples.chained_tree _ (Ret tt) eq_refl).
Defined.

(** ** The dump and missing items *)

Lemma fold_left_raised {A B E}
      (f : option (outcome A * B) -> E -> option (outcome A * B))
      (e : exn) (out : B) (l : list E) :
  (forall x, f (Some (Raise e, out)) x = Some (Raise e, out)) ->
  fold_left f l (Some (Raise e, out)) = Some (Raise e, out).
Proof.
  intros Hf. induction l as [|x l IH]; [reflexivity |].
  simpl. now rewrite Hf.
Qed.

Lemma print_pasta_returns (str : value -> string) (indent : string)
      (d : list (string * value)) :
  forall out, fst (Codegen.print_pasta str indent d out) = Ret tt.
Proof.
  induction d as [|kv d IH]; intros out; [reflexivity |].
  unfold Codegen.print_pasta in *. simpl. unfold bind at 1.
  unfold Codegen.print at 1, modify. apply IH.
Qed.

(** The dump of a node: its line and the lines of its formatting, then its
    fields in order. *)
Lemma to_tree_str_node (dump : heap -> nat -> string) (str : value -> string)
      (fuel : nat) (h : heap) (id : nat) (o : obj) (indent out : string) :
  h !! id = Some o ->
  Codegen.to_tree_str dump str (S fuel) h (VRef id) indent out
  = dump_fields dump str fuel h indent (fields o)
                (dump_head dump str h id o indent out).
Proof.
  intros Ho. cbn [Codegen.to_tree_str]. rewrite Ho.
  assert (Hhead :
            bind (Codegen.print (indent ++ dump h id)%string)
                 (fun _ => match pasta o with
                           | Some d => Codegen.print_pasta str indent d
                           | None => ret tt
                           end) out
            = (Ret tt, dump_head dump str h id o indent out)).
  { unfold dump_head, nl, bind, Codegen.print at 1, modify.
    destruct (pasta o) as [d|]; [| reflexivity].
    match goal with
    | |- context [Codegen.print_pasta ?a ?b ?c ?x] =>
        pose proof (print_pasta_returns a b c x) as H;
        destruct (Codegen.print_pasta a b c x) as [r out1]
    end.
    simpl in H. now subst r. }
  rewrite Hhead. reflexivity.
Qed.

(** X14: a [None] among the items of a list field ends the dump in
    [AttributeError], right after the line for that [None], whatever fields
    and items were dumped before it: none of the later items and fields is
    printed.  A field that is [None] itself is passed over after the line
    for its name, and the dump goes on with the fields after it. *)
Theorem to_tree_str_none_item
        (dump : heap -> nat -> string) (str : value -> string)
        (fuel : nat) (h : heap) (id : nat) (o : obj)
        (indent out : string) :
  h !! id = Some o ->
  (forall pre f before after rest out1 out2,
      fields o = pre ++ (f, VList (before ++ VNone :: after)) :: rest ->
      dump_fields dump str (S fuel) h indent pre
                  (dump_head dump str h id o indent out)
      = Some (Ret tt, out1) ->
      dump_items dump str (S fuel) h indent before
                 (out1 ++ (indent ++ f) ++ nl)%string
      = Some (Ret tt, out2) ->
      Codegen.to_tree_str dump str (S (S fuel)) h (VRef id) indent out
      = Some (Raise AttributeError,
              out2 ++ ((indent ++ "    ") ++ str VNone) ++ nl)%string)
  /\ (forall pre f rest out1,
         fields o = pre ++ (f, VNone) :: rest ->
         dump_fields dump str fuel h indent pre
                     (dump_head dump str h id o indent out)
         = Some (Ret tt, out1) ->
         Codegen.to_tree_str dump str (S fuel) h (VRef id) indent out
         = dump_fields dump str fuel h indent rest
                       (out1 ++ (indent ++ f) ++ nl)%string).
Proof.
  intros Ho. split.
  - intros pre f before after rest out1 out2 Hf Hpre Hbefore.
    rewrite (to_tree_str_node _ _ _ _ _ _ _ _ Ho), Hf.
    unfold dump_fields in *. rewrite fold_left_app, Hpre.
    cbn [fold_left]. unfold dump_field at 2. cbn [snd fst].
    unfold dump_items in *. rewrite fold_left_app, Hbefore.
    cbn [fold_left]. unfold dump_item at 2.
    cbn [Codegen.to_tree_str Codegen.str_of]. unfold Codegen.print, modify.
    rewrite fold_left_raised by reflexivity.
    now rewrite fold_left_raised by reflexivity.
  - intros pre f rest out1 Hf Hpre.
    rewrite (to_tree_str_node _ _ _ _ _ _ _ _ Ho), Hf.
    unfold dump_fields in *. rewrite fold_left_app, Hpre. reflexivity.
Qed.

(** X14, at the arguments of a function with two keyword-only arguments, of
    which only the first has a default: [vararg] is [None] and is
    passed over, and the second item of [kw_defaults] is the [None] the dump
    ends on, so that [kwarg] and [defaults] are not reached. *)
Lemma to_tree_str_none_item_witness :
  Codegen.to_tree_str
    (fun h i => match h !! i with Some o => cls o | None => "" end)
    (fun v => match v with VNone => "None" | _ => "1" end) 3
    [Examples.node "arguments"
       [("args", VList []); ("vararg", VNone);
        ("kwonlyargs", VList [VRef 1; VRef 2]);
        ("kw_defaults", VList [VRef 3; VNone]);
        ("kwarg", VNone); ("defaults", VList [])] None;
     Examples.node "arg" [("arg", VStr "a")] None;
     Examples.node "arg" [("arg", VStr "b")] None;
     Examples.node "Num" [("n", VInt 1)] None]
    (VRef 0) "" ""
  = Some (Raise AttributeError,
          ("arguments" ++ nl ++ "args" ++ nl ++ "vararg" ++ nl
             ++ "kwonlyargs" ++ nl
             ++ "    arg" ++ nl ++ "    arg" ++ nl ++ "        a" ++ nl
             ++ "    arg" ++ nl ++ "    arg" ++ nl ++ "        b" ++ nl
             ++ "kw_defaults" ++ nl
             ++ "    Num" ++ nl ++ "    n" ++ nl ++ "        1" ++ nl
             ++ "    None" ++ nl)%string).
Proof.
  destruct (to_tree_str_none_item
              (fun h i => match h !! i with Some o => cls o | None => "" end)
              (fun v => match v with VNone => "None" | _ => "1" end) 1
              [Examples.node "arguments"
                 [("args", VList []); ("vararg", VNone);
                  ("kwonlyargs", VList [VRef 1; VRef 2]);
                  ("kw_defaults", VList [VRef 3; VNone]);
                  ("kwarg", VNone); ("defaults", VList [])] None;
               Examples.node "arg" [("arg", VStr "a")] None;
               Examples.node "arg" [("arg", VStr "b")] None;
               Examples.node "Num" [("n", VInt 1)] None]
              0 _ "" "" eq_refl) as [H _].
  exact (H [("args", VList []); ("vararg", VNone);
            ("kwonlyargs", VList [VRef 1; VRef 2])]
           "kw_defaults" [VRef 3] [] [("kwarg", VNone); ("defaults", VList [])]
           _ _ eq_refl eq_refl eq_refl).
Defined.

(** ** String literals with a kind *)

(** [lstrip] takes off the longest prefix made of the given characters. *)
Lemma lstrip_split (chars s : string) :
  exists pre,
    s = (pre ++ Visitors.lstrip chars s)%string
    /\ forallb (fun c => Visitors.char_in c chars) (list_ascii_of_string pre)
       = true
    /\ match Visitors.lstrip chars s with
       | EmptyString => True
       | String c _ => Visitors.char_in c chars = false
       end.
Proof.
  induction s as [|c s (pre & Hs & Hpre & Hhead)].
  - exists "". repeat split.
  - simpl. destruct (Visitors.char_in c chars) eqn:Hc.
    + exists (String c pre). split; [| split].
      * change (String c s = String c (pre ++ Visitors.lstrip chars s)).
        now rewrite <- Hs.
      * simpl. now rewrite Hc, Hpre.
      * exact Hhead.
    + exists "". repeat split. exact Hc.
Qed.

Lemma content_or_repr_stored (repr : value -> string) (node : nat) (f : string)
      (p : Codegen.printer) (o : obj) (t : string) :
  Codegen.store p !! node = Some o ->
  Fmt.get o "content" = VStr t ->
  Visitors.content_or_repr repr node f p = (Ret (VStr t), p).
Proof.
  intros Ho Hc. unfold Visitors.content_or_repr, bind, Visitors.the_node.
  now rewrite Ho, Hc.
Qed.

(** X15: for a string node that has a [kind] and no stored [fmt], what goes
    to the output between [prefix] and [suffix] is the kind followed by the
    stored content without its leading letters among [BbRrUu], all of them,
    however many there are. *)
Theorem visit_Str_kind_replaces_letters
        (bv : Codegen.base_visitor) (repr : value -> string) (node : nat)
        (p p1 : Codegen.printer) (o : obj) (k t : string) :
  Codegen.prefix bv node p = (Ret tt, p1) ->
  Codegen.store p1 !! node = Some o ->
  Codegen.truthy (Fmt.get o "fmt") = false ->
  assoc "kind" (fields o) = Some (VStr k) ->
  Fmt.get o "content" = VStr t ->
  exists letters body,
    t = (letters ++ body)%string
    /\ forallb (fun c => Visitors.char_in c "BbRrUu")
               (list_ascii_of_string letters) = true
    /\ match body with
       | EmptyString => True
       | String c _ => Visitors.char_in c "BbRrUu" = false
       end
    /\ Visitors.visit_Str bv repr node p
       = Codegen.suffix bv node (snd (Codegen._add_code (k ++ body) p1)).
Proof.
  intros Hpre Ho Hfmt Hkind Hcontent.
  destruct (lstrip_split "BbRrUu" t) as (letters & Ht & Hletters & Hbody).
  exists letters, (Visitors.lstrip "BbRrUu" t).
  split; [exact Ht |]. split; [exact Hletters |]. split; [exact Hbody |].
  unfold Visitors.visit_Str. unfold bind at 1. rewrite Hpre.
  unfold bind at 1, Visitors.the_node at 1. rewrite Ho, Hfmt.
  unfold Visitors.hasattr. rewrite Hkind.
  unfold bind at 1. unfold bind at 1. unfold Visitors.node_attr.
  rewrite Ho. simpl. rewrite Hkind.
  unfold bind at 1.
  rewrite (content_or_repr_stored repr node "s" p1 o t Ho Hcontent).
  reflexivity.
Qed.

Lemma visit_Str_kind_replaces_letters_witness :
  exists letters body,
    "uR'a'" = (letters ++ body)%string
    /\ forallb (fun c => Visitors.char_in c "BbRrUu")
               (list_ascii_of_string letters) = true
    /\ match body with
       | EmptyString => True
       | String c _ => Visitors.char_in c "BbRrUu" = false
       end
    /\ Visitors.visit_Str Examples.failing_visitor (fun _ => "") 0
         (Codegen.Printer "x = " ""
            [Examples.node "Str" [("s", VStr "a"); ("kind", VStr "b")]
                           (Some [("content", VStr "uR'a'")])])
       = Codegen.suffix Examples.failing_visitor 0
           (snd (Codegen._add_code ("b" ++ body)
                   (Codegen.Printer "x = " ""
                      [Examples.node "Str" [("s", VStr "a"); ("kind", VStr "b")]
                                     (Some [("content", VStr "uR'a'")])]))).
Proof.
  exact (visit_Str_kind_replaces_letters
           Examples.failing_visitor (fun _ => "") 0
           (Codegen.Printer "x = " ""
              [Examples.node "Str" [("s", VStr "a"); ("kind", VStr "b")]
                             (Some [("content", VStr "uR'a'")])])
           (Codegen.Printer "x = " ""
              [Examples.node "Str" [("s", VStr "a"); ("kind", VStr "b")]
                             (Some [("content", VStr "uR'a'")])])
           (Examples.node "Str" [("s", VStr "a"); ("kind", VStr "b")]
                          (Some [("content", VStr "uR'a'")]))
           "b" "uR'a'"
           eq_refl eq_refl eq_refl eq_refl eq_refl).
Defined.

(** X16: a string node whose [kind] is there and is not text, [None] for
    instance, cannot be printed when no [fmt] is stored.  When its text is
    at hand, stored as content or taken from its [s], adding the kind to the
    text fails with [TypeError], which [visit] hands on as a [PrintError];
    when a content is stored that is not text, or when nothing is stored and
    the node has no [s], it ends in [AttributeError], which [visit] hands on
    as it is.  Either way nothing is written after [prefix], and the flags
    of the node are left in place. *)
Theorem visit_Str_kind_not_text
        (bv : Codegen.base_visitor) (repr : value -> string) (node : nat)
        (p p1 : Codegen.printer) (o o1 : obj) (kind : value) :
  Codegen.store p !! node = Some o ->
  Codegen.prefix bv node
    (Codegen.Printer (Codegen._code p) (Codegen._indent p)
       (<[node := Codegen.set_printer_info (Some ∅) o]> (Codegen.store p)))
  = (Ret tt, p1) ->
  Codegen.store p1 !! node = Some o1 ->
  Codegen.truthy (Fmt.get o1 "fmt") = false ->
  assoc "kind" (fields o1) = Some kind ->
  (forall k, kind <> VStr k) ->
  ((exists t, Fmt.get o1 "content" = VStr t)
   \/ (Fmt.get o1 "content" = VNone /\ exists v, assoc "s" (fields o1) = Some v) ->
   Codegen.visit (Visitors.visit_Str bv repr) node p
   = (Raise (PrintError TypeError), p1))
  /\ ((Fmt.get o1 "content" <> VNone
       /\ forall t, Fmt.get o1 "content" <> VStr t)
      \/ (Fmt.get o1 "content" = VNone /\ assoc "s" (fields o1) = None) ->
      Codegen.visit (Visitors.visit_Str bv repr) node p
      = (Raise AttributeError, p1)).
Proof.
  intros Ho Hpre Ho1 Hfmt Hkind Hnot.
  assert (Hshape :
            Visitors.visit_Str bv repr node
              (Codegen.Printer (Codegen._code p) (Codegen._indent p)
                 (<[node := Codegen.set_printer_info (Some ∅) o]>
                    (Codegen.store p)))
            = match Visitors.content_or_repr repr node "s" p1 with
              | (Ret (VStr t), p2) => (Raise TypeError, p2)
              | (Ret _, p2) => (Raise AttributeError, p2)
              | (Raise e, p2) => (Raise e, p2)
              end).
  { unfold Visitors.visit_Str. unfold bind at 1. rewrite Hpre.
    unfold bind at 1, Visitors.the_node at 1. rewrite Ho1, Hfmt.
    unfold Visitors.hasattr. rewrite Hkind.
    unfold bind at 1. unfold bind at 1. unfold Visitors.node_attr.
    rewrite Ho1. simpl. rewrite Hkind.
    unfold bind at 1.
    destruct (Visitors.content_or_repr repr node "s" p1) as [[text|e] p2];
      [| reflexivity].
    destruct text; try reflexivity.
    destruct kind; try reflexivity. now destruct (Hnot s0). }
  assert (Hvisit : forall e,
             Visitors.visit_Str bv repr node
               (Codegen.Printer (Codegen._code p) (Codegen._indent p)
                  (<[node := Codegen.set_printer_info (Some ∅) o]>
                     (Codegen.store p)))
             = (Raise e, p1) ->
             Codegen.visit (Visitors.visit_Str bv repr) node p
             = (Raise (if Codegen.internal_error e then PrintError e else e),
                p1)).
  { intros e He. rewrite visit_outcome.
    unfold Codegen.update_node, modify. rewrite Ho. cbn [snd].
    unfold Codegen.set_store. now rewrite He. }
  unfold Visitors.content_or_repr, bind, Visitors.the_node in Hshape.
  rewrite Ho1 in Hshape. split.
  - intros [[t Hc] | [Hc [v Hs]]]; rewrite Hc in Hshape; simpl in Hshape.
    + exact (Hvisit TypeError Hshape).
    + unfold Visitors.node_attr in Hshape. rewrite Ho1 in Hshape.
      simpl in Hshape. rewrite Hs in Hshape.
      exact (Hvisit TypeError Hshape).
  - intros [[Hc Hnt] | [Hc Hs]].
    + destruct (Fmt.get o1 "content") as [ | | | t | | ] eqn:E;
        try contradiction; simpl in Hshape;
        try exact (Hvisit AttributeError Hshape).
      now destruct (Hnt t).
    + rewrite Hc in Hshape. simpl in Hshape.
      unfold Visitors.node_attr in Hshape. rewrite Ho1 in Hshape.
      simpl in Hshape. rewrite Hs in Hshape.
      exact (Hvisit AttributeError Hshape).
Qed.

(** X16, at a string node without formatting whose [kind] is [None]: the
    text is the [repr] of its [s]. *)
Lemma visit_Str_kind_not_text_witness :
  Codegen.visit (Visitors.visit_Str Examples.failing_visitor (fun _ => "'a'")) 0
    (Codegen.Printer "x = " ""
       [Examples.node "Str" [("s", VStr "a"); ("kind", VNone)] None])
  = (Raise (PrintError TypeError),
     Codegen.Printer "x = " ""
       [Obj "Str" [("s", VStr "a"); ("kind", VNone)] None (Some ∅)]).
Proof.
  destruct (visit_Str_kind_not_text
              Examples.failing_visitor (fun _ => "'a'") 0
              (Codegen.Printer "x = " ""
                 [Examples.node "Str" [("s", VStr "a"); ("kind", VNone)] None])
              (Codegen.Printer "x = " ""
                 [Obj "Str" [("s", VStr "a"); ("kind", VNone)] None (Some ∅)])
              (Examples.node "Str" [("s", VStr "a"); ("kind", VNone)] None)
              (Obj "Str" [("s", VStr "a"); ("kind", VNone)] None (Some ∅))
              VNone eq_refl eq_refl eq_refl eq_refl eq_refl
              ltac:(intros k; discriminate)) as [H _].
  apply H. right. split; [reflexivity |]. now exists (VStr "a").
Defined.
